(** * Chunked extraction pipeline: checkpointing, retry and reassembly

    A shallow embedding of the three driver scripts of the extraction
    component,

    - [extract_script.py]  (plain text mode),
    - [test.py]            (structured per-clause mode),
    - [test_v1.py]         (grouped-section mode),

    together with the properties of their checkpoint, retry and assembly
    logic.

    Modelling conventions.
    - A Python [str] is a [string] (a sequence of bytes); comparison is
      byte-wise lexicographic, which is code-point order on UTF-8 text.
    - Paths follow [posixpath].
    - A directory is an association list from entry names to file contents,
      in the order [os.listdir] reports them (an order Python leaves
      unspecified).
    - The remote service is an oracle indexed by the number of remote calls
      made so far; a call either returns a payload or raises an exception
      whose [str(e)] is recorded.
    - Effects (remote calls, file writes, sleeps, prints) are recorded in a
      chronological trace; the messages printed inside the service
      wrappers belong to the remote call.
    - An exception that no handler catches ends the run: the act body
      returns [Uncaught].

    Assumptions on the environment.
    - A call that returns gives a payload of the type the mode expects: a
      [str] in text mode, a decoded JSON value in the structured modes
      (where [json.loads] failing in the wrapper is a call that raises).
    - File operations succeed, files hold valid UTF-8, and the entries of
      the directories are regular files.
    - The scripts run on a POSIX system, where writing in text mode leaves
      line feeds as they are; pathlib is the one of Python 3.13 or earlier.
    - JSON numbers are rationals; NaN and the infinities, which [json.load]
      also accepts, are left out.
    - [lower] and the characters of a string are taken on ASCII text. *)

From Stdlib Require Import ZArith QArith Ascii String.
From stdpp Require Import base list strings sorting.

(** ** Python string operations *)

Module Py.

(** [s.startswith(pre)] *)
Definition startswith (s pre : string) : bool := String.prefix pre s.

(** [s.endswith(suf)]: some suffix of [s] is [suf]. *)
Fixpoint endswith (s suf : string) : bool :=
  String.eqb s suf ||
  match s with
  | EmptyString => false
  | String _ r => endswith r suf
  end.

(** [sub in s] *)
Fixpoint contains (sub s : string) : bool :=
  String.prefix sub s ||
  match s with
  | EmptyString => false
  | String _ r => contains sub r
  end.

Definition lower_ascii (c : ascii) : ascii :=
  let n := Ascii.nat_of_ascii c in
  if (65 <=? n)%nat && (n <=? 90)%nat then Ascii.ascii_of_nat (n + 32) else c.

(** [s.lower()] on ASCII letters. *)
Fixpoint lower (s : string) : string :=
  match s with
  | EmptyString => EmptyString
  | String c r => String (lower_ascii c) (lower r)
  end.

(** [sep.join(parts)] *)
Fixpoint join (sep : string) (parts : list string) : string :=
  match parts with
  | [] => ""
  | [x] => x
  | x :: rest => x +:+ sep +:+ join sep rest
  end.

(** [sorted(l)] on a list of strings. Python's sort is stable; on strings
    equal keys are equal values, so the result is the unique ascending
    arrangement of [l]. *)
Definition sorted (l : list string) : list string := merge_sort String.le l.

(** Universal-newline translation performed by [open(path, "r")] on
    reading: each of "\r\n" and "\r" becomes "\n". *)
Fixpoint universal_newlines (s : string) : string :=
  match s with
  | EmptyString => EmptyString
  | String c r =>
      if Ascii.eqb c "013" then
        match r with
        | String c' r' =>
            if Ascii.eqb c' "010" then String "010" (universal_newlines r')
            else String "010" (universal_newlines r)
        | EmptyString => String "010" EmptyString
        end
      else String c (universal_newlines r)
  end.

End Py.

(** ** [os.path] and [pathlib] *)

Module OsPath.

Definition sep : ascii := "/".

Fixpoint has_sep (p : string) : bool :=
  match p with
  | EmptyString => false
  | String c r => Ascii.eqb c sep || has_sep r
  end.

Definition join2 (path b : string) : string :=
  if Py.startswith b "/" then b
  else if String.eqb path "" || Py.endswith path "/" then path +:+ b
  else path +:+ "/" +:+ b.

(** [os.path.join(a, *p)] *)
Definition join (a : string) (p : list string) : string :=
  fold_left join2 p a.

(** [os.path.basename(p)]: what follows the last separator. *)
Fixpoint basename (p : string) : string :=
  match p with
  | EmptyString => EmptyString
  | String c r =>
      if has_sep r then basename r
      else if Ascii.eqb c sep then r
      else p
  end.

(** [name.rfind('.')], [None] standing for -1. *)
Fixpoint rfind_dot (name : string) : option nat :=
  match name with
  | EmptyString => None
  | String c r =>
      match rfind_dot r with
      | Some i => Some (S i)
      | None => if Ascii.eqb c "." then Some 0%nat else None
      end
  end.

(** [pathlib.Path(name).stem] for a one-component path: the name without
    its last suffix; a leading or a trailing dot starts no suffix. *)
Definition stem (name : string) : string :=
  match rfind_dot name with
  | Some i =>
      if (0 <? i)%nat && (i <? String.length name - 1)%nat
      then String.substring 0 i name
      else name
  | None => name
  end.

End OsPath.

(** ** Directories

    A directory at path [d] holds named entries; a file of the directory is
    addressed by the path [os.path.join(d, name)]. *)

Module Fs.

Definition dir (A : Type) : Type := list (string * A).

Section Dir.
Context {A : Type}.
Variable d : string.

Definition path_of (name : string) : string := OsPath.join d [name].

(** [os.listdir(d)] *)
Definition listdir (fs : dir A) : list string := fs.*1.

(** The paths of the files of the directory, in listing order. *)
Definition paths (fs : dir A) : list string := path_of <$> listdir fs.

(** [open(p, "r")]: the content of the file at path [p], if there is one. *)
Fixpoint read (fs : dir A) (p : string) : option A :=
  match fs with
  | [] => None
  | (name, c) :: rest =>
      if String.eqb (path_of name) p then Some c else read rest p
  end.

(** [os.path.exists(p)] *)
Definition path_exists (fs : dir A) (p : string) : bool :=
  match read fs p with
  | Some _ => true
  | None => false
  end.

Fixpoint overwrite (fs : dir A) (p : string) (c : A) : dir A :=
  match fs with
  | [] => []
  | (name, c0) :: rest =>
      if String.eqb (path_of name) p then (name, c) :: rest
      else (name, c0) :: overwrite rest p c
  end.

(** [open(p, "w")] followed by a complete write of [c]: an existing file is
    replaced in place, otherwise a new entry is created. *)
Definition write (fs : dir A) (p : string) (c : A) : dir A :=
  if path_exists fs p then overwrite fs p c
  else fs ++ [(OsPath.basename p, c)].

(** Distinct entries of a directory have distinct paths. *)
Definition wf (fs : dir A) : Prop := NoDup (paths fs).

End Dir.

End Fs.

(** ** JSON values, as [json.load] returns them *)

#[local] Set Warnings "-register-all".

Inductive json : Type :=
| JNull
| JBool (b : bool)
| JNum (q : Q)
| JStr (s : string)
| JArr (items : list json)
| JObj (members : list (string * json)).

(** What [json.load] makes of a file: a value, or [JSONDecodeError]. *)
Inductive jfile : Type :=
| Json (v : json)
| Malformed.

Module PyJson.

(** [d.get(key)] on a dict; [None] (JSON null) when the key is absent. *)
Fixpoint dict_get (key : string) (members : list (string * json)) : json :=
  match members with
  | [] => JNull
  | (k, v) :: rest => if String.eqb k key then v else dict_get key rest
  end.

(** Truth value of an object in a condition. *)
Definition truthy (v : json) : bool :=
  match v with
  | JNull => false
  | JBool b => b
  | JNum q => negb (Qeq_bool q 0)
  | JStr s => negb (String.eqb s "")
  | JArr items => match items with [] => false | _ => true end
  | JObj members => match members with [] => false | _ => true end
  end.

(** The elements [list.extend(v)] appends; [None] is [TypeError] (the
    object is not iterable). A dict yields its keys, a string its
    characters. *)
Definition iterate (v : json) : option (list json) :=
  match v with
  | JArr items => Some items
  | JObj members => Some ((λ kv, JStr kv.1) <$> members)
  | JStr s => Some ((λ c, JStr (String c EmptyString)) <$> list_ascii_of_string s)
  | JNull | JBool _ | JNum _ => None
  end.

(** [v == "Unknown"] *)
Definition eq_unknown (v : json) : bool :=
  match v with
  | JStr s => String.eqb s "Unknown"
  | _ => false
  end.

(** [v != "Unknown"] *)
Definition ne_unknown (v : json) : bool := negb (eq_unknown v).

End PyJson.

(** ** Effects *)

Inductive message : Type :=
| ProcessingAct (act_name : string)
| FinalExists
| NoChunksFound (act_name : string)
| FoundChunks (n : nat) (act_name : string)
| SkippingChunk (chunk_basename : string)
| Success (chunk_basename : string)
| Waiting (secs : Z)
| UnexpectedError (attempt max_retries : nat) (e : string)
| ErrorOnAttempt (attempt max_retries : nat) (chunk_basename e : string)
| RateLimitHit (secs : Z)
| Failed (chunk_basename : string) (max_retries : nat)
| Combining (act_name : string)
| CouldNotDecode (temp_basename : string)
| Saved (final_path : string).

Inductive event : Type :=
| Extract (chunk_path : string)
| WriteFile (path : string)
| Sleep (secs : Z)
| Print (m : message).

(** Outcome of one remote extraction call: the payload, or an exception
    with its [str(e)]. *)
Inductive outcome (A : Type) : Type :=
| Returned (payload : A)
| Raised (e : string).
Arguments Returned {A} payload.
Arguments Raised {A} e.

(** An exception no handler of the script catches. *)
Inductive exn : Type :=
| AttributeError
| TypeError.

Inductive result (A : Type) : Type :=
| Ok (x : A)
| Uncaught (e : exn).
Arguments Ok {A} x.
Arguments Uncaught {A} e.

(** The remote service: the [n]-th remote call of the run (counting from
    0), made on a chunk path. *)
Definition service (A : Type) : Type := nat → string → outcome A.

(** State of a run while one act is processed: the act's checkpoint
    directory, the directory of final artifacts, the number of remote calls
    made, and the effects so far. *)
Record state (C : Type) : Type := mkState {
  temp : Fs.dir C;
  final : Fs.dir C;
  ncalls : nat;
  trace : list event
}.
Arguments mkState {C} temp final ncalls trace.
Arguments temp {C} s.
Arguments final {C} s.
Arguments ncalls {C} s.
Arguments trace {C} s.

Definition emit {C} (evs : list event) (st : state C) : state C :=
  mkState (temp st) (final st) (ncalls st) (trace st ++ evs).

Definition remote_call {C} (chunk_path : string) (st : state C) : state C :=
  mkState (temp st) (final st) (S (ncalls st)) (trace st ++ [Extract chunk_path]).

Definition write_temp {C} (d p : string) (c : C) (st : state C) : state C :=
  mkState (Fs.write d (temp st) p c) (final st) (ncalls st)
    (trace st ++ [WriteFile p]).

Definition write_final {C} (d p : string) (c : C) (st : state C) : state C :=
  mkState (temp st) (Fs.write d (final st) p c) (ncalls st)
    (trace st ++ [WriteFile p]).

(** The effects of a run from [st] to [st']. *)
Definition events_since {C} (st st' : state C) : list event :=
  drop (length (trace st)) (trace st').

Definition is_extract (e : event) : bool :=
  match e with Extract _ => true | _ => false end.

Definition is_write (e : event) : bool :=
  match e with WriteFile _ => true | _ => false end.

Definition sleeps (evs : list event) : list Z :=
  omap (λ e, match e with Sleep s => Some s | _ => None end) evs.

(** ** The per-chunk loop shared by the three scripts

    The scripts differ in the checkpoint suffix, in how the payload is
    written, and in what follows a success and a failure. *)

Record policy (A C : Type) : Type := mkPolicy {
  suffix : string;
  dump : A → C;
  max_retries : nat;
  after_success : string → list event;
  after_error : nat → string → string → list event
}.
Arguments mkPolicy {A C} suffix dump max_retries after_success after_error.
Arguments suffix {A C} p.
Arguments dump {A C} p.
Arguments max_retries {A C} p.
Arguments after_success {A C} p.
Arguments after_error {A C} p.

Section ChunkLoop.
Context {A C : Type}.
Variable pol : policy A C.
Variable extract : service A.
Variable temp_act_chunk_path : string.

(** The checkpoint of a chunk:
    [os.path.join(temp_act_chunk_path,
                  f"{pathlib.Path(chunk_basename).stem}{suffix}")]. *)
Definition checkpoint_path (chunk_path : string) : string :=
  OsPath.join temp_act_chunk_path
    [OsPath.stem (OsPath.basename chunk_path) +:+ suffix pol].

(** [for attempt in range(MAX_RETRIES): try ... break except ... else ...],
    entered at iteration [attempt] with [remaining] iterations to go. *)
Fixpoint attempts (chunk_path : string) (attempt remaining : nat)
    (st : state C) : state C :=
  let chunk_basename := OsPath.basename chunk_path in
  match remaining with
  | O => emit [Print (Failed chunk_basename (max_retries pol))] st
  | S remaining' =>
      let st1 := remote_call chunk_path st in
      match extract (ncalls st) chunk_path with
      | Returned payload =>
          emit (after_success pol chunk_basename)
            (write_temp temp_act_chunk_path (checkpoint_path chunk_path)
               (dump pol payload) st1)
      | Raised e =>
          attempts chunk_path (S attempt) remaining'
            (emit (after_error pol attempt chunk_basename e) st1)
      end
  end.

Definition process_chunk (chunk_path : string) (st : state C) : state C :=
  if Fs.path_exists temp_act_chunk_path (temp st) (checkpoint_path chunk_path)
  then emit [Print (SkippingChunk (OsPath.basename chunk_path))] st
  else attempts chunk_path 0 (max_retries pol) st.

Definition process_chunks (chunks_to_process : list string) (st : state C)
    : state C :=
  fold_left (λ st chunk_path, process_chunk chunk_path st) chunks_to_process st.

End ChunkLoop.

(** [os.listdir] on the chunk folders, which the scripts only read: the
    entry names of a directory, or [None] when the path is no directory. *)
Definition listing : Type := string → option (list string).

Definition is_pdf (filename : string) : bool :=
  Py.endswith (Py.lower filename) ".pdf".

(** The separator of [Py.join] in text mode: two line feeds. *)
Definition blank_line : string := String "010" (String "010" EmptyString).

(** ** [extract_script.py]: plain text mode *)

Module ExtractScript.

Definition TOP_LEVEL_FOLDER : string := "extraction-component".
Definition TEMP_OUTPUT_FOLDER : string := "temp_extracted_chunks".
Definition FINAL_OUTPUT_FOLDER : string := "extracted_acts_final".
Definition MAX_RETRIES : nat := 3.
Definition RETRY_DELAY_SECONDS : Z := 70.
Definition PROACTIVE_DELAY_SECONDS : Z := 65.

Definition final_output_path : string :=
  OsPath.join TOP_LEVEL_FOLDER [FINAL_OUTPUT_FOLDER].
Definition temp_output_path_base : string :=
  OsPath.join TOP_LEVEL_FOLDER [TEMP_OUTPUT_FOLDER].

(** The [try] body after the call and the [except Exception] handler. The
    handler sleeps ten seconds whatever the exception is;
    [RETRY_DELAY_SECONDS] is not used by this script. *)
Definition pol : policy string string :=
  mkPolicy ".txt" id MAX_RETRIES
    (λ chunk_basename,
       [Print (Success chunk_basename);
        Print (Waiting PROACTIVE_DELAY_SECONDS);
        Sleep PROACTIVE_DELAY_SECONDS])
    (λ attempt chunk_basename e,
       [Print (UnexpectedError (attempt + 1) MAX_RETRIES e); Sleep 10]).

(** The chunk list: for each of the two subfolders that exists, its PDF
    files in sorted order. *)
Definition chunks_to_process (ls : listing) (nested_act_path : string)
    : list string :=
  subfolder ← ["Initial Chunk"; "Overlap Chunk"];
  let subfolder_path := OsPath.join nested_act_path [subfolder] in
  match ls subfolder_path with
  | Some names =>
      (λ filename, OsPath.join subfolder_path [filename])
        <$> filter is_pdf (Py.sorted names)
  | None => []
  end.

(** The final combination loop: the text read from the checkpoint of each
    chunk that has one, in the order of the chunk list. *)
Definition final_text_parts (temp_act_chunk_path : string)
    (chunks : list string) (temp : Fs.dir string) : list string :=
  omap (λ chunk_path,
          Py.universal_newlines
            <$> Fs.read temp_act_chunk_path temp
                  (checkpoint_path pol temp_act_chunk_path chunk_path))
       chunks.

(** The body of [for act_name in main_act_folders]. *)
Definition process_act (ls : listing) (extract : service string)
    (act_name : string) (st : state string) : state string :=
  let st := emit [Print (ProcessingAct act_name)] st in
  let nested_act_path := OsPath.join TOP_LEVEL_FOLDER [act_name; act_name] in
  let temp_act_chunk_path := OsPath.join temp_output_path_base [act_name] in
  let chunks := chunks_to_process ls nested_act_path in
  match chunks with
  | [] => emit [Print (NoChunksFound act_name)] st
  | _ :: _ =>
      let st := emit [Print (FoundChunks (length chunks) act_name)] st in
      let st := process_chunks pol extract temp_act_chunk_path chunks st in
      let st := emit [Print (Combining act_name)] st in
      match final_text_parts temp_act_chunk_path chunks (temp st) with
      | [] => st
      | (_ :: _) as parts =>
          let full_act_text := Py.join blank_line parts in
          let final_act_path :=
            OsPath.join final_output_path [act_name +:+ ".txt"] in
          emit [Print (Saved final_act_path)]
            (write_final final_output_path final_act_path full_act_text st)
      end
  end.

End ExtractScript.

(** ** What [test.py] and [test_v1.py] have in common, literally

    Both scripts list the chunks and the checkpoint files with the same
    expressions. *)

Module Structured.

(** [sorted([os.path.join(nested_act_path, sub, f) for sub in [...]
             if os.path.isdir(...) for f in os.listdir(...)
             if f.lower().endswith('.pdf')])] *)
Definition chunks_to_process (ls : listing) (nested_act_path : string)
    : list string :=
  Py.sorted
    (sub ← ["Initial Chunk"; "Overlap Chunk"];
     match ls (OsPath.join nested_act_path [sub]) with
     | Some names =>
         (λ f, OsPath.join nested_act_path [sub; f]) <$> filter is_pdf names
     | None => []
     end).

(** [sorted([os.path.join(temp_act_chunk_path, f)
             for f in os.listdir(temp_act_chunk_path) if f.endswith('.json')])] *)
Definition temp_json_files {C} (temp_act_chunk_path : string)
    (temp : Fs.dir C) : list string :=
  Py.sorted
    ((λ f, OsPath.join temp_act_chunk_path [f])
       <$> filter (λ f, Py.endswith f ".json") (Fs.listdir temp)).

(** ["429" in str(e) or "ResourceExhausted" in str(e)] *)
Definition is_rate_limit (e : string) : bool :=
  Py.contains "429" e || Py.contains "ResourceExhausted" e.

End Structured.

(** ** [test.py]: structured per-clause mode *)

Module Test.

Definition TOP_LEVEL_FOLDER : string := ".".
Definition FINAL_OUTPUT_FOLDER : string := "extracted_acts_structured_json".
Definition TEMP_CHUNK_JSON_FOLDER : string := "temp_chunk_json".
Definition MAX_RETRIES : nat := 3.
Definition RETRY_DELAY_SECONDS : Z := 70.
Definition PROACTIVE_DELAY_SECONDS : Z := 5.

Definition final_output_path : string :=
  OsPath.join TOP_LEVEL_FOLDER [FINAL_OUTPUT_FOLDER].
Definition temp_output_path_base : string :=
  OsPath.join TOP_LEVEL_FOLDER [TEMP_CHUNK_JSON_FOLDER].

Definition pol : policy json jfile :=
  mkPolicy ".json" Json MAX_RETRIES
    (λ chunk_basename,
       [Print (Success chunk_basename); Sleep PROACTIVE_DELAY_SECONDS])
    (λ attempt chunk_basename e,
       Print (ErrorOnAttempt (attempt + 1) MAX_RETRIES chunk_basename e)
       :: if Structured.is_rate_limit e
          then [Print (RateLimitHit RETRY_DELAY_SECONDS);
                Sleep RETRY_DELAY_SECONDS]
          else [Sleep 10]).

(** The accumulators of the final combination. *)
Record acc : Type := mkAcc {
  all_clauses : list json;
  final_act_name : json;
  final_act_number : json
}.

Definition acc0 : acc := mkAcc [] (JStr "Unknown") (JStr "Unknown").

(** The [try] body of the combination loop after a successful
    [json.load]. [temp_data.get] exists on a dict only; [extend] needs an
    iterable. Neither [AttributeError] nor [TypeError] is caught. *)
Definition combine_step (temp_data : json) (a : acc) : result acc :=
  match temp_data with
  | JObj members =>
      let clauses := PyJson.dict_get "clauses" members in
      match (if PyJson.truthy clauses then PyJson.iterate clauses else Some []) with
      | None => Uncaught TypeError
      | Some more =>
          Ok (mkAcc
                (all_clauses a ++ more)
                (if PyJson.eq_unknown (final_act_name a)
                    && PyJson.ne_unknown (PyJson.dict_get "act_name" members)
                 then PyJson.dict_get "act_name" members
                 else final_act_name a)
                (if PyJson.eq_unknown (final_act_number a)
                    && PyJson.ne_unknown (PyJson.dict_get "act_number" members)
                 then PyJson.dict_get "act_number" members
                 else final_act_number a))
      end
  | _ => Uncaught AttributeError
  end.

(** [for temp_json_path in temp_json_files: try ... except
    (json.JSONDecodeError, FileNotFoundError) ...], with the warnings it
    prints. *)
Fixpoint combine (temp_act_chunk_path : string) (temp : Fs.dir jfile)
    (temp_json_files : list string) (a : acc) (log : list event)
    : result (acc * list event) :=
  match temp_json_files with
  | [] => Ok (a, log)
  | temp_json_path :: rest =>
      match Fs.read temp_act_chunk_path temp temp_json_path with
      | Some (Json temp_data) =>
          match combine_step temp_data a with
          | Ok a' => combine temp_act_chunk_path temp rest a' log
          | Uncaught e => Uncaught e
          end
      | Some Malformed | None =>
          combine temp_act_chunk_path temp rest a
            (log ++ [Print (CouldNotDecode (OsPath.basename temp_json_path))])
      end
  end.

Definition final_json_data (a : acc) : json :=
  JObj [("act_name", final_act_name a);
        ("act_number", final_act_number a);
        ("clauses", JArr (all_clauses a))].

(** The body of [for act_name in main_act_folders]. *)
Definition process_act (ls : listing) (extract : service json)
    (act_name : string) (st : state jfile) : result (state jfile) :=
  let st := emit [Print (ProcessingAct act_name)] st in
  let final_act_json_path :=
    OsPath.join final_output_path [act_name +:+ ".json"] in
  if Fs.path_exists final_output_path (final st) final_act_json_path
  then Ok (emit [Print FinalExists] st)
  else
    let nested_act_path := OsPath.join TOP_LEVEL_FOLDER [act_name; act_name] in
    let temp_act_chunk_path := OsPath.join temp_output_path_base [act_name] in
    let chunks := Structured.chunks_to_process ls nested_act_path in
    match chunks with
    | [] => Ok (emit [Print (NoChunksFound act_name)] st)
    | _ :: _ =>
        let st := emit [Print (FoundChunks (length chunks) act_name)] st in
        let st := process_chunks pol extract temp_act_chunk_path chunks st in
        let st := emit [Print (Combining act_name)] st in
        match combine temp_act_chunk_path (temp st)
                (Structured.temp_json_files temp_act_chunk_path (temp st))
                acc0 [] with
        | Uncaught e => Uncaught e
        | Ok (a, log) =>
            let st := emit log st in
            match all_clauses a with
            | [] => Ok st
            | _ :: _ =>
                Ok (emit [Print (Saved final_act_json_path)]
                      (write_final final_output_path final_act_json_path
                         (Json (final_json_data a)) st))
            end
        end
    end.

End Test.

(** ** [test_v1.py]: grouped-section mode *)

Module TestV1.

Definition TOP_LEVEL_FOLDER : string := ".".
Definition FINAL_OUTPUT_FOLDER : string := "extracted_acts_grouped_json".
Definition TEMP_CHUNK_JSON_FOLDER : string := "temp_chunk_grouped_json".
Definition MAX_RETRIES : nat := 3.
Definition RETRY_DELAY_SECONDS : Z := 70.
Definition PROACTIVE_DELAY_SECONDS : Z := 5.

Definition final_output_path : string :=
  OsPath.join TOP_LEVEL_FOLDER [FINAL_OUTPUT_FOLDER].
Definition temp_output_path_base : string :=
  OsPath.join TOP_LEVEL_FOLDER [TEMP_CHUNK_JSON_FOLDER].

Definition pol : policy json jfile :=
  mkPolicy ".json" Json MAX_RETRIES
    (λ chunk_basename,
       [Print (Success chunk_basename); Sleep PROACTIVE_DELAY_SECONDS])
    (λ attempt chunk_basename e,
       Print (ErrorOnAttempt (attempt + 1) MAX_RETRIES chunk_basename e)
       :: if Structured.is_rate_limit e
          then [Print (RateLimitHit RETRY_DELAY_SECONDS);
                Sleep RETRY_DELAY_SECONDS]
          else [Sleep 10]).

(** [for temp_json_path in temp_json_files: try ... master_clause_list
    .extend(json.load(f)) except (json.JSONDecodeError, FileNotFoundError)
    ...], with the warnings it prints. A [TypeError] of [extend] is not
    caught. *)
Fixpoint combine (temp_act_chunk_path : string) (temp : Fs.dir jfile)
    (temp_json_files : list string) (master_clause_list : list json)
    (log : list event) : result (list json * list event) :=
  match temp_json_files with
  | [] => Ok (master_clause_list, log)
  | temp_json_path :: rest =>
      match Fs.read temp_act_chunk_path temp temp_json_path with
      | Some (Json clauses_from_chunk) =>
          match PyJson.iterate clauses_from_chunk with
          | Some more =>
              combine temp_act_chunk_path temp rest
                (master_clause_list ++ more) log
          | None => Uncaught TypeError
          end
      | Some Malformed | None =>
          combine temp_act_chunk_path temp rest master_clause_list
            (log ++ [Print (CouldNotDecode (OsPath.basename temp_json_path))])
      end
  end.

(** The body of [for act_name in main_act_folders]. *)
Definition process_act (ls : listing) (extract : service json)
    (act_name : string) (st : state jfile) : result (state jfile) :=
  let st := emit [Print (ProcessingAct act_name)] st in
  let final_act_json_path :=
    OsPath.join final_output_path [act_name +:+ ".json"] in
  if Fs.path_exists final_output_path (final st) final_act_json_path
  then Ok (emit [Print FinalExists] st)
  else
    let nested_act_path := OsPath.join TOP_LEVEL_FOLDER [act_name; act_name] in
    let temp_act_chunk_path := OsPath.join temp_output_path_base [act_name] in
    let chunks := Structured.chunks_to_process ls nested_act_path in
    match chunks with
    | [] => Ok (emit [Print (NoChunksFound act_name)] st)
    | _ :: _ =>
        let st := emit [Print (FoundChunks (length chunks) act_name)] st in
        let st := process_chunks pol extract temp_act_chunk_path chunks st in
        let st := emit [Print (Combining act_name)] st in
        match combine temp_act_chunk_path (temp st)
                (Structured.temp_json_files temp_act_chunk_path (temp st))
                [] [] with
        | Uncaught e => Uncaught e
        | Ok (master_clause_list, log) =>
            let st := emit log st in
            match master_clause_list with
            | [] => Ok st
            | _ :: _ =>
                Ok (emit [Print (Saved final_act_json_path)]
                      (write_final final_output_path final_act_json_path
                         (Json (JArr master_clause_list)) st))
            end
        end
    end.

End TestV1.

(** ** Observations on runs, used to state the properties *)

(** Remote calls and sleeps of a trace, in order. *)
Definition timeline (evs : list event) : list event :=
  List.filter (λ e, match e with Extract _ | Sleep _ => true | _ => false end) evs.

Definition extract_calls (evs : list event) : list event :=
  List.filter is_extract evs.

Definition file_writes (evs : list event) : list event :=
  List.filter is_write evs.

(** The error messages of the failed calls that open a sequence of at most
    [remaining] calls on a chunk, the first being call number [n]. *)
Fixpoint leading_failures {A} (extract : service A) (chunk_path : string)
    (n remaining : nat) : list string :=
  match remaining with
  | O => []
  | S remaining' =>
      match extract n chunk_path with
      | Raised e => e :: leading_failures extract chunk_path (S n) remaining'
      | Returned _ => []
      end
  end.

(** The payload of the first successful call among them, if any. *)
Fixpoint first_success {A} (extract : service A) (chunk_path : string)
    (n remaining : nat) : option A :=
  match remaining with
  | O => None
  | S remaining' =>
      match extract n chunk_path with
      | Raised _ => first_success extract chunk_path (S n) remaining'
      | Returned payload => Some payload
      end
  end.

(** The trace [attempts] appends, written as a function of the service. *)
Fixpoint attempt_events {A C} (pol : policy A C) (extract : service A)
    (temp_act_chunk_path chunk_path : string) (attempt remaining n : nat)
    : list event :=
  match remaining with
  | O => [Print (Failed (OsPath.basename chunk_path) (max_retries pol))]
  | S remaining' =>
      Extract chunk_path ::
      match extract n chunk_path with
      | Returned _ =>
          WriteFile (checkpoint_path pol temp_act_chunk_path chunk_path)
          :: after_success pol (OsPath.basename chunk_path)
      | Raised e =>
          after_error pol attempt (OsPath.basename chunk_path) e
          ++ attempt_events pol extract temp_act_chunk_path chunk_path
               (S attempt) remaining' (S n)
      end
  end.

(** The cooldown the structured scripts apply after a failure with message
    [e], in the words of the specification: long on a rate-limit signal,
    short otherwise. *)
Definition classified_cooldown (e : string) : Z :=
  if Structured.is_rate_limit e then 70%Z else 10%Z.

(** A path names a file directly inside directory [d]. *)
Definition inside (d p : string) : Prop :=
  Fs.path_of d (OsPath.basename p) = p.

(** The three scripts, by the policy of their chunk loop. *)
Inductive script : ∀ {A C : Type}, policy A C → Prop :=
| text_script : script ExtractScript.pol
| clause_script : script Test.pol
| grouped_script : script TestV1.pol.

(** What follows a call makes no remote call and writes no file. *)
Definition quiet {A C} (pol : policy A C) : Prop :=
  (∀ b, extract_calls (after_success pol b) = []
        ∧ file_writes (after_success pol b) = [])
  ∧ (∀ n b e, extract_calls (after_error pol n b e) = []
              ∧ file_writes (after_error pol n b e) = []).

(** A policy sleeps [cool e] after a failure with message [e] and [pause]
    after a success, and nothing else. *)
Definition paced {A C} (pol : policy A C) (cool : string → Z) (pause : Z)
    : Prop :=
  (∀ b, timeline (after_success pol b) = [Sleep pause])
  ∧ (∀ n b e, timeline (after_error pol n b e) = [Sleep (cool e)]).

(** Calls and sleeps of a chunk whose leading failed calls raised [fails]:
    each failed call with its cooldown, then the successful call, if there
    is one, with the proactive pause. *)
Definition retry_timeline (chunk_path : string) (cool : string → Z)
    (pause : Z) (fails : list string) (succeeded : bool) : list event :=
  (fails ≫= λ e, [Extract chunk_path; Sleep (cool e)])
  ++ (if succeeded then [Extract chunk_path; Sleep pause] else []).

(** The same state with another directory of final artifacts. *)
Definition with_final {C} (f : Fs.dir C) (st : state C) : state C :=
  mkState (temp st) f (ncalls st) (trace st).

(** The text [f.read()] returns for the checkpoint of a chunk in text mode
    (the empty text if there is no checkpoint). *)
Definition chunk_text (temp_act_chunk_path : string) (temp : Fs.dir string)
    (chunk_path : string) : string :=
  match Fs.read temp_act_chunk_path temp
          (checkpoint_path ExtractScript.pol temp_act_chunk_path chunk_path) with
  | Some content => Py.universal_newlines content
  | None => ""
  end.

(** The chunks of a list whose checkpoint is present. *)
Definition present_chunks {A C} (pol : policy A C)
    (temp_act_chunk_path : string) (temp : Fs.dir C) (chunks : list string)
    : list string :=
  List.filter
    (λ c, Fs.path_exists temp_act_chunk_path temp
            (checkpoint_path pol temp_act_chunk_path c))
    chunks.

(** The state of the text script when the combination starts (or when the
    act is skipped for want of chunks). *)
Definition text_before_combining (ls : listing) (extract : service string)
    (act_name : string) (st : state string) : state string :=
  let tp := OsPath.join ExtractScript.temp_output_path_base [act_name] in
  let chunks :=
    ExtractScript.chunks_to_process ls
      (OsPath.join ExtractScript.TOP_LEVEL_FOLDER [act_name; act_name]) in
  match chunks with
  | [] => emit [Print (NoChunksFound act_name)]
            (emit [Print (ProcessingAct act_name)] st)
  | _ :: _ =>
      emit [Print (Combining act_name)]
        (process_chunks ExtractScript.pol extract tp chunks
           (emit [Print (FoundChunks (length chunks) act_name)]
              (emit [Print (ProcessingAct act_name)] st)))
  end.

(** The data of a combination, without the warnings printed on the way. *)
Definition combined {X} (r : result (X * list event)) : result X :=
  match r with
  | Ok (x, _) => Ok x
  | Uncaught e => Uncaught e
  end.

(** The values [json.load] returns for the files of a list, in order,
    without the files that are missing or fail to decode. *)
Definition decoded (temp_act_chunk_path : string) (temp : Fs.dir jfile)
    (files : list string) : list json :=
  omap (λ p, match Fs.read temp_act_chunk_path temp p with
             | Some (Json v) => Some v
             | _ => None
             end) files.

Definition members_of (v : json) : list (string * json) :=
  match v with
  | JObj members => members
  | _ => []
  end.

(** The metadata rule in the words of the specification: the value of the
    first chunk result, in order, that provides for [key] a value other
    than "Unknown"; the sentinel "Unknown" when there is none. A chunk
    result that has no entry for [key] provides nothing. *)
Fixpoint first_known (key : string) (chunks : list (list (string * json)))
    : json :=
  match chunks with
  | [] => JStr "Unknown"
  | members :: rest =>
      match List.find (λ kv, String.eqb kv.1 key) members with
      | Some (_, v) =>
          if PyJson.ne_unknown v then v else first_known key rest
      | None => first_known key rest
      end
  end.

(** Every chunk result of a list has an entry for [key]. *)
Definition all_have (key : string) (chunks : list (list (string * json)))
    : Prop :=
  Forall (λ members, ∃ v, (key, v) ∈ members) chunks.

(** The metadata rule as the per-clause script applies it: [d.get(key)]
    stands for the entry of a chunk result, also when it has none. *)
Fixpoint first_not_unknown (key : string)
    (chunks : list (list (string * json))) : json :=
  match chunks with
  | [] => JStr "Unknown"
  | members :: rest =>
      if PyJson.ne_unknown (PyJson.dict_get key members)
      then PyJson.dict_get key members
      else first_not_unknown key rest
  end.

(** What a chunk result contributes to the clauses of the per-clause
    artifact; [None] is [TypeError]. *)
Definition clauses_of (members : list (string * json)) : option (list json) :=
  if PyJson.truthy (PyJson.dict_get "clauses" members)
  then PyJson.iterate (PyJson.dict_get "clauses" members)
  else Some [].

(** The canonical chunk order in the words of the specification: the PDF
    files of the initial-chunk group, then those of the overlap-chunk
    group, each group in ascending order of file name. *)
Definition canonical_group (ls : listing) (nested_act_path group : string)
    : list string :=
  let group_path := OsPath.join nested_act_path [group] in
  match ls group_path with
  | Some names =>
      (λ filename, OsPath.join group_path [filename])
        <$> Py.sorted (filter is_pdf names)
  | None => []
  end.

Definition canonical_order (ls : listing) (nested_act_path : string)
    : list string :=
  canonical_group ls nested_act_path "Initial Chunk"
  ++ canonical_group ls nested_act_path "Overlap Chunk".

(** What the files of a list contribute to the grouped artifact, file by
    file. *)
Definition grouped_payloads (temp_act_chunk_path : string)
    (temp : Fs.dir jfile) (files : list string) : list json :=
  v ← decoded temp_act_chunk_path temp files; default [] (PyJson.iterate v).

(** What they contribute to the clauses of the per-clause artifact. *)
Definition clause_payloads (temp_act_chunk_path : string)
    (temp : Fs.dir jfile) (files : list string) : list json :=
  v ← decoded temp_act_chunk_path temp files;
  default [] (clauses_of (members_of v)).

(** The checkpoint directory that a sequence of checkpoint writes, in the
    order given, makes of an empty directory. *)
Definition checkpoints_written {C} (temp_act_chunk_path : string)
    (writes : list (string * C)) : Fs.dir C :=
  fold_left (λ d w, Fs.write temp_act_chunk_path d w.1 w.2) writes [].

(** ** The service wrappers of the structured scripts

    [extract_structure_from_chunk] of [test.py] and of [test_v1.py]: upload
    the chunk, ask the model, decode the answer, and delete the upload in a
    [finally] block. The four operations of the client library are
    parameters; each returns or raises. *)

Module PyStr.

(** [c.isspace()] on ASCII: tab, line feed, vertical tab, form feed,
    carriage return, the four separators 0x1c to 0x1f, and space. *)
Definition is_space (c : ascii) : bool :=
  let n := Ascii.nat_of_ascii c in
  ((9 <=? n)%nat && (n <=? 13)%nat) || ((28 <=? n)%nat && (n <=? 32)%nat).

(** [c in chars] *)
Definition in_chars (chars : string) (c : ascii) : bool :=
  existsb (Ascii.eqb c) (list_ascii_of_string chars).

Fixpoint lstrip_by (f : ascii → bool) (s : string) : string :=
  match s with
  | EmptyString => EmptyString
  | String c r => if f c then lstrip_by f r else s
  end.

Fixpoint rstrip_by (f : ascii → bool) (s : string) : string :=
  match s with
  | EmptyString => EmptyString
  | String c r =>
      match rstrip_by f r with
      | EmptyString => if f c then EmptyString else String c EmptyString
      | String _ _ as r' => String c r'
      end
  end.

(** [s.strip()] *)
Definition strip (s : string) : string :=
  rstrip_by is_space (lstrip_by is_space s).

(** [s.lstrip(chars)]: the leading characters that occur in [chars] are
    removed, whatever their order. *)
Definition lstrip (s chars : string) : string := lstrip_by (in_chars chars) s.

(** [s.rstrip(chars)] *)
Definition rstrip (s chars : string) : string := rstrip_by (in_chars chars) s.

End PyStr.

Module Genai.

Inductive api_event (handle : Type) : Type :=
| SayProcessing (chunk_basename : string)
| SayUploading
| Upload (pdf_chunk_path : string)
| SayExtracting
| Generate (uploaded_file : handle)
| SayDeleting
| Delete (uploaded_file : handle).
Arguments SayProcessing {handle} chunk_basename.
Arguments SayUploading {handle}.
Arguments Upload {handle} pdf_chunk_path.
Arguments SayExtracting {handle}.
Arguments Generate {handle} uploaded_file.
Arguments SayDeleting {handle}.
Arguments Delete {handle} uploaded_file.

(** [response.text.strip().lstrip("```json").rstrip("```")] of [test.py]. *)
Definition clean_json_string (text : string) : string :=
  PyStr.rstrip (PyStr.lstrip (PyStr.strip text) "```json") "```".

Section Wrapper.
Context {handle : Type}.
Variable upload_file : string → outcome handle.
Variable generate_content : handle → outcome string.
Variable json_loads : string → outcome json.
Variable delete_file : handle → outcome unit.

(** The [try] body once the upload has returned: the text of the response,
    cleaned as the script does, and decoded. *)
Definition answer (clean : string → string) (uploaded_file : handle)
    : outcome json :=
  match generate_content uploaded_file with
  | Returned text => json_loads (clean text)
  | Raised e => Raised e
  end.

(** [try: ... return json.loads(...) finally: if uploaded_file:
    genai.delete_file(uploaded_file.name)]. An exception of [delete_file]
    replaces the value or the exception of the [try] body. *)
Definition with_upload (clean : string → string) (pdf_chunk_path : string)
    : list (api_event handle) * outcome json :=
  let start :=
    [SayProcessing (OsPath.basename pdf_chunk_path); SayUploading;
     Upload pdf_chunk_path] in
  match upload_file pdf_chunk_path with
  | Raised e => (start, Raised e)
  | Returned uploaded_file =>
      (start ++ [SayExtracting; Generate uploaded_file; SayDeleting;
                 Delete uploaded_file],
       match delete_file uploaded_file with
       | Returned _ => answer clean uploaded_file
       | Raised e => Raised e
       end)
  end.

(** [extract_structure_from_chunk] of [test.py]. *)
Definition extract_structure_from_chunk : string
    → list (api_event handle) * outcome json :=
  with_upload clean_json_string.

(** [extract_structure_from_chunk] of [test_v1.py], which decodes the text
    of the response as it is. *)
Definition extract_structure_from_chunk_v1 : string
    → list (api_event handle) * outcome json :=
  with_upload id.

End Wrapper.

Definition deletes {handle} (evs : list (api_event handle)) : list handle :=
  omap (λ e, match e with Delete h => Some h | _ => None end) evs.

Definition uploads {handle} (evs : list (api_event handle)) : list string :=
  omap (λ e, match e with Upload p => Some p | _ => None end) evs.

End Genai.

(** First and last character of a string. *)
Definition head_char (s : string) : option ascii :=
  match s with
  | EmptyString => None
  | String c _ => Some c
  end.

Fixpoint last_char (s : string) : option ascii :=
  match s with
  | EmptyString => None
  | String c EmptyString => Some c
  | String _ r => last_char r
  end.

(** Every character of a string satisfies a test. *)
Fixpoint all_chars (f : ascii → bool) (s : string) : bool :=
  match s with
  | EmptyString => true
  | String c r => f c && all_chars f r
  end.

(** A sequence of remote calls, each followed by its sleep. *)
Definition paced_calls (calls : list (string * Z)) : list event :=
  calls ≫= λ call, [Extract call.1; Sleep call.2].

(** ** The chunk loop against a service that answers by chunk

    A service whose answer depends on the chunk only, not on the number of
    the call. *)
Definition by_chunk {A} (answer : string → outcome A) : service A :=
  λ _ chunk_path, answer chunk_path.

(** The checkpoints such a run adds, in order: one for each chunk that has
    none and that the service answers. *)
Definition new_checkpoints {A C} (pol : policy A C)
    (temp_act_chunk_path : string) (answer : string → outcome A)
    (temp : Fs.dir C) (chunks : list string) : Fs.dir C :=
  omap (λ c,
          if Fs.path_exists temp_act_chunk_path temp
               (checkpoint_path pol temp_act_chunk_path c)
          then None
          else match answer c with
               | Returned payload =>
                   Some (OsPath.basename
                           (checkpoint_path pol temp_act_chunk_path c),
                         dump pol payload)
               | Raised _ => None
               end)
       chunks.

(** The remote calls it makes: none for a chunk with a checkpoint, one for
    a chunk the service answers, [max_retries] for a chunk it refuses. *)
Definition calls_needed {A C} (pol : policy A C)
    (temp_act_chunk_path : string) (answer : string → outcome A)
    (temp : Fs.dir C) (chunks : list string) : nat :=
  sum_list
    ((λ c,
        if Fs.path_exists temp_act_chunk_path temp
             (checkpoint_path pol temp_act_chunk_path c)
        then 0
        else match answer c with
             | Returned _ => 1
             | Raised _ => max_retries pol
             end)
       <$> chunks).

(** The chunks the service answers. *)
Definition answered {A} (answer : string → outcome A) (chunks : list string)
    : list string :=
  List.filter
    (λ c, match answer c with Returned _ => true | Raised _ => false end)
    chunks.

(** The texts it returns for them, as they are read back. *)
Definition answers_read_back (answer : string → outcome string)
    (chunks : list string) : list string :=
  omap (λ c, match answer c with
             | Returned text => Some (Py.universal_newlines text)
             | Raised _ => None
             end)
       chunks.

(** The time a run spends in [time.sleep], in seconds. *)
Definition total_sleep (evs : list event) : Z :=
  foldr Z.add 0%Z (sleeps evs).

(** The chunks that have no checkpoint and that the service refuses. *)
Definition still_missing {A C} (pol : policy A C)
    (temp_act_chunk_path : string) (answer : string → outcome A)
    (temp : Fs.dir C) (chunks : list string) : list string :=
  List.filter
    (λ c, negb (Fs.path_exists temp_act_chunk_path temp
                  (checkpoint_path pol temp_act_chunk_path c))
          && match answer c with Raised _ => true | Returned _ => false end)
    chunks.

(** ** The act loop of [main]

    [main] lists the top-level folder, keeps the entries that are
    directories and are none of the two output folders, ".git" and "venv",
    and runs the act body on each of them in listing order. Each act has a
    checkpoint folder of its own, [temp_output_path_base/act_name]; the
    folder of final artifacts is shared. *)

Module Main.

Inductive main_event : Type :=
| Starting (top_level_folder : string)
| InAct (e : event)
| AllProcessed.

Record world (C : Type) : Type := mkWorld {
  temps : string → Fs.dir C;
  finals : Fs.dir C;
  calls : nat;
  log : list main_event
}.
Arguments mkWorld {C} _ _ _ _.
Arguments temps {C} w _.
Arguments finals {C} w.
Arguments calls {C} w.
Arguments log {C} w.

Definition say {C} (evs : list main_event) (w : world C) : world C :=
  mkWorld (temps w) (finals w) (calls w) (log w ++ evs).

(** [[f for f in os.listdir(TOP_LEVEL_FOLDER)
      if os.path.isdir(os.path.join(TOP_LEVEL_FOLDER, f))
      and f not in excluded]]; an entry of the listing comes with what
    [os.path.isdir] answers for it. *)
Definition main_act_folders (excluded : list string)
    (top : list (string * bool)) : list string :=
  omap (λ f, if f.2 && negb (bool_decide (f.1 ∈ excluded))
             then Some f.1 else None)
       top.

(** The state the body of an act starts from, and what the act leaves. *)
Definition enter {C} (act_name : string) (w : world C) : state C :=
  mkState (temps w act_name) (finals w) (calls w) [].

Definition leave {C} (act_name : string) (st : state C) (w : world C)
    : world C :=
  mkWorld (λ a, if String.eqb a act_name then temp st else temps w a)
    (final st) (ncalls st) (log w ++ (InAct <$> trace st)).

(** [for act_name in main_act_folders: ...] where the body cannot raise. *)
Definition for_acts {C} (body : string → state C → state C)
    (acts : list string) (w : world C) : world C :=
  fold_left (λ w act_name, leave act_name (body act_name (enter act_name w)) w)
    acts w.

(** The same loop where an exception of the body ends the run. *)
Fixpoint for_acts_raising {C} (body : string → state C → result (state C))
    (acts : list string) (w : world C) : result (world C) :=
  match acts with
  | [] => Ok w
  | act_name :: rest =>
      match body act_name (enter act_name w) with
      | Ok st => for_acts_raising body rest (leave act_name st w)
      | Uncaught e => Uncaught e
      end
  end.

(** [main] of [extract_script.py]. *)
Definition text_main (ls : listing) (extract : service string)
    (top : list (string * bool)) (w : world string) : world string :=
  let main_act_folders :=
    main_act_folders
      [ExtractScript.FINAL_OUTPUT_FOLDER; ExtractScript.TEMP_OUTPUT_FOLDER;
       ".git"; "venv"] top in
  say [AllProcessed]
    (for_acts (ExtractScript.process_act ls extract) main_act_folders
       (say [Starting ExtractScript.TOP_LEVEL_FOLDER] w)).

(** [main] of [test.py]. *)
Definition clause_main (ls : listing) (extract : service json)
    (top : list (string * bool)) (w : world jfile) : result (world jfile) :=
  let main_act_folders :=
    main_act_folders
      [Test.FINAL_OUTPUT_FOLDER; Test.TEMP_CHUNK_JSON_FOLDER; ".git"; "venv"]
      top in
  match for_acts_raising (Test.process_act ls extract) main_act_folders
          (say [Starting Test.TOP_LEVEL_FOLDER] w) with
  | Ok w' => Ok (say [AllProcessed] w')
  | Uncaught e => Uncaught e
  end.

(** [main] of [test_v1.py]. *)
Definition grouped_main (ls : listing) (extract : service json)
    (top : list (string * bool)) (w : world jfile) : result (world jfile) :=
  let main_act_folders :=
    main_act_folders
      [TestV1.FINAL_OUTPUT_FOLDER; TestV1.TEMP_CHUNK_JSON_FOLDER;
       ".git"; "venv"] top in
  match for_acts_raising (TestV1.process_act ls extract) main_act_folders
          (say [Starting TestV1.TOP_LEVEL_FOLDER] w) with
  | Ok w' => Ok (say [AllProcessed] w')
  | Uncaught e => Uncaught e
  end.

End Main.

(** ** Concrete scenarios *)

Module Scenario.

(** Act "ActX" of the text script: two initial chunks and one overlap
    chunk, listed out of order, next to a file that is no PDF. *)
Definition ls_text : listing := λ p,
  if String.eqb p "extraction-component/ActX/ActX/Initial Chunk"
  then Some ["b.pdf"; "a.pdf"; "notes.txt"]
  else if String.eqb p "extraction-component/ActX/ActX/Overlap Chunk"
  then Some ["c.pdf"]
  else None.

Definition temp_text : string := "extraction-component/temp_extracted_chunks/ActX".
Definition chunk_a : string := "extraction-component/ActX/ActX/Initial Chunk/a.pdf".

(** A service that answers every call with a text naming the chunk. *)
Definition always_text : service string := λ n p,
  Returned ("TEXT_" +:+ OsPath.stem (OsPath.basename p)).

(** A service that never answers. *)
Definition never_text : service string := λ n p, Raised "timeout".

(** A service whose first answer is a rate-limit error. *)
Definition rate_limited_once : service string := λ n p,
  match n with
  | O => Raised "429 RESOURCE_EXHAUSTED: quota exceeded"
  | S _ => Returned "TEXT"
  end.

Definition empty_run {C} : state C := mkState [] [] 0 [].

(** A run of the text script that starts with the checkpoint of chunk a. *)
Definition resumed_text : state string :=
  mkState [("a.txt", "TEXT_a")] [] 0 [].

(** The text script after a run in which chunk b failed for good: the
    checkpoints of a and c, and the artifact made of them. *)
Definition partial_text : state string :=
  mkState [("a.txt", "TEXT_a"); ("c.txt", "TEXT_c")]
          [("ActX.txt", Py.join blank_line ["TEXT_a"; "TEXT_c"])] 0 [].

Definition final_text : string :=
  "extraction-component/extracted_acts_final/ActX.txt".
Definition chunk_b : string := "extraction-component/ActX/ActX/Initial Chunk/b.pdf".
Definition chunk_c : string := "extraction-component/ActX/ActX/Overlap Chunk/c.pdf".

(** Act "ActX" of the structured scripts, and a state in which its final
    artifact exists. *)
Definition ls_json : listing := λ p,
  if String.eqb p "./ActX/ActX/Initial Chunk" then Some ["b.pdf"]
  else if String.eqb p "./ActX/ActX/Overlap Chunk" then Some ["a.pdf"]
  else None.

Definition always_json : service json := λ n p,
  Returned (JArr [JStr (OsPath.stem (OsPath.basename p))]).

Definition done_json : state jfile :=
  mkState [] [("ActX.json", Json (JArr [JStr "old"]))] 0 [].

(** Checkpoints of the per-clause script: the first chunk result has no
    "act_name" entry, the second names the act. *)
Definition temp_json : string := "./temp_chunk_json/ActX".

Definition clause (n : string) : json :=
  JObj [("citation_path", JArr [JStr n]);
        ("full_citation_string", JStr n);
        ("content", JStr "...")].

Definition nameless_first : Fs.dir jfile :=
  [("a.json", Json (JObj [("act_number", JStr "Unknown");
                          ("clauses", JArr [clause "Section 1"])]));
   ("b.json", Json (JObj [("act_name", JStr "X Act");
                          ("act_number", JStr "No. 5");
                          ("clauses", JArr [clause "Section 2"])]))].

(** The same with the entry present and "Unknown", as the prompt asks. *)
Definition unknown_first : Fs.dir jfile :=
  [("a.json", Json (JObj [("act_name", JStr "Unknown");
                          ("act_number", JStr "Unknown");
                          ("clauses", JArr [clause "Section 1"])]));
   ("b.json", Json (JObj [("act_name", JStr "X Act");
                          ("act_number", JStr "No. 5");
                          ("clauses", JArr [clause "Section 2"])]))].

(** A checkpoint directory with a file that does not decode. *)
Definition one_malformed : Fs.dir jfile :=
  [("a.json", Json (JArr [JStr "A"]));
   ("b.json", Malformed);
   ("c.json", Json (JArr [JStr "C"]))].

(** A checkpoint directory of the grouped script that holds, next to the
    checkpoint of chunk a, a file left over from a chunk "old" that the act
    no longer has. *)
Definition with_leftover : state jfile :=
  mkState [("old.json", Json (JArr [JStr "OLD"]));
           ("a.json", Json (JArr [JStr "A"]))] [] 0 [].

Definition leftover_result : state jfile :=
  match TestV1.process_act ls_json always_json "ActX" with_leftover with
  | Ok st' => st'
  | Uncaught _ => with_leftover
  end.

(** The checkpoints of the text scenario in two listing orders. *)
Definition listed_ab : Fs.dir string := [("a.txt", "TEXT_a"); ("b.txt", "TEXT_b")].
Definition listed_ba : Fs.dir string := [("b.txt", "TEXT_b"); ("a.txt", "TEXT_a")].

(** Act "ActY" of the text script: the initial and the overlap group each
    have a file named a.pdf. *)
Definition ls_same_stem : listing := λ p,
  if String.eqb p "extraction-component/ActY/ActY/Initial Chunk"
  then Some ["a.pdf"]
  else if String.eqb p "extraction-component/ActY/ActY/Overlap Chunk"
  then Some ["a.pdf"]
  else None.

(** A service that answers with the path of the chunk it is given. *)
Definition echo_path : service string := λ n p, Returned p.

(** A client whose upload and deletion return and whose model call times
    out. *)
Definition upload_ok : string → outcome string := λ p,
  Returned ("files/" +:+ OsPath.basename p).
Definition generate_times_out : string → outcome string := λ h,
  Raised "504 Deadline Exceeded".
Definition loads_null : string → outcome json := λ s, Returned JNull.
Definition delete_ok : string → outcome unit := λ h, Returned tt.


(** The folders of [ls_text], listed in another order. *)
Definition ls_text_relisted : listing := λ p,
  if String.eqb p "extraction-component/ActX/ActX/Initial Chunk"
  then Some ["notes.txt"; "b.pdf"; "a.pdf"]
  else if String.eqb p "extraction-component/ActX/ActX/Overlap Chunk"
  then Some ["c.pdf"]
  else None.


(** A service of the structured scripts whose answers decode to a number. *)
Definition always_number : service json := λ n p, Returned (JNum 1).


(** A service that answers chunk a and chunk c, with Windows line ends in
    the text of chunk c, and refuses every other chunk. *)
Definition answers_a_and_c : string → outcome string := λ p,
  if String.eqb p chunk_a then Returned "TEXT_a"
  else if String.eqb p chunk_c
  then Returned (String "C" (String "013" (String "010" "c")))
  else Raised "500 Internal error".


(** A service that fails twice and then answers. *)
Definition fails_twice : service string := λ n p,
  if (n <? 2)%nat then Raised "503 Service Unavailable" else Returned "TEXT".


(** A top-level folder: one act, the two output folders of the text
    script, a repository folder and a file. *)
Definition top_text : list (string * bool) :=
  [("ActX", true); ("extracted_acts_final", true);
   ("temp_extracted_chunks", true); (".git", true); ("README.md", false)].

(** A top-level folder for [test_v1.py] next to its output folders. *)
Definition top_json : list (string * bool) :=
  [("extracted_acts_grouped_json", true); ("ActX", true);
   ("temp_chunk_grouped_json", true); ("test_v1.py", false)].

Definition empty_world {C} : Main.world C := Main.mkWorld (λ _, []) [] 0 [].

End Scenario.

(* ================================================================= *)
(** * Properties *)

(** ** The model at work *)

Example stem_pdf : OsPath.stem "chunk_01.pdf" = "chunk_01".
Proof. reflexivity. Qed.

Example stem_two_suffixes : OsPath.stem "a.b.PDF" = "a.b".
Proof. reflexivity. Qed.

Example stem_hidden : OsPath.stem ".pdf" = ".pdf".
Proof. reflexivity. Qed.

Example basename_chunk :
  OsPath.basename (OsPath.join "." ["ActX"; "ActX"; "Initial Chunk"; "a.pdf"])
  = "a.pdf".
Proof. reflexivity. Qed.

Example sorted_names : Py.sorted ["b.pdf"; "a.pdf"; "B.pdf"; "a10.pdf"; "a2.pdf"]
                       = ["B.pdf"; "a.pdf"; "a10.pdf"; "a2.pdf"; "b.pdf"].
Proof. vm_compute. reflexivity. Qed.

Example newlines :
  Py.universal_newlines (String "a" (String "013" (String "010" "b")))
  = String "a" (String "010" "b").
Proof. reflexivity. Qed.

(** The scenario of the specification in text mode: three chunks, each
    extracted at the first call; three checkpoints, three proactive pauses,
    and the three texts joined by blank lines. *)
Example text_scenario :
  let st' := ExtractScript.process_act Scenario.ls_text Scenario.always_text
               "ActX" Scenario.empty_run in
  temp st' = [("a.txt", "TEXT_a"); ("b.txt", "TEXT_b"); ("c.txt", "TEXT_c")]
  ∧ final st'
    = [("ActX.txt", Py.join blank_line ["TEXT_a"; "TEXT_b"; "TEXT_c"])]
  ∧ sleeps (trace st') = [65%Z; 65%Z; 65%Z]
  ∧ extract_calls (trace st')
    = [Extract Scenario.chunk_a; Extract Scenario.chunk_b;
       Extract Scenario.chunk_c].
Proof. by vm_compute. Qed.

(** A checkpoint that does not decode is left out and the others are
    combined. *)
Example grouped_scenario_malformed :
  TestV1.combine "./temp_chunk_grouped_json/ActX" Scenario.one_malformed
    (Structured.temp_json_files "./temp_chunk_grouped_json/ActX"
       Scenario.one_malformed) [] []
  = Ok ([JStr "A"; JStr "C"], [Print (CouldNotDecode "b.json")]).
Proof. by vm_compute. Qed.

(** The per-clause metadata are taken from the first checkpoint that has
    them: "Unknown" entries are passed over. *)
Example clause_scenario_unknown_first :
  combined
    (Test.combine Scenario.temp_json Scenario.unknown_first
       (Structured.temp_json_files Scenario.temp_json Scenario.unknown_first)
       Test.acc0 [])
  = Ok (Test.mkAcc [Scenario.clause "Section 1"; Scenario.clause "Section 2"]
          (JStr "X Act") (JStr "No. 5")).
Proof. by vm_compute. Qed.

(** A checkpoint that decodes to a number ends the run with an uncaught
    [TypeError]. *)
Example grouped_scenario_type_error :
  TestV1.combine "d" [("a.json", Json (JNum 1))] ["d/a.json"] [] []
  = Uncaught TypeError.
Proof. reflexivity. Qed.

(** ** Strings and paths *)

Section PathFacts.

Lemma has_sep_app a b :
  OsPath.has_sep (a +:+ b) = OsPath.has_sep a || OsPath.has_sep b.
Proof.
  induction a as [|c a IH]; simpl; [done|].
  rewrite IH. by rewrite orb_assoc.
Qed.

Lemma has_sep_basename p : OsPath.has_sep (OsPath.basename p) = false.
Proof.
  induction p as [|c p IH]; simpl; [done|].
  destruct (OsPath.has_sep p) eqn:Hp; [done|].
  destruct (Ascii.eqb c OsPath.sep) eqn:Hc; [done|].
  simpl. by rewrite Hc, Hp.
Qed.

Lemma has_sep_substring s : ∀ n m,
  OsPath.has_sep s = false → OsPath.has_sep (String.substring n m s) = false.
Proof.
  induction s as [|c s IH]; intros n m Hs.
  - by destruct n, m.
  - simpl in Hs. apply orb_false_iff in Hs as [Hc Hs].
    destruct n as [|n]; simpl.
    + destruct m as [|m]; simpl; [done|]. by rewrite Hc, IH.
    + by apply IH.
Qed.

Lemma has_sep_stem name :
  OsPath.has_sep name = false → OsPath.has_sep (OsPath.stem name) = false.
Proof.
  intros Hn. unfold OsPath.stem.
  destruct (OsPath.rfind_dot name) as [i|]; [|done].
  destruct (_ && _); [|done]. by apply has_sep_substring.
Qed.

Lemma basename_sep_free name :
  OsPath.has_sep name = false → OsPath.basename name = name.
Proof.
  destruct name as [|c name]; simpl; [done|].
  intros [Hc Hn]%orb_false_iff. by rewrite Hn, Hc.
Qed.

Lemma basename_after_sep a name :
  OsPath.has_sep name = false →
  OsPath.basename (a +:+ String OsPath.sep name) = name.
Proof.
  intros Hn. induction a as [|c a IH]; simpl.
  - by rewrite Hn.
  - rewrite has_sep_app. simpl. by rewrite orb_true_r.
Qed.

Lemma endswith_split s suf :
  Py.endswith s suf = true → ∃ a, s = a +:+ suf.
Proof.
  induction s as [|c s IH]; cbn [Py.endswith].
  - rewrite orb_false_r. intros ->%String.eqb_eq. by exists "".
  - intros [->%String.eqb_eq|H]%orb_true_iff.
    + by exists "".
    + destruct (IH H) as [a ->]. by exists (String c a).
Qed.

Lemma startswith_sep_has_sep b :
  Py.startswith b "/" = true → OsPath.has_sep b = true.
Proof.
  unfold Py.startswith.
  destruct b as [|c b]; cbn [String.prefix OsPath.has_sep]; [done|].
  by destruct (Ascii.ascii_dec "/" c) as [<-|].
Qed.

Lemma append_cons x (a b : string) : String x a +:+ b = String x (a +:+ b).
Proof. reflexivity. Qed.

Lemma append_nil_l (b : string) : "" +:+ b = b.
Proof. reflexivity. Qed.

Lemma app_assoc_string (a b c : string) : (a +:+ b) +:+ c = a +:+ (b +:+ c).
Proof.
  induction a as [|x a IH]; [done|]. by rewrite !append_cons, IH.
Qed.

Lemma basename_join2 d name :
  OsPath.has_sep name = false → OsPath.basename (OsPath.join2 d name) = name.
Proof.
  intros Hn. unfold OsPath.join2.
  destruct (Py.startswith name "/") eqn:Hs.
  { apply startswith_sep_has_sep in Hs. congruence. }
  destruct (String.eqb d "") eqn:Hd; cbn [orb].
  { apply String.eqb_eq in Hd as ->. rewrite append_nil_l.
    by apply basename_sep_free. }
  destruct (Py.endswith d "/") eqn:He.
  - apply endswith_split in He as [a ->].
    rewrite app_assoc_string, append_cons, append_nil_l.
    by apply basename_after_sep.
  - rewrite append_cons, append_nil_l. by apply basename_after_sep.
Qed.

(** A sep-free name joined to a directory gives a path inside it. *)
Lemma inside_path_of d name :
  OsPath.has_sep name = false → inside d (Fs.path_of d name).
Proof.
  intros Hn. unfold inside, Fs.path_of, OsPath.join. simpl.
  by rewrite basename_join2.
Qed.

Lemma checkpoint_inside {A C} (pol : policy A C) d chunk_path :
  OsPath.has_sep (suffix pol) = false →
  inside d (checkpoint_path pol d chunk_path).
Proof.
  intros Hs. apply inside_path_of.
  rewrite has_sep_app, Hs, has_sep_stem; [done|]. apply has_sep_basename.
Qed.

Lemma append_length (a b : string) :
  String.length (a +:+ b) = String.length a + String.length b.
Proof.
  induction a as [|x a IH]; [done|]. rewrite append_cons. simpl. by rewrite IH.
Qed.

Lemma append_inj_r (x a b : string) : a +:+ x = b +:+ x → a = b.
Proof.
  revert b. induction a as [|c a IH]; intros [|c' b] H; [done| | |].
  - apply (f_equal String.length) in H.
    rewrite !append_length in H. simpl in H. lia.
  - apply (f_equal String.length) in H.
    rewrite !append_length in H. simpl in H. lia.
  - rewrite !append_cons in H. injection H as -> H. f_equal. by apply IH.
Qed.

Lemma NoDup_fmap_elem_inj {X Y} (f : X → Y) (l : list X) x y :
  NoDup (f <$> l) → x ∈ l → y ∈ l → f x = f y → x = y.
Proof.
  intros Hnd [i Hi]%list_elem_of_lookup [j Hj]%list_elem_of_lookup E.
  assert (i = j) as ->; [|congruence].
  eapply NoDup_lookup; [exact Hnd| |]; rewrite list_lookup_fmap.
  - by rewrite Hi.
  - rewrite Hj. simpl. by rewrite E.
Qed.

(** Chunks with different stems have different checkpoints. *)
Lemma checkpoint_path_inj {A C} (pol : policy A C) d c1 c2 :
  OsPath.has_sep (suffix pol) = false →
  checkpoint_path pol d c1 = checkpoint_path pol d c2 →
  OsPath.stem (OsPath.basename c1) = OsPath.stem (OsPath.basename c2).
Proof.
  intros Hs H. apply (f_equal OsPath.basename) in H.
  unfold checkpoint_path, OsPath.join in H. simpl in H.
  rewrite !basename_join2 in H
    by (rewrite has_sep_app, Hs, has_sep_stem; [done|apply has_sep_basename]).
  by apply append_inj_r in H.
Qed.

End PathFacts.

(** ** Directories *)

Section FsFacts.
Context {A : Type} (d : string).
Implicit Types (fs : Fs.dir A) (p q name : string) (c : A).

Lemma read_app fs1 fs2 p :
  Fs.read d (fs1 ++ fs2) p =
  match Fs.read d fs1 p with Some c => Some c | None => Fs.read d fs2 p end.
Proof.
  induction fs1 as [|[name c] fs1 IH]; simpl; [done|].
  by destruct (String.eqb _ _).
Qed.

Lemma read_Some fs p c :
  Fs.read d fs p = Some c → ∃ name, (name, c) ∈ fs ∧ Fs.path_of d name = p.
Proof.
  induction fs as [|[name c0] fs IH]; simpl; [done|].
  destruct (String.eqb _ _) eqn:E.
  - intros [= ->]. apply String.eqb_eq in E. exists name. split; [left|done].
  - intros [n [? ?]]%IH. exists n. split; [by right|done].
Qed.

Lemma read_None fs p : Fs.read d fs p = None ↔ p ∉ Fs.paths d fs.
Proof.
  unfold Fs.paths, Fs.listdir.
  induction fs as [|[name c0] fs IH]; simpl.
  - split; [intros _ H; inversion H|done].
  - destruct (String.eqb _ _) eqn:E.
    + apply String.eqb_eq in E. split; [done|]. intros H. destruct H.
      rewrite <- E. left.
    + apply String.eqb_neq in E. rewrite IH, not_elem_of_cons.
      split; [by intros ?; split|by intros [_ ?]].
Qed.

Lemma path_exists_true fs p :
  Fs.path_exists d fs p = true ↔ p ∈ Fs.paths d fs.
Proof.
  unfold Fs.path_exists. destruct (Fs.read d fs p) eqn:E.
  - split; [|done]. intros _.
    destruct (decide (p ∈ Fs.paths d fs)) as [|H]; [done|].
    apply read_None in H. congruence.
  - apply read_None in E. split; [done|]. intros; contradiction.
Qed.

Lemma path_exists_false fs p :
  Fs.path_exists d fs p = false ↔ p ∉ Fs.paths d fs.
Proof.
  rewrite <- path_exists_true. by destruct (Fs.path_exists d fs p).
Qed.

Lemma read_elem fs name c :
  Fs.wf d fs → (name, c) ∈ fs → Fs.read d fs (Fs.path_of d name) = Some c.
Proof.
  unfold Fs.wf, Fs.paths, Fs.listdir.
  induction fs as [|[n0 c0] fs IH]; simpl; intros Hwf Hin.
  - inversion Hin.
  - apply NoDup_cons in Hwf as [Hn0 Hwf].
    apply elem_of_cons in Hin as [[= -> ->]|Hin].
    + by rewrite String.eqb_refl.
    + destruct (String.eqb _ _) eqn:E; [|by apply IH].
      apply String.eqb_eq in E. destruct Hn0. rewrite E.
      apply (list_elem_of_fmap_2 fst) in Hin.
      by apply (list_elem_of_fmap_2 (Fs.path_of d)) in Hin.
Qed.

Lemma paths_perm fs1 fs2 : fs1 ≡ₚ fs2 → Fs.paths d fs1 ≡ₚ Fs.paths d fs2.
Proof. intros H. unfold Fs.paths, Fs.listdir. by rewrite H. Qed.

Lemma wf_perm fs1 fs2 : fs1 ≡ₚ fs2 → Fs.wf d fs1 → Fs.wf d fs2.
Proof. intros H. unfold Fs.wf. by rewrite (paths_perm _ _ H). Qed.

(** Reading does not depend on the order in which the directory lists its
    entries. *)
Lemma read_perm fs1 fs2 p :
  Fs.wf d fs1 → fs1 ≡ₚ fs2 → Fs.read d fs1 p = Fs.read d fs2 p.
Proof.
  intros Hwf Hp. destruct (Fs.read d fs1 p) as [c|] eqn:E.
  - apply read_Some in E as (name & Hin & <-).
    symmetry. apply read_elem; [by eapply wf_perm|by rewrite <- Hp].
  - symmetry. apply read_None. rewrite <- (paths_perm _ _ Hp).
    by apply read_None.
Qed.

Lemma paths_overwrite fs p c :
  Fs.paths d (Fs.overwrite d fs p c) = Fs.paths d fs.
Proof.
  unfold Fs.paths, Fs.listdir.
  induction fs as [|[n0 c0] fs IH]; simpl; [done|].
  destruct (String.eqb _ _); csimpl; [done|]. by rewrite IH.
Qed.

Lemma read_overwrite_eq fs p c :
  p ∈ Fs.paths d fs → Fs.read d (Fs.overwrite d fs p c) p = Some c.
Proof.
  unfold Fs.paths, Fs.listdir.
  induction fs as [|[n0 c0] fs IH]; simpl; [by intros ?%elem_of_nil|].
  destruct (String.eqb _ _) eqn:E; simpl; rewrite E; [done|].
  apply String.eqb_neq in E. intros [?|?]%elem_of_cons; [done|by apply IH].
Qed.

Lemma read_overwrite_ne fs p q c :
  q ≠ p → Fs.read d (Fs.overwrite d fs p c) q = Fs.read d fs q.
Proof.
  intros Hne. induction fs as [|[n0 c0] fs IH]; simpl; [done|].
  destruct (String.eqb (Fs.path_of d n0) p) eqn:E; simpl.
  - apply String.eqb_eq in E. subst p.
    by apply not_eq_sym, String.eqb_neq in Hne as ->.
  - by rewrite IH.
Qed.

Lemma write_fresh fs p c :
  Fs.path_exists d fs p = false →
  Fs.write d fs p c = fs ++ [(OsPath.basename p, c)].
Proof. unfold Fs.write. by intros ->. Qed.

Lemma read_write_eq fs p c :
  inside d p → Fs.read d (Fs.write d fs p c) p = Some c.
Proof.
  intros Hin. unfold Fs.write.
  destruct (Fs.path_exists d fs p) eqn:E.
  - apply read_overwrite_eq. by apply path_exists_true.
  - rewrite read_app. apply path_exists_false, read_None in E. rewrite E.
    simpl. unfold inside in Hin. by rewrite Hin, String.eqb_refl.
Qed.

Lemma read_write_ne fs p q c :
  inside d p → q ≠ p → Fs.read d (Fs.write d fs p c) q = Fs.read d fs q.
Proof.
  intros Hin Hne. unfold Fs.write.
  destruct (Fs.path_exists d fs p) eqn:E.
  - by apply read_overwrite_ne.
  - rewrite read_app. destruct (Fs.read d fs q); [done|].
    simpl. unfold inside in Hin. rewrite Hin.
    by apply not_eq_sym, String.eqb_neq in Hne as ->.
Qed.

Lemma path_exists_write_eq fs p c :
  inside d p → Fs.path_exists d (Fs.write d fs p c) p = true.
Proof. intros. unfold Fs.path_exists. by rewrite read_write_eq. Qed.

Lemma path_exists_write_ne fs p q c :
  inside d p → q ≠ p →
  Fs.path_exists d (Fs.write d fs p c) q = Fs.path_exists d fs q.
Proof. intros. unfold Fs.path_exists. by rewrite read_write_ne. Qed.

Lemma wf_write fs p c :
  inside d p → Fs.wf d fs → Fs.wf d (Fs.write d fs p c).
Proof.
  intros Hin Hwf. unfold Fs.write.
  destruct (Fs.path_exists d fs p) eqn:E.
  - unfold Fs.wf. by rewrite paths_overwrite.
  - apply path_exists_false in E. unfold Fs.wf, Fs.paths, Fs.listdir in *.
    rewrite !fmap_app. simpl. unfold inside in Hin. rewrite Hin.
    apply NoDup_app. split; [done|]. split; [|apply NoDup_singleton].
    intros x Hx ->%list_elem_of_singleton. done.
Qed.

(** A write to a path that does not exist keeps every entry. *)
Lemma write_fresh_keeps fs p c e :
  Fs.path_exists d fs p = false → e ∈ fs → e ∈ Fs.write d fs p c.
Proof.
  intros E Hin. rewrite write_fresh by done. apply elem_of_app. by left.
Qed.

End FsFacts.

(** ** The per-chunk loop *)

Lemma events_since_app {C} (st st' : state C) evs :
  trace st' = trace st ++ evs → events_since st st' = evs.
Proof. intros E. unfold events_since. by rewrite E, drop_app_length. Qed.

Section LoopFacts.
Context {A C : Type} (pol : policy A C) (extract : service A) (tp : string).
Implicit Types (st : state C) (c : string).

Lemma attempts_trace c : ∀ remaining attempt st,
  trace (attempts pol extract tp c attempt remaining st) =
  trace st ++ attempt_events pol extract tp c attempt remaining (ncalls st).
Proof.
  induction remaining as [|r IH]; intros attempt st; simpl; [done|].
  destruct (extract (ncalls st) c) as [payload|e]; simpl.
  - by rewrite <- !app_assoc.
  - rewrite IH. simpl. by rewrite <- !app_assoc.
Qed.

Lemma attempts_final c : ∀ remaining attempt st,
  final (attempts pol extract tp c attempt remaining st) = final st.
Proof.
  induction remaining as [|r IH]; intros attempt st; simpl; [done|].
  destruct (extract (ncalls st) c); simpl; [done|]. by rewrite IH.
Qed.

Lemma attempts_temp c : ∀ remaining attempt st,
  temp (attempts pol extract tp c attempt remaining st) =
  match first_success extract c (ncalls st) remaining with
  | Some payload =>
      Fs.write tp (temp st) (checkpoint_path pol tp c) (dump pol payload)
  | None => temp st
  end.
Proof.
  induction remaining as [|r IH]; intros attempt st; simpl; [done|].
  destruct (extract (ncalls st) c); simpl; [done|]. by rewrite IH.
Qed.

Lemma attempts_ncalls c : ∀ remaining attempt st,
  ncalls (attempts pol extract tp c attempt remaining st) =
  ncalls st
  + Nat.min remaining
      (S (length (leading_failures extract c (ncalls st) remaining))).
Proof.
  induction remaining as [|r IH]; intros attempt st; simpl; [lia|].
  destruct (extract (ncalls st) c); simpl; [lia|]. rewrite IH. simpl. lia.
Qed.

(** The leading failures are all the calls exactly when none succeeds. *)
Lemma first_success_None c : ∀ remaining n,
  first_success extract c n remaining = None ↔
  length (leading_failures extract c n remaining) = remaining.
Proof.
  induction remaining as [|r IH]; intros n; simpl; [done|].
  destruct (extract n c); simpl.
  - split; [done|lia].
  - rewrite IH. lia.
Qed.

Lemma leading_failures_length c : ∀ remaining n,
  length (leading_failures extract c n remaining) ≤ remaining.
Proof.
  induction remaining as [|r IH]; intros n; simpl; [done|].
  destruct (extract n c); simpl; [lia|]. specialize (IH (S n)). lia.
Qed.

Lemma leading_failures_all c : ∀ remaining n,
  (∀ i, i < remaining → ∃ e, extract (n + i) c = Raised e) →
  first_success extract c n remaining = None.
Proof.
  induction remaining as [|r IH]; intros n H; simpl; [done|].
  destruct (H 0) as [e He]; [lia|]. rewrite Nat.add_0_r in He. rewrite He.
  apply IH. intros i Hi. destruct (H (S i)) as [e' He']; [lia|].
  exists e'. by rewrite <- He', Nat.add_succ_r.
Qed.

(** *** One chunk *)

Lemma process_chunk_hit c st :
  Fs.path_exists tp (temp st) (checkpoint_path pol tp c) = true →
  process_chunk pol extract tp c st
  = emit [Print (SkippingChunk (OsPath.basename c))] st.
Proof. unfold process_chunk. by intros ->. Qed.

Lemma process_chunk_miss c st :
  Fs.path_exists tp (temp st) (checkpoint_path pol tp c) = false →
  process_chunk pol extract tp c st
  = attempts pol extract tp c 0 (max_retries pol) st.
Proof. unfold process_chunk. by intros ->. Qed.

Lemma process_chunk_final c st :
  final (process_chunk pol extract tp c st) = final st.
Proof.
  unfold process_chunk. destruct (Fs.path_exists _ _ _); [done|].
  apply attempts_final.
Qed.

Lemma process_chunk_trace c st :
  ∃ evs, trace (process_chunk pol extract tp c st) = trace st ++ evs.
Proof.
  unfold process_chunk. destruct (Fs.path_exists _ _ _); [by eexists|].
  eexists. apply attempts_trace.
Qed.

(** A chunk either leaves the checkpoint directory as it is or adds its own
    checkpoint, which did not exist. *)
Lemma process_chunk_temp c st :
  temp (process_chunk pol extract tp c st) = temp st ∨
  Fs.path_exists tp (temp st) (checkpoint_path pol tp c) = false ∧
  ∃ payload,
    temp (process_chunk pol extract tp c st)
    = temp st ++ [(OsPath.basename (checkpoint_path pol tp c), dump pol payload)].
Proof.
  unfold process_chunk.
  destruct (Fs.path_exists _ _ _) eqn:E; [by left|].
  rewrite attempts_temp. destruct (first_success _ _ _ _) as [payload|].
  - right. split; [done|]. exists payload. by apply write_fresh.
  - by left.
Qed.

(** *** The chunk list *)

Lemma process_chunks_cons c chunks st :
  process_chunks pol extract tp (c :: chunks) st
  = process_chunks pol extract tp chunks (process_chunk pol extract tp c st).
Proof. reflexivity. Qed.

Lemma process_chunks_app chunks1 chunks2 st :
  process_chunks pol extract tp (chunks1 ++ chunks2) st
  = process_chunks pol extract tp chunks2
      (process_chunks pol extract tp chunks1 st).
Proof. unfold process_chunks. by rewrite fold_left_app. Qed.

Lemma process_chunks_final chunks : ∀ st,
  final (process_chunks pol extract tp chunks st) = final st.
Proof.
  induction chunks as [|c chunks IH]; intros st; [done|].
  by rewrite process_chunks_cons, IH, process_chunk_final.
Qed.

Lemma process_chunks_trace chunks : ∀ st,
  ∃ evs, trace (process_chunks pol extract tp chunks st) = trace st ++ evs.
Proof.
  induction chunks as [|c chunks IH]; intros st.
  - exists []. simpl. by rewrite app_nil_r.
  - rewrite process_chunks_cons.
    destruct (IH (process_chunk pol extract tp c st)) as [evs2 ->].
    destruct (process_chunk_trace c st) as [evs1 ->].
    exists (evs1 ++ evs2). by rewrite app_assoc.
Qed.

(** Checkpoints are only ever added: the directory a run starts from is a
    prefix of the directory it ends with. *)
Lemma process_chunks_temp_prefix chunks : ∀ st,
  ∃ added, temp (process_chunks pol extract tp chunks st) = temp st ++ added.
Proof.
  induction chunks as [|c chunks IH]; intros st.
  - exists []. simpl. by rewrite app_nil_r.
  - rewrite process_chunks_cons.
    destruct (IH (process_chunk pol extract tp c st)) as [added2 ->].
    destruct (process_chunk_temp c st) as [->|[_ [payload ->]]].
    + by exists added2.
    + eexists. by rewrite <- app_assoc.
Qed.

Lemma process_chunk_wf c st :
  OsPath.has_sep (suffix pol) = false →
  Fs.wf tp (temp st) → Fs.wf tp (temp (process_chunk pol extract tp c st)).
Proof.
  intros Hs Hwf. unfold process_chunk.
  destruct (Fs.path_exists _ _ _); [done|]. rewrite attempts_temp.
  destruct (first_success _ _ _ _); [|done].
  apply wf_write; [by apply checkpoint_inside|done].
Qed.

Lemma process_chunks_wf chunks : ∀ st,
  OsPath.has_sep (suffix pol) = false →
  Fs.wf tp (temp st) → Fs.wf tp (temp (process_chunks pol extract tp chunks st)).
Proof.
  induction chunks as [|c chunks IH]; intros st Hs Hwf; [done|].
  rewrite process_chunks_cons. apply IH; [done|]. by apply process_chunk_wf.
Qed.

End LoopFacts.

(** ** The policies of the three scripts *)

Lemma script_suffix {A C} (pol : policy A C) :
  script pol → OsPath.has_sep (suffix pol) = false.
Proof. by intros []. Qed.

Lemma script_max_retries {A C} (pol : policy A C) :
  script pol → max_retries pol = 3.
Proof. by intros []. Qed.

Lemma script_quiet {A C} (pol : policy A C) : script pol → quiet pol.
Proof.
  intros []; (split; [done|]); intros n b e; simpl;
    by destruct (Structured.is_rate_limit e).
Qed.

Lemma paced_text : paced ExtractScript.pol (λ _, 10%Z) 65.
Proof. by split. Qed.

Lemma paced_clause : paced Test.pol classified_cooldown 5.
Proof.
  split; [done|]. intros n b e. unfold classified_cooldown. simpl.
  by destruct (Structured.is_rate_limit e).
Qed.

Lemma paced_grouped : paced TestV1.pol classified_cooldown 5.
Proof. exact paced_clause. Qed.

Section PolicyFacts.
Context {A C : Type} (pol : policy A C) (extract : service A) (tp : string).

Lemma filter_app_list {B} (f : B → bool) (l1 l2 : list B) :
  List.filter f (l1 ++ l2) = List.filter f l1 ++ List.filter f l2.
Proof. apply List.filter_app. Qed.

Lemma attempt_events_calls c : quiet pol → ∀ remaining attempt n,
  extract_calls (attempt_events pol extract tp c attempt remaining n)
  = replicate
      (Nat.min remaining (S (length (leading_failures extract c n remaining))))
      (Extract c).
Proof.
  intros [Hs He]. unfold extract_calls, file_writes in *.
  induction remaining as [|r IH]; intros attempt n; simpl; [done|].
  f_equal. destruct (extract n c) as [payload|e]; simpl.
  - destruct (Hs (OsPath.basename c)) as [-> _]. by destruct r.
  - rewrite filter_app_list.
    destruct (He attempt (OsPath.basename c) e) as [-> _]. by rewrite IH.
Qed.

Lemma attempt_events_writes c : quiet pol → ∀ remaining attempt n,
  file_writes (attempt_events pol extract tp c attempt remaining n)
  = match first_success extract c n remaining with
    | Some _ => [WriteFile (checkpoint_path pol tp c)]
    | None => []
    end.
Proof.
  intros [Hs He]. unfold extract_calls, file_writes in *.
  induction remaining as [|r IH]; intros attempt n; simpl; [done|].
  destruct (extract n c) as [payload|e]; simpl.
  - by destruct (Hs (OsPath.basename c)) as [_ ->].
  - rewrite filter_app_list.
    destruct (He attempt (OsPath.basename c) e) as [_ ->]. by rewrite IH.
Qed.

Lemma attempt_events_last c : ∀ remaining attempt n,
  first_success extract c n remaining = None →
  last (attempt_events pol extract tp c attempt remaining n)
  = Some (Print (Failed (OsPath.basename c) (max_retries pol))).
Proof.
  induction remaining as [|r IH]; intros attempt n; simpl; [done|].
  destruct (extract n c) as [payload|e]; [done|]. intros H.
  rewrite last_cons, last_app, (IH _ _ H). done.
Qed.

Lemma attempt_events_timeline c cool pause :
  paced pol cool pause → ∀ remaining attempt n,
  timeline (attempt_events pol extract tp c attempt remaining n)
  = retry_timeline c cool pause (leading_failures extract c n remaining)
      (bool_decide (length (leading_failures extract c n remaining) < remaining)).
Proof.
  intros [Hs He]. unfold retry_timeline, timeline in *.
  induction remaining as [|r IH]; intros attempt n; simpl; [done|].
  f_equal. destruct (extract n c) as [payload|e]; simpl.
  - by rewrite Hs.
  - rewrite filter_app_list, He, IH. simpl.
    by rewrite (bool_decide_ext (S _ < S r)
                  (length (leading_failures extract c (S n) r) < r)) by lia.
Qed.

End PolicyFacts.

(** ** Checkpoint hit, retry bound and cooldowns *)

(** C6. A chunk whose checkpoint is present is skipped at the checkpoint
    check: the only effect is the "already processed" message; no remote
    call is made, whatever the service would answer, and the checkpoint
    directory is left as it is. This holds for every policy, so for the
    three scripts. *)
Theorem checkpoint_hit_makes_no_call {A C} (pol : policy A C)
    (extract : service A) (tp c : string) (st : state C) :
  Fs.path_exists tp (temp st) (checkpoint_path pol tp c) = true →
  let st' := process_chunk pol extract tp c st in
  events_since st st' = [Print (SkippingChunk (OsPath.basename c))]
  ∧ extract_calls (events_since st st') = []
  ∧ ncalls st' = ncalls st
  ∧ temp st' = temp st
  ∧ ∀ extract', process_chunk pol extract' tp c st = st'.
Proof.
  intros Hhit st'. subst st'. rewrite process_chunk_hit by done.
  rewrite (events_since_app st _ [Print (SkippingChunk (OsPath.basename c))])
    by done.
  repeat split; try done. intros extract'. by rewrite process_chunk_hit.
Qed.

Lemma checkpoint_hit_witness :
  Fs.path_exists Scenario.temp_text (temp Scenario.resumed_text)
    (checkpoint_path ExtractScript.pol Scenario.temp_text Scenario.chunk_a)
  = true
  ∧ extract_calls
      (events_since Scenario.resumed_text
         (process_chunk ExtractScript.pol Scenario.always_text
            Scenario.temp_text Scenario.chunk_a Scenario.resumed_text))
    = [].
Proof.
  split; [reflexivity|].
  apply (checkpoint_hit_makes_no_call ExtractScript.pol Scenario.always_text
           Scenario.temp_text Scenario.chunk_a Scenario.resumed_text).
  reflexivity.
Defined.



(** C3, as the claim has it, fails in text mode: a first call that raises a
    rate-limit error is followed by the same ten-second sleep as any other
    error, where the structured scripts sleep seventy seconds. *)
Lemma text_mode_does_not_classify :
  Structured.is_rate_limit "429 RESOURCE_EXHAUSTED: quota exceeded" = true
  ∧ timeline
      (events_since Scenario.empty_run
         (process_chunk ExtractScript.pol Scenario.rate_limited_once
            Scenario.temp_text Scenario.chunk_a Scenario.empty_run))
    = [Extract Scenario.chunk_a; Sleep 10; Extract Scenario.chunk_a; Sleep 65]
  ∧ classified_cooldown "429 RESOURCE_EXHAUSTED: quota exceeded" = 70%Z.
Proof. by vm_compute. Qed.

(** C3, amended. In the structured scripts every failed call is followed,
    before the next call, by a sleep of [RETRY_DELAY_SECONDS = 70] when the
    error message contains "429" or "ResourceExhausted", and of 10 seconds
    otherwise. In the text script every failed call is followed by a sleep
    of 10 seconds. In all three, both kinds of failure count against the
    same limit of three calls, and the sleep also follows the last failed
    call. *)
Theorem cooldown_by_error_class (tp c : string) :
  (∀ (extract : service json) (st : state jfile),
     let fails := leading_failures extract c (ncalls st) 3 in
     timeline (events_since st (attempts Test.pol extract tp c 0 3 st))
     = retry_timeline c classified_cooldown 5 fails
         (bool_decide (length fails < 3))
     ∧ timeline (events_since st (attempts TestV1.pol extract tp c 0 3 st))
       = retry_timeline c classified_cooldown 5 fails
           (bool_decide (length fails < 3))
     ∧ length fails ≤ 3)
  ∧ (∀ (extract : service string) (st : state string),
       let fails := leading_failures extract c (ncalls st) 3 in
       timeline
         (events_since st (attempts ExtractScript.pol extract tp c 0 3 st))
       = retry_timeline c (λ _, 10%Z) 65 fails (bool_decide (length fails < 3))
       ∧ length fails ≤ 3)
  ∧ (∀ e, classified_cooldown e
          = if Py.contains "429" e || Py.contains "ResourceExhausted" e
            then Test.RETRY_DELAY_SECONDS else 10%Z)
  ∧ (10 < Test.RETRY_DELAY_SECONDS)%Z.
Proof.
  repeat split.
  - rewrite (events_since_app st _ _
               (attempts_trace Test.pol extract tp c 3 0 st)).
    by apply attempt_events_timeline, paced_clause.
  - rewrite (events_since_app st _ _
               (attempts_trace TestV1.pol extract tp c 3 0 st)).
    by apply attempt_events_timeline, paced_grouped.
  - apply leading_failures_length.
  - rewrite (events_since_app st _ _
               (attempts_trace ExtractScript.pol extract tp c 3 0 st)).
    by apply attempt_events_timeline, paced_text.
  - apply leading_failures_length.
Qed.

(** ** Whole-document skip *)

(** C2, as the claim has it, fails in text mode: the text script has no
    check of the final artifact. With the artifact of "ActX" present and
    the checkpoint of chunk b missing, a run calls the service for b,
    writes its checkpoint and writes the artifact again. *)
Lemma text_mode_reruns_with_final_present :
  Fs.path_exists ExtractScript.final_output_path (final Scenario.partial_text)
    Scenario.final_text = true
  ∧ events_since Scenario.partial_text
      (ExtractScript.process_act Scenario.ls_text Scenario.always_text "ActX"
         Scenario.partial_text)
    = [Print (ProcessingAct "ActX"); Print (FoundChunks 3 "ActX");
       Print (SkippingChunk "a.pdf");
       Extract Scenario.chunk_b;
       WriteFile "extraction-component/temp_extracted_chunks/ActX/b.txt";
       Print (Success "b.pdf"); Print (Waiting 65); Sleep 65;
       Print (SkippingChunk "c.pdf");
       Print (Combining "ActX");
       WriteFile Scenario.final_text; Print (Saved Scenario.final_text)].
Proof. by vm_compute. Qed.

Section WholeDocument.
Context (ls : listing) (extract : service json) (act_name : string).
Implicit Types st : state jfile.

Lemma clause_final_exists st :
  Fs.path_exists Test.final_output_path (final st)
    (OsPath.join Test.final_output_path [act_name +:+ ".json"]) = true →
  Test.process_act ls extract act_name st
  = Ok (emit [Print (ProcessingAct act_name); Print FinalExists] st).
Proof.
  intros H. unfold Test.process_act. cbn [final emit]. rewrite H.
  unfold emit. simpl. by rewrite <- app_assoc.
Qed.

Lemma grouped_final_exists st :
  Fs.path_exists TestV1.final_output_path (final st)
    (OsPath.join TestV1.final_output_path [act_name +:+ ".json"]) = true →
  TestV1.process_act ls extract act_name st
  = Ok (emit [Print (ProcessingAct act_name); Print FinalExists] st).
Proof.
  intros H. unfold TestV1.process_act. cbn [final emit]. rewrite H.
  unfold emit. simpl. by rewrite <- app_assoc.
Qed.

End WholeDocument.

Section IgnoresFinal.
Context {A C : Type} (pol : policy A C) (extract : service A) (tp : string).
Implicit Types st : state C.

Lemma attempts_with_final f c : ∀ remaining attempt st,
  attempts pol extract tp c attempt remaining (with_final f st)
  = with_final f (attempts pol extract tp c attempt remaining st).
Proof.
  induction remaining as [|r IH]; intros attempt st; simpl; [done|].
  destruct (extract (ncalls st) c); simpl; [done|]. by rewrite <- IH.
Qed.

(** The chunk loop never looks at the directory of final artifacts. *)
Lemma process_chunks_with_final f chunks : ∀ st,
  process_chunks pol extract tp chunks (with_final f st)
  = with_final f (process_chunks pol extract tp chunks st).
Proof.
  induction chunks as [|c chunks IH]; intros st; [done|].
  rewrite !process_chunks_cons, <- IH. f_equal.
  unfold process_chunk. cbn [temp with_final].
  destruct (Fs.path_exists _ _ _); [done|]. apply attempts_with_final.
Qed.

End IgnoresFinal.

(** C2, amended. In the structured scripts, an act whose final artifact
    exists is skipped at once: two messages are printed, no remote call is
    made and no file is written. The text script never looks at the final
    artifact: the calls it makes, the effects it has and the checkpoints it
    writes are those of a run without the artifact. *)
Theorem final_artifact_skip (ls : listing) (act_name : string) :
  (∀ (extract : service json) (st : state jfile),
     Fs.path_exists Test.final_output_path (final st)
       (OsPath.join Test.final_output_path [act_name +:+ ".json"]) = true →
     ∃ st', Test.process_act ls extract act_name st = Ok st'
            ∧ events_since st st'
              = [Print (ProcessingAct act_name); Print FinalExists]
            ∧ extract_calls (events_since st st') = []
            ∧ file_writes (events_since st st') = []
            ∧ ncalls st' = ncalls st
            ∧ temp st' = temp st ∧ final st' = final st)
  ∧ (∀ (extract : service json) (st : state jfile),
       Fs.path_exists TestV1.final_output_path (final st)
         (OsPath.join TestV1.final_output_path [act_name +:+ ".json"]) = true →
       ∃ st', TestV1.process_act ls extract act_name st = Ok st'
              ∧ events_since st st'
                = [Print (ProcessingAct act_name); Print FinalExists]
              ∧ extract_calls (events_since st st') = []
              ∧ file_writes (events_since st st') = []
              ∧ ncalls st' = ncalls st
              ∧ temp st' = temp st ∧ final st' = final st)
  ∧ (∀ (extract : service string) (st : state string) (f : Fs.dir string),
       let st1 := ExtractScript.process_act ls extract act_name st in
       let st2 := ExtractScript.process_act ls extract act_name (with_final f st) in
       trace st2 = trace st1 ∧ ncalls st2 = ncalls st1 ∧ temp st2 = temp st1).
Proof.
  split; [|split].
  - intros extract st H. eexists. split; [by apply clause_final_exists|].
    by rewrite (events_since_app st _
                  [Print (ProcessingAct act_name); Print FinalExists]).
  - intros extract st H. eexists. split; [by apply grouped_final_exists|].
    by rewrite (events_since_app st _
                  [Print (ProcessingAct act_name); Print FinalExists]).
  - intros extract st f. cbv zeta. unfold ExtractScript.process_act.
    destruct (ExtractScript.chunks_to_process _ _) as [|c chunks]; [done|].
    set (tp := OsPath.join ExtractScript.temp_output_path_base [act_name]).
    set (cs := c :: chunks).
    change (emit [Print (FoundChunks (length cs) act_name)]
              (emit [Print (ProcessingAct act_name)] (with_final f st)))
      with (with_final f (emit [Print (FoundChunks (length cs) act_name)]
              (emit [Print (ProcessingAct act_name)] st))).
    rewrite process_chunks_with_final.
    set (st1 := process_chunks _ _ _ _ _).
    cbn [emit with_final temp final ncalls trace].
    by destruct (ExtractScript.final_text_parts tp cs (temp st1)).
Qed.

Lemma final_artifact_skip_witness :
  Fs.path_exists TestV1.final_output_path (final Scenario.done_json)
    (OsPath.join TestV1.final_output_path ["ActX" +:+ ".json"]) = true
  ∧ ∃ st', TestV1.process_act Scenario.ls_json Scenario.always_json "ActX"
             Scenario.done_json = Ok st'
           ∧ events_since Scenario.done_json st'
             = [Print (ProcessingAct "ActX"); Print FinalExists]
           ∧ extract_calls (events_since Scenario.done_json st') = []
           ∧ file_writes (events_since Scenario.done_json st') = []
           ∧ ncalls st' = ncalls Scenario.done_json
           ∧ temp st' = temp Scenario.done_json
           ∧ final st' = final Scenario.done_json.
Proof.
  split; [reflexivity|].
  apply (proj1 (proj2 (final_artifact_skip Scenario.ls_json "ActX"))
           Scenario.always_json Scenario.done_json).
  reflexivity.
Defined.

(** ** Assembly in text mode *)

Section TextAssembly.
Context (tp : string).
Implicit Types (temp : Fs.dir string) (chunks : list string).

Lemma final_text_parts_spec chunks temp :
  ExtractScript.final_text_parts tp chunks temp
  = chunk_text tp temp <$> present_chunks ExtractScript.pol tp temp chunks.
Proof.
  unfold ExtractScript.final_text_parts, present_chunks.
  induction chunks as [|c chunks IH]; [done|].
  cbn [omap list_omap List.filter]. unfold Fs.path_exists at 1.
  destruct (Fs.read tp temp (checkpoint_path ExtractScript.pol tp c)) eqn:E;
    csimpl; rewrite IH; [|done].
  f_equal. unfold chunk_text. by rewrite E.
Qed.

Lemma present_chunks_nonempty {A C} (pol : policy A C) (t : Fs.dir C) chunks :
  present_chunks pol tp t chunks ≠ [] ↔
  ∃ c, c ∈ chunks ∧ Fs.path_exists tp t (checkpoint_path pol tp c) = true.
Proof.
  unfold present_chunks. split.
  - destruct (List.filter _ _) as [|c l] eqn:E; [done|]. intros _.
    assert (In c (List.filter
                    (λ c, Fs.path_exists tp t (checkpoint_path pol tp c))
                    chunks)) as Hin by (rewrite E; by left).
    apply List.filter_In in Hin as [Hin Hc]. exists c.
    split; [by apply list_elem_of_In|done].
  - intros (c & Hin & Hc) E.
    assert (In c (List.filter
                    (λ c, Fs.path_exists tp t (checkpoint_path pol tp c))
                    chunks)) as H.
    { apply List.filter_In. split; [by apply list_elem_of_In|done]. }
    by rewrite E in H.
Qed.

End TextAssembly.

(** The text script's act body, with the combination written as a join over
    the chunks whose checkpoint is present. *)
Lemma text_process_act_unfold (ls : listing) (extract : service string)
    (act_name : string) (st : state string) :
  let tp := OsPath.join ExtractScript.temp_output_path_base [act_name] in
  let chunks :=
    ExtractScript.chunks_to_process ls
      (OsPath.join ExtractScript.TOP_LEVEL_FOLDER [act_name; act_name]) in
  let final_act_path :=
    OsPath.join ExtractScript.final_output_path [act_name +:+ ".txt"] in
  let st1 := text_before_combining ls extract act_name st in
  let texts :=
    chunk_text tp (temp st1)
      <$> present_chunks ExtractScript.pol tp (temp st1) chunks in
  ExtractScript.process_act ls extract act_name st
  = match texts with
    | [] => st1
    | _ :: _ =>
        emit [Print (Saved final_act_path)]
          (write_final ExtractScript.final_output_path final_act_path
             (Py.join blank_line texts) st1)
    end.
Proof.
  cbv zeta. unfold ExtractScript.process_act, text_before_combining.
  destruct (ExtractScript.chunks_to_process _ _) as [|c chunks]; [reflexivity|].
  cbn [emit temp]. rewrite final_text_parts_spec.
  destruct (_ <$> _); reflexivity.
Qed.

Lemma text_before_combining_final ls extract act_name st :
  final (text_before_combining ls extract act_name st) = final st.
Proof.
  unfold text_before_combining.
  destruct (ExtractScript.chunks_to_process _ _); [reflexivity|].
  cbn [emit final]. by rewrite process_chunks_final.
Qed.

Lemma text_before_combining_trace ls extract act_name st :
  ∃ evs m, trace (text_before_combining ls extract act_name st)
           = trace st ++ evs ++ [Print m].
Proof.
  unfold text_before_combining.
  destruct (ExtractScript.chunks_to_process _ _) as [|c cs].
  - exists [Print (ProcessingAct act_name)], (NoChunksFound act_name).
    cbn [emit trace]. by rewrite <- app_assoc.
  - set (tp := OsPath.join ExtractScript.temp_output_path_base [act_name]).
    destruct (process_chunks_trace ExtractScript.pol extract tp (c :: cs)
                (emit [Print (FoundChunks (length (c :: cs)) act_name)]
                   (emit [Print (ProcessingAct act_name)] st))) as [evs Hevs].
    exists ([Print (ProcessingAct act_name);
             Print (FoundChunks (length (c :: cs)) act_name)] ++ evs),
           (Combining act_name).
    cbn [emit trace] in *. rewrite Hevs. by rewrite <- !app_assoc.
Qed.

(** C7. In text mode the final artifact of an act is written exactly when
    one of its chunks has a checkpoint when the chunk loop is over; what is
    written is the texts read from the checkpoints of those chunks, in
    chunk order, joined by two line feeds. With no such chunk the directory
    of final artifacts is left as it is. *)
Theorem text_artifact_iff_checkpoint (ls : listing) (extract : service string)
    (act_name : string) (st : state string) :
  let tp := OsPath.join ExtractScript.temp_output_path_base [act_name] in
  let chunks :=
    ExtractScript.chunks_to_process ls
      (OsPath.join ExtractScript.TOP_LEVEL_FOLDER [act_name; act_name]) in
  let final_act_path :=
    OsPath.join ExtractScript.final_output_path [act_name +:+ ".txt"] in
  let st' := ExtractScript.process_act ls extract act_name st in
  let present := present_chunks ExtractScript.pol tp (temp st') chunks in
  let full_act_text := Py.join blank_line (chunk_text tp (temp st') <$> present) in
  (present ≠ [] ↔
   ∃ c, c ∈ chunks
        ∧ Fs.path_exists tp (temp st') (checkpoint_path ExtractScript.pol tp c)
          = true)
  ∧ (present ≠ [] →
     final st'
     = Fs.write ExtractScript.final_output_path (final st) final_act_path
         full_act_text
     ∧ (∃ evs, events_since st st'
               = evs ++ [WriteFile final_act_path; Print (Saved final_act_path)])
     ∧ (OsPath.has_sep act_name = false →
        Fs.read ExtractScript.final_output_path (final st') final_act_path
        = Some full_act_text))
  ∧ (present = [] →
     final st' = final st
     ∧ ∀ evs e, events_since st st' = evs ++ [e] → is_write e = false).
Proof.
  cbv zeta.
  pose proof (text_process_act_unfold ls extract act_name st) as Hrun.
  cbv zeta in Hrun.
  pose proof (text_before_combining_final ls extract act_name st) as Hfinal.
  destruct (text_before_combining_trace ls extract act_name st)
    as (evs1 & m & Htr).
  set (tp := OsPath.join ExtractScript.temp_output_path_base [act_name]) in *.
  set (chunks := ExtractScript.chunks_to_process ls _) in *.
  set (fp := OsPath.join ExtractScript.final_output_path _) in *.
  set (st1 := text_before_combining ls extract act_name st) in *.
  assert (temp (ExtractScript.process_act ls extract act_name st) = temp st1)
    as Htemp.
  { rewrite Hrun. destruct (chunk_text tp (temp st1) <$> _); reflexivity. }
  rewrite Htemp. split; [apply present_chunks_nonempty|].
  destruct (present_chunks ExtractScript.pol tp (temp st1) chunks)
    as [|c0 l] eqn:Hp.
  - rewrite Hrun. cbn [fmap list_fmap]. split; [intros []; reflexivity|].
    intros _. split; [exact Hfinal|].
    intros evs e He.
    rewrite (events_since_app st st1 (evs1 ++ [Print m])) in He by exact Htr.
    apply app_inj_tail in He as [_ <-]. reflexivity.
  - split; [|intros [=]]. intros _. rewrite Hrun.
    cbn [fmap list_fmap emit write_final final trace].
    rewrite Hfinal. split; [reflexivity|]. split.
    + exists (evs1 ++ [Print m]).
      apply events_since_app. cbn [emit write_final trace]. rewrite Htr.
      rewrite <- !app_assoc. reflexivity.
    + intros Hsep. apply read_write_eq, inside_path_of.
      rewrite has_sep_app, Hsep. reflexivity.
Qed.

Lemma text_artifact_witness :
  present_chunks ExtractScript.pol Scenario.temp_text
    (temp (ExtractScript.process_act Scenario.ls_text Scenario.always_text
             "ActX" Scenario.empty_run))
    (ExtractScript.chunks_to_process Scenario.ls_text
       "extraction-component/ActX/ActX") ≠ []
  ∧ OsPath.has_sep "ActX" = false
  ∧ Fs.read ExtractScript.final_output_path
      (final (ExtractScript.process_act Scenario.ls_text Scenario.always_text
                "ActX" Scenario.empty_run))
      Scenario.final_text
    = Some (Py.join blank_line ["TEXT_a"; "TEXT_b"; "TEXT_c"]).
Proof.
  assert (present_chunks ExtractScript.pol Scenario.temp_text
            (temp (ExtractScript.process_act Scenario.ls_text
                     Scenario.always_text "ActX" Scenario.empty_run))
            (ExtractScript.chunks_to_process Scenario.ls_text
               "extraction-component/ActX/ActX") ≠ []) as Hne.
  { vm_compute. discriminate. }
  split; [exact Hne|]. split; [reflexivity|].
  exact (proj2 (proj2 (proj1 (proj2
           (text_artifact_iff_checkpoint Scenario.ls_text Scenario.always_text
              "ActX" Scenario.empty_run)) Hne)) eq_refl).
Defined.

(** ** Assembly in the structured modes *)

Section Combine.
Context (tp : string) (temp : Fs.dir jfile).
Implicit Types (files : list string) (log : list event).

(** The warnings do not influence the data. *)
Lemma clause_combine_log files : ∀ a log log',
  combined (Test.combine tp temp files a log)
  = combined (Test.combine tp temp files a log').
Proof.
  induction files as [|p files IH]; intros a log log'; simpl; [done|].
  destruct (Fs.read tp temp p) as [[v|]|]; [|by apply IH..].
  destruct (Test.combine_step v a); [by apply IH|done].
Qed.

Lemma grouped_combine_log files : ∀ m log log',
  combined (TestV1.combine tp temp files m log)
  = combined (TestV1.combine tp temp files m log').
Proof.
  induction files as [|p files IH]; intros m log log'; simpl; [done|].
  destruct (Fs.read tp temp p) as [[v|]|]; [|by apply IH..].
  destruct (PyJson.iterate v); [by apply IH|done].
Qed.

Lemma clause_combine_log_prefix files : ∀ a log x l,
  Test.combine tp temp files a log = Ok (x, l) → ∃ added, l = log ++ added.
Proof.
  induction files as [|p files IH]; intros a log x l; simpl.
  - intros [= <- <-]. exists []. by rewrite app_nil_r.
  - destruct (Fs.read tp temp p) as [[v|]|].
    + destruct (Test.combine_step v a); [by apply IH|done].
    + intros [added ->]%IH. eexists. by rewrite <- app_assoc.
    + intros [added ->]%IH. eexists. by rewrite <- app_assoc.
Qed.

Lemma grouped_combine_log_prefix files : ∀ m log x l,
  TestV1.combine tp temp files m log = Ok (x, l) → ∃ added, l = log ++ added.
Proof.
  induction files as [|p files IH]; intros m log x l; simpl.
  - intros [= <- <-]. exists []. by rewrite app_nil_r.
  - destruct (Fs.read tp temp p) as [[v|]|].
    + destruct (PyJson.iterate v); [by apply IH|done].
    + intros [added ->]%IH. eexists. by rewrite <- app_assoc.
    + intros [added ->]%IH. eexists. by rewrite <- app_assoc.
Qed.

Lemma clause_combine_app files1 files2 : ∀ a log,
  Test.combine tp temp (files1 ++ files2) a log
  = match Test.combine tp temp files1 a log with
    | Ok (a', log') => Test.combine tp temp files2 a' log'
    | Uncaught e => Uncaught e
    end.
Proof.
  induction files1 as [|p files1 IH]; intros a log; simpl; [done|].
  destruct (Fs.read tp temp p) as [[v|]|]; [|by apply IH..].
  destruct (Test.combine_step v a); [by apply IH|done].
Qed.

Lemma grouped_combine_app files1 files2 : ∀ m log,
  TestV1.combine tp temp (files1 ++ files2) m log
  = match TestV1.combine tp temp files1 m log with
    | Ok (m', log') => TestV1.combine tp temp files2 m' log'
    | Uncaught e => Uncaught e
    end.
Proof.
  induction files1 as [|p files1 IH]; intros m log; simpl; [done|].
  destruct (Fs.read tp temp p) as [[v|]|]; [|by apply IH..].
  destruct (PyJson.iterate v); [by apply IH|done].
Qed.

End Combine.

(** C9. In both structured scripts a checkpoint file that fails to decode
    is skipped by the combination loop: the loop prints its warning and
    goes on with the files that follow, and what it combines, or the
    exception it ends with, is what the loop makes of the other files
    alone. *)
Theorem decode_error_is_skipped (tp : string) (temp : Fs.dir jfile)
    (files1 : list string) (p : string) (files2 : list string) :
  Fs.read tp temp p = Some Malformed →
  (∀ a log,
     combined (Test.combine tp temp (files1 ++ p :: files2) a log)
     = combined (Test.combine tp temp (files1 ++ files2) a log)
     ∧ ∀ x l,
         Test.combine tp temp (files1 ++ p :: files2) a log = Ok (x, l) →
         Print (CouldNotDecode (OsPath.basename p)) ∈ l)
  ∧ (∀ m log,
       combined (TestV1.combine tp temp (files1 ++ p :: files2) m log)
       = combined (TestV1.combine tp temp (files1 ++ files2) m log)
       ∧ ∀ x l,
           TestV1.combine tp temp (files1 ++ p :: files2) m log = Ok (x, l) →
           Print (CouldNotDecode (OsPath.basename p)) ∈ l).
Proof.
  intros Hp. split.
  - intros a log. rewrite !clause_combine_app.
    destruct (Test.combine tp temp files1 a log) as [[a1 log1]|e]; [|done].
    simpl. rewrite Hp. split; [apply clause_combine_log|].
    intros x l H.
    destruct (clause_combine_log_prefix tp temp files2 a1 _ x l H)
      as [added ->].
    rewrite !elem_of_app, list_elem_of_singleton. auto.
  - intros m log. rewrite !grouped_combine_app.
    destruct (TestV1.combine tp temp files1 m log) as [[m1 log1]|e]; [|done].
    simpl. rewrite Hp. split; [apply grouped_combine_log|].
    intros x l H.
    destruct (grouped_combine_log_prefix tp temp files2 m1 _ x l H)
      as [added ->].
    rewrite !elem_of_app, list_elem_of_singleton. auto.
Qed.

Lemma decode_error_witness :
  Fs.read "./temp_chunk_grouped_json/ActX" Scenario.one_malformed
    "./temp_chunk_grouped_json/ActX/b.json" = Some Malformed
  ∧ combined
      (TestV1.combine "./temp_chunk_grouped_json/ActX" Scenario.one_malformed
         (["./temp_chunk_grouped_json/ActX/a.json"]
          ++ "./temp_chunk_grouped_json/ActX/b.json"
             :: ["./temp_chunk_grouped_json/ActX/c.json"]) [] [])
    = combined
        (TestV1.combine "./temp_chunk_grouped_json/ActX" Scenario.one_malformed
           (["./temp_chunk_grouped_json/ActX/a.json"]
            ++ ["./temp_chunk_grouped_json/ActX/c.json"]) [] []).
Proof.
  split; [reflexivity|].
  apply (decode_error_is_skipped "./temp_chunk_grouped_json/ActX"
           Scenario.one_malformed ["./temp_chunk_grouped_json/ActX/a.json"]
           "./temp_chunk_grouped_json/ActX/b.json"
           ["./temp_chunk_grouped_json/ActX/c.json"]).
  reflexivity.
Defined.

(** *** Metadata of the per-clause artifact *)

Lemma dict_get_find key members :
  PyJson.dict_get key members
  = match List.find (λ kv, String.eqb kv.1 key) members with
    | Some (_, v) => v
    | None => JNull
    end.
Proof.
  induction members as [|[k v] members IH]; simpl; [done|].
  by destruct (String.eqb k key).
Qed.

Lemma find_entry key members v :
  (key, v) ∈ members →
  ∃ v', List.find (λ kv : string * json, String.eqb kv.1 key) members
        = Some (key, v').
Proof.
  induction members as [|[k w] members IH]; simpl.
  - by intros ?%elem_of_nil.
  - destruct (String.eqb k key) eqn:E.
    + apply String.eqb_eq in E as ->. by exists w.
    + apply String.eqb_neq in E.
      intros [[= ? ?]|?]%elem_of_cons; [congruence|by apply IH].
Qed.

(** When every chunk result has the entry, the script's rule is the rule of
    the specification. *)
Lemma first_not_unknown_known key chunks :
  all_have key chunks → first_not_unknown key chunks = first_known key chunks.
Proof.
  unfold all_have. induction 1 as [|members chunks [v Hv] _ IH]; simpl; [done|].
  rewrite dict_get_find. destruct (find_entry _ _ _ Hv) as [v' ->].
  by rewrite IH.
Qed.

Lemma clause_combine_step_spec temp_data a a' :
  Test.combine_step temp_data a = Ok a' →
  ∃ members more,
    temp_data = JObj members ∧ clauses_of members = Some more
    ∧ Test.all_clauses a' = Test.all_clauses a ++ more
    ∧ Test.final_act_name a'
      = (if PyJson.eq_unknown (Test.final_act_name a)
         then first_not_unknown "act_name" [members]
         else Test.final_act_name a)
    ∧ Test.final_act_number a'
      = (if PyJson.eq_unknown (Test.final_act_number a)
         then first_not_unknown "act_number" [members]
         else Test.final_act_number a).
Proof.
  unfold Test.combine_step. destruct temp_data as [| | | | |members]; try done.
  fold (clauses_of members).
  destruct (clauses_of members) as [more|] eqn:Hc; [|done].
  intros [= <-]. exists members, more. cbn [first_not_unknown].
  repeat split; try done; cbn [Test.final_act_name Test.final_act_number].
  - destruct (PyJson.eq_unknown (Test.final_act_name a)) eqn:E; [|done].
    cbn [andb]. destruct (PyJson.ne_unknown _); [done|].
    destruct (Test.final_act_name a) as [| | |s| |]; try done.
    simpl in E. by apply String.eqb_eq in E as ->.
  - destruct (PyJson.eq_unknown (Test.final_act_number a)) eqn:E; [|done].
    cbn [andb]. destruct (PyJson.ne_unknown _); [done|].
    destruct (Test.final_act_number a) as [| | |s| |]; try done.
    simpl in E. by apply String.eqb_eq in E as ->.
Qed.

Lemma first_not_unknown_app key chunks1 chunks2 :
  first_not_unknown key (chunks1 ++ chunks2)
  = if PyJson.eq_unknown (first_not_unknown key chunks1)
    then first_not_unknown key chunks2
    else first_not_unknown key chunks1.
Proof.
  induction chunks1 as [|members chunks1 IH]; simpl; [done|].
  unfold PyJson.ne_unknown.
  destruct (PyJson.eq_unknown (PyJson.dict_get key members)) eqn:E; simpl.
  - apply IH.
  - by rewrite E.
Qed.

(** The metadata the per-clause combination ends with: a field that is
    filled stays as it is; a field that holds the sentinel takes the first
    entry, in file order, that is not "Unknown". *)
Lemma clause_combine_metadata tp temp files : ∀ a log a' log',
  Test.combine tp temp files a log = Ok (a', log') →
  let chunks := members_of <$> decoded tp temp files in
  Test.final_act_name a'
  = (if PyJson.eq_unknown (Test.final_act_name a)
     then first_not_unknown "act_name" chunks
     else Test.final_act_name a)
  ∧ Test.final_act_number a'
    = (if PyJson.eq_unknown (Test.final_act_number a)
       then first_not_unknown "act_number" chunks
       else Test.final_act_number a).
Proof.
  unfold decoded.
  induction files as [|p files IH]; intros a log a' log'; simpl.
  - intros [= <- <-].
    destruct (Test.final_act_name a) as [| | |s1| |],
             (Test.final_act_number a) as [| | |s2| |]; simpl; try done;
      repeat (match goal with
              | |- context [String.eqb ?s "Unknown"] =>
                  destruct (String.eqb_spec s "Unknown") as [->|]
              end); done.
  - destruct (Fs.read tp temp p) as [[v|]|]; [|by apply IH..].
    destruct (Test.combine_step v a) as [a1|] eqn:Hstep; [|done].
    apply clause_combine_step_spec in Hstep
      as (members & more & -> & _ & _ & Hn & Hm).
    intros [Hn' Hm']%IH. rewrite Hn', Hm', Hn, Hm. csimpl.
    unfold PyJson.ne_unknown.
    split.
    + destruct (PyJson.eq_unknown (Test.final_act_name a)) eqn:E1; simpl.
      * destruct (PyJson.eq_unknown (PyJson.dict_get "act_name" members))
          eqn:E2; simpl; [done|by rewrite E2].
      * by rewrite E1.
    + destruct (PyJson.eq_unknown (Test.final_act_number a)) eqn:E1; simpl.
      * destruct (PyJson.eq_unknown (PyJson.dict_get "act_number" members))
          eqn:E2; simpl; [done|by rewrite E2].
      * by rewrite E1.
Qed.

(** C8 holds for chunk results that have both entries: from the sentinels,
    each field ends as the specification's rule says, and a filled field is
    never overwritten. *)
Lemma metadata_first_known tp temp files log a log' :
  let chunks := members_of <$> decoded tp temp files in
  all_have "act_name" chunks → all_have "act_number" chunks →
  Test.combine tp temp files Test.acc0 log = Ok (a, log') →
  Test.final_act_name a = first_known "act_name" chunks
  ∧ Test.final_act_number a = first_known "act_number" chunks.
Proof.
  intros chunks H1 H2 [Hn Hm]%clause_combine_metadata.
  rewrite <- !first_not_unknown_known by done. by rewrite Hn, Hm.
Qed.

(** C8, at an input where the per-clause script departs from it: the first
    checkpoint has no "act_name" entry. [get] returns [None], which is not
    "Unknown", so the field is filled with null by the first checkpoint and
    the name given by the second is never taken, where the rule of the
    specification gives "X Act". The "act_number" field, which the first
    checkpoint reports as "Unknown", is filled from the second. *)
Theorem metadata_null_from_nameless_chunk :
  let files :=
    Structured.temp_json_files Scenario.temp_json Scenario.nameless_first in
  let chunks :=
    members_of <$> decoded Scenario.temp_json Scenario.nameless_first files in
  files = ["./temp_chunk_json/ActX/a.json"; "./temp_chunk_json/ActX/b.json"]
  ∧ first_known "act_name" chunks = JStr "X Act"
  ∧ ∃ a log,
      Test.combine Scenario.temp_json Scenario.nameless_first files Test.acc0 []
      = Ok (a, log)
      ∧ Test.final_act_name a = JNull
      ∧ Test.final_act_number a = JStr "No. 5"
      ∧ Test.final_json_data a
        = JObj [("act_name", JNull); ("act_number", JStr "No. 5");
                ("clauses", JArr [Scenario.clause "Section 1";
                                  Scenario.clause "Section 2"])].
Proof.
  cbv zeta. split; [by vm_compute|]. split; [by vm_compute|].
  eexists _, _. split; [vm_compute; reflexivity|]. by vm_compute.
Qed.

(** *** Which files are combined *)

Lemma temp_json_files_elem {C} tp (temp : Fs.dir C) name c :
  (name, c) ∈ temp → Py.endswith name ".json" = true →
  Fs.path_of tp name ∈ Structured.temp_json_files tp temp.
Proof.
  intros Hin Hjson. unfold Structured.temp_json_files, Py.sorted.
  rewrite merge_sort_Permutation. apply list_elem_of_fmap.
  exists name. split; [done|]. apply list_elem_of_filter.
  split; [by rewrite Hjson|].
  unfold Fs.listdir. by apply (list_elem_of_fmap_2 fst) in Hin.
Qed.

Section Contains.
Context (tp : string) (temp : Fs.dir jfile).

Lemma grouped_combine_extends files : ∀ m log m' log',
  TestV1.combine tp temp files m log = Ok (m', log') → ∃ rest, m' = m ++ rest.
Proof.
  induction files as [|q files IH]; intros m log m' log'; simpl.
  - intros [= <- <-]. exists []. by rewrite app_nil_r.
  - destruct (Fs.read tp temp q) as [[v|]|]; [|by apply IH..].
    destruct (PyJson.iterate v) as [more|]; [|done].
    intros [rest ->]%IH. exists (more ++ rest). by rewrite app_assoc.
Qed.

Lemma grouped_combine_contains files p v : ∀ m log m' log',
  TestV1.combine tp temp files m log = Ok (m', log') →
  p ∈ files → Fs.read tp temp p = Some (Json v) →
  ∃ items before after,
    PyJson.iterate v = Some items ∧ m' = before ++ items ++ after.
Proof.
  induction files as [|q files IH]; intros m log m' log' Hrun Hin Hp.
  - by apply elem_of_nil in Hin.
  - simpl in Hrun. apply elem_of_cons in Hin as [<-|Hin].
    + rewrite Hp in Hrun. destruct (PyJson.iterate v) as [more|]; [|done].
      apply grouped_combine_extends in Hrun as [rest ->].
      exists more, m, rest. by rewrite <- app_assoc.
    + destruct (Fs.read tp temp q) as [[w|]|]; [|by eapply IH..].
      destruct (PyJson.iterate w); [by eapply IH|done].
Qed.

Lemma clause_combine_extends files : ∀ a log a' log',
  Test.combine tp temp files a log = Ok (a', log') →
  ∃ rest, Test.all_clauses a' = Test.all_clauses a ++ rest.
Proof.
  induction files as [|q files IH]; intros a log a' log'; simpl.
  - intros [= <- <-]. exists []. by rewrite app_nil_r.
  - destruct (Fs.read tp temp q) as [[v|]|]; [|by apply IH..].
    destruct (Test.combine_step v a) as [a1|] eqn:Hstep; [|done].
    apply clause_combine_step_spec in Hstep as (? & more & _ & _ & Hc & _).
    intros [rest ->]%IH. rewrite Hc. exists (more ++ rest).
    by rewrite app_assoc.
Qed.

Lemma clause_combine_contains files p v : ∀ a log a' log',
  Test.combine tp temp files a log = Ok (a', log') →
  p ∈ files → Fs.read tp temp p = Some (Json v) →
  ∃ members items before after,
    v = JObj members ∧ clauses_of members = Some items
    ∧ Test.all_clauses a' = before ++ items ++ after.
Proof.
  induction files as [|q files IH]; intros a log a' log' Hrun Hin Hp.
  - by apply elem_of_nil in Hin.
  - simpl in Hrun. apply elem_of_cons in Hin as [<-|Hin].
    + rewrite Hp in Hrun.
      destruct (Test.combine_step v a) as [a1|] eqn:Hstep; [|done].
      apply clause_combine_step_spec in Hstep
        as (members & more & -> & Hm & Hc & _).
      apply clause_combine_extends in Hrun as [rest ->].
      exists members, more, (Test.all_clauses a), rest.
      by rewrite Hc, <- app_assoc.
    + destruct (Fs.read tp temp q) as [[w|]|]; [|by eapply IH..].
      destruct (Test.combine_step w a); [by eapply IH|done].
Qed.

End Contains.

(** The chunk loop keeps every file the checkpoint directory has. *)
Lemma process_chunks_keeps {A C} (pol : policy A C) extract tp chunks
    (st : state C) e :
  e ∈ temp st → e ∈ temp (process_chunks pol extract tp chunks st).
Proof.
  intros Hin. destruct (process_chunks_temp_prefix pol extract tp chunks st)
    as [added ->].
  apply elem_of_app. by left.
Qed.

(** C10. In both structured scripts the combination takes its input from
    the listing of the checkpoint directory, not from the chunk list: when
    an act is combined (its final artifact does not exist yet, it has at
    least one chunk, and no exception ends the run), every ".json" file of
    its checkpoint directory that decodes contributes its clauses to the
    artifact, whether or not a chunk of the act corresponds to it. *)
Theorem leftover_checkpoints_are_assembled (ls : listing)
    (extract : service json) (act_name : string) (st st' : state jfile)
    (name : string) (v : json) :
  (name, Json v) ∈ temp st →
  Py.endswith name ".json" = true →
  OsPath.has_sep act_name = false →
  (let tp := OsPath.join TestV1.temp_output_path_base [act_name] in
   let final_act_json_path :=
     OsPath.join TestV1.final_output_path [act_name +:+ ".json"] in
   Fs.wf tp (temp st) →
   Fs.path_exists TestV1.final_output_path (final st) final_act_json_path
   = false →
   Structured.chunks_to_process ls
     (OsPath.join TestV1.TOP_LEVEL_FOLDER [act_name; act_name]) ≠ [] →
   TestV1.process_act ls extract act_name st = Ok st' →
   ∃ items before after,
     PyJson.iterate v = Some items
     ∧ (items ≠ [] →
        Fs.read TestV1.final_output_path (final st') final_act_json_path
        = Some (Json (JArr (before ++ items ++ after)))))
  ∧ (let tp := OsPath.join Test.temp_output_path_base [act_name] in
     let final_act_json_path :=
       OsPath.join Test.final_output_path [act_name +:+ ".json"] in
     Fs.wf tp (temp st) →
     Fs.path_exists Test.final_output_path (final st) final_act_json_path
     = false →
     Structured.chunks_to_process ls
       (OsPath.join Test.TOP_LEVEL_FOLDER [act_name; act_name]) ≠ [] →
     Test.process_act ls extract act_name st = Ok st' →
     ∃ members items before after name_ number_,
       v = JObj members ∧ clauses_of members = Some items
       ∧ (items ≠ [] →
          Fs.read Test.final_output_path (final st') final_act_json_path
          = Some (Json (JObj [("act_name", name_); ("act_number", number_);
                              ("clauses", JArr (before ++ items ++ after))])))).
Proof.
  intros Hin Hjson Hsep. split.
  - cbv zeta. intros Hwf Hnew Hchunks.
    unfold TestV1.process_act. cbn [emit final]. rewrite Hnew.
    destruct (Structured.chunks_to_process _ _) as [|c cs]; [done|].
    set (tp := OsPath.join TestV1.temp_output_path_base [act_name]) in *.
    set (fp := OsPath.join TestV1.final_output_path _) in *.
    set (st1 := process_chunks TestV1.pol extract tp (c :: cs) _).
    cbn [temp emit].
    assert ((name, Json v) ∈ temp st1) as Hin1
      by (by apply process_chunks_keeps).
    assert (Fs.wf tp (temp st1)) as Hwf1 by (by apply process_chunks_wf).
    destruct (TestV1.combine tp (temp st1) _ [] []) as [[m log]|] eqn:Hrun;
      [|done].
    destruct (grouped_combine_contains tp (temp st1) _ (Fs.path_of tp name) v
                _ _ _ _ Hrun) as (items & before & after & Hit & ->).
    { by eapply temp_json_files_elem. }
    { by apply read_elem. }
    intros Hst'. exists items, before, after. split; [done|]. intros Hne.
    destruct (before ++ items ++ after) as [|x l] eqn:Hm.
    { apply app_eq_nil in Hm as [_ [? _]%app_eq_nil]. done. }
    injection Hst' as <-. cbn [emit write_final final].
    apply read_write_eq, inside_path_of. by rewrite has_sep_app, Hsep.
  - cbv zeta. intros Hwf Hnew Hchunks.
    unfold Test.process_act. cbn [emit final]. rewrite Hnew.
    destruct (Structured.chunks_to_process _ _) as [|c cs]; [done|].
    set (tp := OsPath.join Test.temp_output_path_base [act_name]) in *.
    set (fp := OsPath.join Test.final_output_path _) in *.
    set (st1 := process_chunks Test.pol extract tp (c :: cs) _).
    cbn [temp emit].
    assert ((name, Json v) ∈ temp st1) as Hin1
      by (by apply process_chunks_keeps).
    assert (Fs.wf tp (temp st1)) as Hwf1 by (by apply process_chunks_wf).
    destruct (Test.combine tp (temp st1) _ Test.acc0 []) as [[a log]|] eqn:Hrun;
      [|done].
    destruct (clause_combine_contains tp (temp st1) _ (Fs.path_of tp name) v
                _ _ _ _ Hrun)
      as (members & items & before & after & -> & Hit & Hall).
    { by eapply temp_json_files_elem. }
    { by apply read_elem. }
    intros Hst'. exists members, items, before, after,
      (Test.final_act_name a), (Test.final_act_number a).
    split; [done|]. split; [done|]. intros Hne.
    destruct (Test.all_clauses a) as [|x l] eqn:Hm.
    { symmetry in Hall. apply app_eq_nil in Hall as [_ [? _]%app_eq_nil]. done. }
    injection Hst' as <-. cbn [emit write_final final].
    unfold Test.final_json_data. rewrite Hm, Hall.
    apply read_write_eq, inside_path_of. by rewrite has_sep_app, Hsep.
Qed.

Lemma leftover_witness :
  (("old.json", Json (JArr [JStr "OLD"])) ∈ temp Scenario.with_leftover)
  ∧ ∃ items before after,
      PyJson.iterate (JArr [JStr "OLD"]) = Some items
      ∧ (items ≠ [] →
         Fs.read TestV1.final_output_path (final Scenario.leftover_result)
           (OsPath.join TestV1.final_output_path ["ActX" +:+ ".json"])
         = Some (Json (JArr (before ++ items ++ after)))).
Proof.
  assert (("old.json", Json (JArr [JStr "OLD"])) ∈ temp Scenario.with_leftover)
    as Hin by (simpl; left).
  split; [exact Hin|].
  apply (proj1 (leftover_checkpoints_are_assembled Scenario.ls_json
                  Scenario.always_json "ActX" Scenario.with_leftover
                  Scenario.leftover_result "old.json" (JArr [JStr "OLD"])
                  Hin eq_refl eq_refl)).
  - apply (bool_decide_unpack _). by vm_compute.
  - reflexivity.
  - intros H. vm_compute in H. discriminate H.
  - by vm_compute.
Defined.

(** ** Order of assembly *)

Section Sorting.

Lemma sorted_perm l1 l2 : l1 ≡ₚ l2 → Py.sorted l1 = Py.sorted l2.
Proof.
  intros H. unfold Py.sorted.
  apply (Sorted_unique String.le); try apply Sorted_merge_sort; try apply _.
  by rewrite !merge_sort_Permutation.
Qed.

Lemma sorted_Sorted l : Sorted String.le (Py.sorted l).
Proof. apply Sorted_merge_sort; apply _. Qed.

Lemma StronglySorted_filter_bool (f : string → bool) l :
  StronglySorted String.le l → StronglySorted String.le (filter f l).
Proof.
  induction 1 as [|x l Hl IH Hx]; [constructor|].
  rewrite filter_cons. destruct (decide (f x)); [|done].
  constructor; [done|]. apply Forall_forall. intros y [_ Hy]%list_elem_of_filter.
  by eapply Forall_forall in Hx.
Qed.

(** Sorting and then keeping the PDF files is keeping them and then
    sorting. *)
Lemma filter_sorted (f : string → bool) l :
  filter f (Py.sorted l) = Py.sorted (filter f l).
Proof.
  apply (Sorted_unique String.le); try apply _.
  - apply StronglySorted_Sorted, StronglySorted_filter_bool.
    apply StronglySorted_merge_sort; apply _.
  - apply sorted_Sorted.
  - unfold Py.sorted. by rewrite !merge_sort_Permutation.
Qed.

End Sorting.

Lemma text_chunks_canonical ls nested_act_path :
  ExtractScript.chunks_to_process ls nested_act_path
  = canonical_order ls nested_act_path.
Proof.
  unfold ExtractScript.chunks_to_process, canonical_order, canonical_group.
  cbn [mbind list_bind]. rewrite app_nil_r.
  by destruct (ls _), (ls _); rewrite ?filter_sorted.
Qed.

Section OrderInvariance.
Context (tp : string).

Lemma final_text_parts_perm chunks (temp1 temp2 : Fs.dir string) :
  Fs.wf tp temp1 → temp1 ≡ₚ temp2 →
  ExtractScript.final_text_parts tp chunks temp1
  = ExtractScript.final_text_parts tp chunks temp2.
Proof.
  intros Hwf Hp. unfold ExtractScript.final_text_parts.
  apply list_omap_ext, Forall2_same_length_lookup_2; [done|].
  intros i c1 c2 H1 H2. assert (c1 = c2) as -> by congruence.
  by rewrite (read_perm tp temp1 temp2).
Qed.

Lemma temp_json_files_perm {C} (temp1 temp2 : Fs.dir C) :
  temp1 ≡ₚ temp2 →
  Structured.temp_json_files tp temp1 = Structured.temp_json_files tp temp2.
Proof.
  intros Hp. unfold Structured.temp_json_files, Fs.listdir.
  apply sorted_perm. by rewrite Hp.
Qed.

Lemma clause_combine_ext (temp1 temp2 : Fs.dir jfile) files :
  (∀ p, Fs.read tp temp1 p = Fs.read tp temp2 p) → ∀ a log,
  Test.combine tp temp1 files a log = Test.combine tp temp2 files a log.
Proof.
  intros Hr. induction files as [|p files IH]; intros a log; simpl; [done|].
  rewrite <- Hr. destruct (Fs.read tp temp1 p) as [[v|]|]; [|by apply IH..].
  by destruct (Test.combine_step v a).
Qed.

Lemma grouped_combine_ext (temp1 temp2 : Fs.dir jfile) files :
  (∀ p, Fs.read tp temp1 p = Fs.read tp temp2 p) → ∀ m log,
  TestV1.combine tp temp1 files m log = TestV1.combine tp temp2 files m log.
Proof.
  intros Hr. induction files as [|p files IH]; intros m log; simpl; [done|].
  rewrite <- Hr. destruct (Fs.read tp temp1 p) as [[v|]|]; [|by apply IH..].
  by destruct (PyJson.iterate v).
Qed.

Lemma grouped_combine_payloads (temp : Fs.dir jfile) files : ∀ m log m' log',
  TestV1.combine tp temp files m log = Ok (m', log') →
  m' = m ++ grouped_payloads tp temp files.
Proof.
  unfold grouped_payloads, decoded.
  induction files as [|p files IH]; intros m log m' log'; simpl.
  - intros [= <- <-]. by rewrite app_nil_r.
  - destruct (Fs.read tp temp p) as [[v|]|]; [|by apply IH..].
    destruct (PyJson.iterate v) as [more|] eqn:Hv; [|done].
    intros ->%IH. csimpl. by rewrite Hv, app_assoc.
Qed.

Lemma clause_combine_payloads (temp : Fs.dir jfile) files : ∀ a log a' log',
  Test.combine tp temp files a log = Ok (a', log') →
  Test.all_clauses a' = Test.all_clauses a ++ clause_payloads tp temp files.
Proof.
  unfold clause_payloads, decoded.
  induction files as [|p files IH]; intros a log a' log'; simpl.
  - intros [= <- <-]. by rewrite app_nil_r.
  - destruct (Fs.read tp temp p) as [[v|]|]; [|by apply IH..].
    destruct (Test.combine_step v a) as [a1|] eqn:Hstep; [|done].
    apply clause_combine_step_spec in Hstep as (members & more & -> & Hm & Hc & _).
    intros ->%IH. csimpl. by rewrite Hc, Hm, app_assoc.
Qed.

End OrderInvariance.

(** *** Checkpoints written in any order *)

Section Written.
Context {C : Type} (tp : string).
Implicit Types (ws : list (string * C)) (d : Fs.dir C).

Lemma paths_app d1 d2 : Fs.paths tp (d1 ++ d2) = Fs.paths tp d1 ++ Fs.paths tp d2.
Proof. unfold Fs.paths, Fs.listdir. by rewrite !fmap_app. Qed.

Lemma writes_fresh ws : ∀ d,
  Forall (inside tp) ws.*1 → NoDup ws.*1 →
  (∀ p, p ∈ ws.*1 → p ∉ Fs.paths tp d) →
  fold_left (λ d w, Fs.write tp d w.1 w.2) ws d
  = d ++ ((λ w, (OsPath.basename w.1, w.2)) <$> ws).
Proof.
  induction ws as [|[p c] ws IH]; intros d Hin Hnd Hfresh; csimpl.
  - by rewrite app_nil_r.
  - csimpl in *. apply Forall_cons in Hin as [Hp Hin].
    apply NoDup_cons in Hnd as [Hpws Hnd].
    rewrite write_fresh.
    2:{ apply path_exists_false, Hfresh. left. }
    rewrite IH; [by rewrite <- app_assoc|done|done|].
    intros q Hq. rewrite paths_app. unfold Fs.paths at 2. csimpl.
    unfold inside in Hp. rewrite Hp.
    rewrite elem_of_app, list_elem_of_singleton.
    intros [?| ->]; [|done]. eapply Hfresh; [|done]. by right.
Qed.

Lemma checkpoints_written_spec ws :
  Forall (inside tp) ws.*1 → NoDup ws.*1 →
  checkpoints_written tp ws = (λ w, (OsPath.basename w.1, w.2)) <$> ws.
Proof.
  intros Hin Hnd. unfold checkpoints_written.
  rewrite writes_fresh; [done..|]. intros p _. apply not_elem_of_nil.
Qed.

Lemma checkpoints_written_paths ws :
  Forall (inside tp) ws.*1 → NoDup ws.*1 →
  Fs.paths tp (checkpoints_written tp ws) = ws.*1.
Proof.
  intros Hin Hnd. rewrite checkpoints_written_spec by done.
  unfold Fs.paths, Fs.listdir. rewrite <- !list_fmap_compose.
  apply list_fmap_ext. intros i [p c] Hi. simpl.
  eapply Forall_lookup_1 in Hin; [exact Hin|].
  by rewrite list_lookup_fmap, Hi.
Qed.

(** Writing the same checkpoints in another order gives another listing
    of the same directory. *)
Lemma checkpoints_written_perm ws1 ws2 :
  Forall (inside tp) ws1.*1 → NoDup ws1.*1 → ws1 ≡ₚ ws2 →
  Fs.wf tp (checkpoints_written tp ws1)
  ∧ checkpoints_written tp ws1 ≡ₚ checkpoints_written tp ws2.
Proof.
  intros Hin Hnd Hp. split.
  - unfold Fs.wf. by rewrite checkpoints_written_paths.
  - rewrite !checkpoints_written_spec; [by rewrite Hp|by rewrite <- Hp..|done|done].
Qed.

End Written.

(** C1, as the claim has it, fails in the structured modes: with initial
    chunk b.pdf and overlap chunk a.pdf, b is first in the chunk list and
    is processed first, but the artifact has the payload of a before that
    of b, the order of the checkpoint file names. *)
Lemma structured_order_is_not_chunk_order :
  Structured.chunks_to_process Scenario.ls_json "./ActX/ActX"
  = ["./ActX/ActX/Initial Chunk/b.pdf"; "./ActX/ActX/Overlap Chunk/a.pdf"]
  ∧ ∃ st',
      TestV1.process_act Scenario.ls_json Scenario.always_json "ActX"
        Scenario.empty_run = Ok st'
      ∧ extract_calls (trace st')
        = [Extract "./ActX/ActX/Initial Chunk/b.pdf";
           Extract "./ActX/ActX/Overlap Chunk/a.pdf"]
      ∧ final st' = [("ActX.json", Json (JArr [JStr "a"; JStr "b"]))].
Proof.
  split; [by vm_compute|]. eexists. split; [vm_compute; reflexivity|].
  by vm_compute.
Qed.

(** C1, amended. In all three scripts the assembled artifact is a function
    of the set of checkpoints: writing the same checkpoints in another
    order only changes the order in which the checkpoint directory lists
    them, and the artifact is the same for any two listings of the same
    directory. In text mode the payloads appear in the
    canonical chunk order (initial group, then overlap group, each in
    ascending order of file name). In the structured modes they appear in
    ascending order of the paths of the checkpoint files. *)
Theorem assembly_is_order_invariant (tp : string) :
  (∀ (C : Type) (writes1 writes2 : list (string * C)),
     Forall (inside tp) writes1.*1 → NoDup writes1.*1 →
     writes1 ≡ₚ writes2 →
     Fs.wf tp (checkpoints_written tp writes1)
     ∧ checkpoints_written tp writes1 ≡ₚ checkpoints_written tp writes2)
  ∧ (∀ (temp1 temp2 : Fs.dir string) chunks,
     Fs.wf tp temp1 → temp1 ≡ₚ temp2 →
     ExtractScript.final_text_parts tp chunks temp1
     = ExtractScript.final_text_parts tp chunks temp2)
  ∧ (∀ temp1 temp2 : Fs.dir jfile,
       Fs.wf tp temp1 → temp1 ≡ₚ temp2 →
       Test.combine tp temp1 (Structured.temp_json_files tp temp1) Test.acc0 []
       = Test.combine tp temp2 (Structured.temp_json_files tp temp2) Test.acc0 []
       ∧ TestV1.combine tp temp1 (Structured.temp_json_files tp temp1) [] []
         = TestV1.combine tp temp2 (Structured.temp_json_files tp temp2) [] [])
  ∧ (∀ ls nested_act_path (temp : Fs.dir string),
       let chunks := ExtractScript.chunks_to_process ls nested_act_path in
       chunks = canonical_order ls nested_act_path
       ∧ ExtractScript.final_text_parts tp chunks temp
         = chunk_text tp temp
             <$> present_chunks ExtractScript.pol tp temp
                   (canonical_order ls nested_act_path))
  ∧ (∀ temp : Fs.dir jfile,
       let files := Structured.temp_json_files tp temp in
       Sorted String.le files
       ∧ (∀ m log, TestV1.combine tp temp files [] [] = Ok (m, log) →
                   m = grouped_payloads tp temp files)
       ∧ (∀ a log, Test.combine tp temp files Test.acc0 [] = Ok (a, log) →
                   Test.all_clauses a = clause_payloads tp temp files)).
Proof.
  split; [|split; [|split; [|split]]].
  - intros C ws1 ws2. apply checkpoints_written_perm.
  - intros temp1 temp2 chunks. apply final_text_parts_perm.
  - intros temp1 temp2 Hwf Hp.
    rewrite <- (temp_json_files_perm tp temp1 temp2 Hp).
    split; [apply clause_combine_ext|apply grouped_combine_ext];
      intros p; by apply read_perm.
  - intros ls nested temp. cbv zeta. split; [apply text_chunks_canonical|].
    by rewrite final_text_parts_spec, text_chunks_canonical.
  - intros temp. cbv zeta. split; [apply sorted_Sorted|]. split.
    + intros m log H. by apply grouped_combine_payloads in H.
    + intros a log H. by apply clause_combine_payloads in H.
Qed.

Lemma assembly_is_order_invariant_witness :
  Fs.wf Scenario.temp_text Scenario.listed_ab
  ∧ Scenario.listed_ab ≡ₚ Scenario.listed_ba
  ∧ ExtractScript.final_text_parts Scenario.temp_text
      [Scenario.chunk_a; Scenario.chunk_b] Scenario.listed_ab
    = ExtractScript.final_text_parts Scenario.temp_text
        [Scenario.chunk_a; Scenario.chunk_b] Scenario.listed_ba.
Proof.
  assert (Fs.wf Scenario.temp_text Scenario.listed_ab) as Hwf.
  { apply (bool_decide_unpack _). by vm_compute. }
  assert (Scenario.listed_ab ≡ₚ Scenario.listed_ba) as Hp.
  { apply perm_swap. }
  split; [exact Hwf|]. split; [exact Hp|].
  exact (proj1 (proj2 (assembly_is_order_invariant Scenario.temp_text))
           Scenario.listed_ab Scenario.listed_ba
           [Scenario.chunk_a; Scenario.chunk_b] Hwf Hp).
Defined.

(** ** Resuming a run *)

Lemma events_since_trans {C} (st st1 st2 : state C) evs1 evs2 :
  trace st1 = trace st ++ evs1 → trace st2 = trace st1 ++ evs2 →
  events_since st st2 = events_since st st1 ++ events_since st1 st2.
Proof.
  intros H1 H2. rewrite (events_since_app st st1 evs1) by done.
  rewrite (events_since_app st1 st2 evs2) by done.
  apply events_since_app. by rewrite H2, H1, app_assoc.
Qed.

Section Resume.
Context {A C : Type} (pol : policy A C) (extract : service A) (tp : string).
Context (Hquiet : quiet pol) (Hretries : 0 < max_retries pol).
Context (Hsuffix : OsPath.has_sep (suffix pol) = false).
Implicit Types (st : state C) (c : string).

Lemma process_chunks_events_cons c chunks st :
  events_since st (process_chunks pol extract tp (c :: chunks) st)
  = events_since st (process_chunk pol extract tp c st)
    ++ events_since (process_chunk pol extract tp c st)
         (process_chunks pol extract tp chunks
            (process_chunk pol extract tp c st)).
Proof.
  rewrite process_chunks_cons.
  destruct (process_chunk_trace pol extract tp c st) as [evs1 H1].
  destruct (process_chunks_trace pol extract tp chunks
              (process_chunk pol extract tp c st)) as [evs2 H2].
  by eapply events_since_trans.
Qed.

Lemma elem_of_extract_calls (e : event) evs :
  e ∈ extract_calls evs ↔ e ∈ evs ∧ is_extract e = true.
Proof.
  unfold extract_calls. rewrite !list_elem_of_In, List.filter_In. done.
Qed.

Lemma elem_of_file_writes (e : event) evs :
  e ∈ file_writes evs ↔ e ∈ evs ∧ is_write e = true.
Proof.
  unfold file_writes. rewrite !list_elem_of_In, List.filter_In. done.
Qed.

(** The remote calls made for a chunk are calls on that chunk. *)
Lemma chunk_calls_own c c' st :
  Extract c' ∈ events_since st (process_chunk pol extract tp c st) → c' = c.
Proof.
  unfold process_chunk. destruct (Fs.path_exists _ _ _).
  - rewrite (events_since_app st _ [Print (SkippingChunk (OsPath.basename c))])
      by done.
    by intros [=]%list_elem_of_singleton.
  - rewrite (events_since_app st _ _ (attempts_trace pol extract tp c _ 0 st)).
    intros H. assert (Extract c' ∈ extract_calls
      (attempt_events pol extract tp c 0 (max_retries pol) (ncalls st))) as H'
      by (by apply elem_of_extract_calls).
    rewrite attempt_events_calls in H' by done.
    by apply elem_of_replicate in H' as [[= ->] _].
Qed.

(** A chunk is called exactly when its checkpoint is missing. *)
Lemma chunk_called_iff c st :
  Extract c ∈ events_since st (process_chunk pol extract tp c st)
  ↔ Fs.path_exists tp (temp st) (checkpoint_path pol tp c) = false.
Proof.
  unfold process_chunk. destruct (Fs.path_exists _ _ _).
  - rewrite (events_since_app st _ [Print (SkippingChunk (OsPath.basename c))])
      by done.
    split; [by intros [=]%list_elem_of_singleton|done].
  - rewrite (events_since_app st _ _ (attempts_trace pol extract tp c _ 0 st)).
    split; [done|]. intros _.
    destruct (max_retries pol) as [|r]; [lia|]. simpl. left.
Qed.

(** The checkpoint written for a chunk is its own, and it is there
    afterwards. *)
Lemma chunk_write_own c st p :
  WriteFile p ∈ events_since st (process_chunk pol extract tp c st) →
  p = checkpoint_path pol tp c
  ∧ Fs.path_exists tp (temp (process_chunk pol extract tp c st)) p = true.
Proof.
  unfold process_chunk. destruct (Fs.path_exists _ _ _).
  - rewrite (events_since_app st _ [Print (SkippingChunk (OsPath.basename c))])
      by done.
    by intros [=]%list_elem_of_singleton.
  - rewrite (events_since_app st _ _ (attempts_trace pol extract tp c _ 0 st)).
    intros H. assert (WriteFile p ∈ file_writes
      (attempt_events pol extract tp c 0 (max_retries pol) (ncalls st))) as H'
      by (by apply elem_of_file_writes).
    rewrite attempt_events_writes in H' by done.
    rewrite attempts_temp.
    destruct (first_success _ _ _ _) as [payload|]; [|by apply elem_of_nil in H'].
    apply list_elem_of_singleton in H' as [= ->]. split; [done|].
    apply path_exists_write_eq. by apply checkpoint_inside.
Qed.

(** A chunk leaves the checkpoints of the others alone. *)
Lemma chunk_keeps_others c st p :
  p ≠ checkpoint_path pol tp c →
  Fs.path_exists tp (temp (process_chunk pol extract tp c st)) p
  = Fs.path_exists tp (temp st) p.
Proof.
  intros Hne. unfold process_chunk.
  destruct (Fs.path_exists tp _ (checkpoint_path pol tp c)); [done|].
  rewrite attempts_temp. destruct (first_success _ _ _ _); [|done].
  apply path_exists_write_ne; [by apply checkpoint_inside|done].
Qed.

(** Checkpoints stay. *)
Lemma chunk_keeps_checkpoints c st p :
  Fs.path_exists tp (temp st) p = true →
  Fs.path_exists tp (temp (process_chunk pol extract tp c st)) p = true.
Proof.
  intros H. destruct (decide (p = checkpoint_path pol tp c)) as [->|Hne].
  - unfold process_chunk. by rewrite H.
  - by rewrite chunk_keeps_others.
Qed.

Lemma chunks_keep_checkpoints chunks : ∀ st p,
  Fs.path_exists tp (temp st) p = true →
  Fs.path_exists tp (temp (process_chunks pol extract tp chunks st)) p = true.
Proof.
  induction chunks as [|c chunks IH]; intros st p H; [done|].
  rewrite process_chunks_cons. by apply IH, chunk_keeps_checkpoints.
Qed.

Lemma chunks_calls_own chunks : ∀ st c,
  Extract c ∈ events_since st (process_chunks pol extract tp chunks st) →
  c ∈ chunks.
Proof.
  induction chunks as [|c0 chunks IH]; intros st c.
  - unfold events_since. simpl. rewrite drop_all. by intros ?%elem_of_nil.
  - rewrite process_chunks_events_cons, elem_of_app.
    intros [->%chunk_calls_own|H%IH]; [left|by right].
Qed.

Lemma chunks_write_own chunks : ∀ st p,
  WriteFile p ∈ events_since st (process_chunks pol extract tp chunks st) →
  Fs.path_exists tp (temp (process_chunks pol extract tp chunks st)) p = true.
Proof.
  induction chunks as [|c0 chunks IH]; intros st p.
  - unfold events_since. simpl. rewrite drop_all. by intros ?%elem_of_nil.
  - rewrite process_chunks_events_cons, elem_of_app, process_chunks_cons.
    intros [[_ H]%chunk_write_own|H%IH]; [|done].
    by apply chunks_keep_checkpoints.
Qed.

(** With distinct checkpoints, the chunks a run calls the service for are
    the chunks whose checkpoint is missing when it starts. *)
Lemma chunks_called_iff chunks : ∀ st c,
  NoDup (checkpoint_path pol tp <$> chunks) → c ∈ chunks →
  Extract c ∈ events_since st (process_chunks pol extract tp chunks st)
  ↔ Fs.path_exists tp (temp st) (checkpoint_path pol tp c) = false.
Proof.
  induction chunks as [|c0 chunks IH]; intros st c Hnd Hin.
  - by apply elem_of_nil in Hin.
  - csimpl in Hnd. apply NoDup_cons in Hnd as [Hc0 Hnd].
    rewrite process_chunks_events_cons, elem_of_app.
    apply elem_of_cons in Hin as [->|Hin].
    + rewrite chunk_called_iff. split; [|by left].
      intros [?|H%chunks_calls_own]; [done|]. destruct Hc0.
      by apply list_elem_of_fmap_2.
    + assert (checkpoint_path pol tp c ≠ checkpoint_path pol tp c0) as Hne.
      { intros E. destruct Hc0. rewrite <- E. by apply list_elem_of_fmap_2. }
      rewrite IH by done. rewrite chunk_keeps_others by done.
      split; [|by right]. intros [->%chunk_calls_own|?]; [done|done].
Qed.

End Resume.

(** C5, as the claim has it, fails when two chunks of an act have the same
    file name stem: the initial and the overlap group of "ActY" each hold
    a file a.pdf; in a run that starts without checkpoints the overlap
    chunk is skipped as already processed, though it was never extracted,
    and the checkpoint holds what the service returned for the initial
    chunk. *)
Lemma same_stem_chunk_is_skipped :
  let st' := ExtractScript.process_act Scenario.ls_same_stem Scenario.echo_path
               "ActY" Scenario.empty_run in
  ExtractScript.chunks_to_process Scenario.ls_same_stem
    "extraction-component/ActY/ActY"
  = ["extraction-component/ActY/ActY/Initial Chunk/a.pdf";
     "extraction-component/ActY/ActY/Overlap Chunk/a.pdf"]
  ∧ extract_calls (trace st')
    = [Extract "extraction-component/ActY/ActY/Initial Chunk/a.pdf"]
  ∧ Print (SkippingChunk "a.pdf") ∈ trace st'
  ∧ temp st'
    = [("a.txt", "extraction-component/ActY/ActY/Initial Chunk/a.pdf")].
Proof.
  cbv zeta. split; [by vm_compute|]. split; [by vm_compute|].
  split; [|by vm_compute]. vm_compute. do 7 right. left.
Qed.

(** C5, amended. In each of the three scripts the checkpoint of a chunk
    depends on the act's checkpoint directory and the stem of the chunk's
    file name only. When the chunks of an act have pairwise distinct
    stems, a run started from any checkpoint directory calls the
    service for exactly the chunks whose checkpoint is missing at the
    start; it calls it for no other path; a checkpoint that is present
    stays present; and a checkpoint written during the run is present at
    its end, so that the next run skips its chunk. *)
Theorem resume_skips_exactly_completed {A C} (pol : policy A C)
    (extract : service A) (tp : string) (chunks : list string) (st : state C) :
  script pol →
  NoDup ((λ c, OsPath.stem (OsPath.basename c)) <$> chunks) →
  let st' := process_chunks pol extract tp chunks st in
  (∀ c1 c2,
     OsPath.stem (OsPath.basename c1) = OsPath.stem (OsPath.basename c2) →
     checkpoint_path pol tp c1 = checkpoint_path pol tp c2)
  ∧ (∀ c, c ∈ chunks →
          Extract c ∈ events_since st st'
          ↔ Fs.path_exists tp (temp st) (checkpoint_path pol tp c) = false)
  ∧ (∀ c, Extract c ∈ events_since st st' → c ∈ chunks)
  ∧ (∀ p, Fs.path_exists tp (temp st) p = true →
          Fs.path_exists tp (temp st') p = true)
  ∧ (∀ p, WriteFile p ∈ events_since st st' →
          Fs.path_exists tp (temp st') p = true).
Proof.
  intros Hscript Hstems st'. subst st'.
  pose proof (script_quiet pol Hscript) as Hq.
  pose proof (script_suffix pol Hscript) as Hs.
  assert (0 < max_retries pol) as Hr
    by (rewrite (script_max_retries pol Hscript); lia).
  assert (NoDup (checkpoint_path pol tp <$> chunks)) as Hnd.
  { apply NoDup_fmap_2_strong; [|by apply NoDup_fmap_1 in Hstems].
    intros c1 c2 H1 H2 E. apply (checkpoint_path_inj pol tp) in E; [|done].
    by eapply (NoDup_fmap_elem_inj _ chunks). }
  split; [|split; [|split; [|split]]].
  - intros c1 c2 E. unfold checkpoint_path. by rewrite E.
  - intros c Hin. by apply chunks_called_iff.
  - intros c. by apply chunks_calls_own.
  - intros p. by apply chunks_keep_checkpoints.
  - intros p. by apply chunks_write_own.
Qed.

Lemma resume_witness :
  NoDup ((λ c, OsPath.stem (OsPath.basename c))
           <$> [Scenario.chunk_a; Scenario.chunk_b; Scenario.chunk_c])
  ∧ (Extract Scenario.chunk_b
       ∈ events_since Scenario.partial_text
           (process_chunks ExtractScript.pol Scenario.always_text
              Scenario.temp_text
              [Scenario.chunk_a; Scenario.chunk_b; Scenario.chunk_c]
              Scenario.partial_text)
     ↔ Fs.path_exists Scenario.temp_text (temp Scenario.partial_text)
         (checkpoint_path ExtractScript.pol Scenario.temp_text Scenario.chunk_b)
       = false).
Proof.
  assert (NoDup ((λ c, OsPath.stem (OsPath.basename c))
                   <$> [Scenario.chunk_a; Scenario.chunk_b; Scenario.chunk_c]))
    as Hnd.
  { apply (bool_decide_unpack _). by vm_compute. }
  split; [exact Hnd|].
  apply (resume_skips_exactly_completed ExtractScript.pol Scenario.always_text
           Scenario.temp_text
           [Scenario.chunk_a; Scenario.chunk_b; Scenario.chunk_c]
           Scenario.partial_text text_script Hnd).
  right. left.
Defined.

(* ================================================================= *)
(** * Further properties of the scripts *)

(** ** Cleaning the text of a response ([test.py]) *)

Section Strip.
Context (f : ascii → bool).

Lemma lstrip_by_head s c :
  head_char (PyStr.lstrip_by f s) = Some c → f c = false.
Proof.
  induction s as [|x s IH]; simpl; [done|].
  destruct (f x) eqn:E; [done|]. simpl. by intros [= <-].
Qed.

Lemma lstrip_by_all p s :
  all_chars f p = true → PyStr.lstrip_by f (p +:+ s) = PyStr.lstrip_by f s.
Proof.
  induction p as [|x p IH]; [done|]. rewrite append_cons. simpl.
  intros [-> Hp]%andb_true_iff. by apply IH.
Qed.

Lemma lstrip_by_all_nil p :
  all_chars f p = true → PyStr.lstrip_by f p = "".
Proof.
  induction p as [|x p IH]; [done|]. simpl.
  intros [-> Hp]%andb_true_iff. by apply IH.
Qed.

Lemma lstrip_by_id s :
  (∀ c, head_char s = Some c → f c = false) → PyStr.lstrip_by f s = s.
Proof. destruct s as [|x s]; [done|]. simpl. intros H. by rewrite H. Qed.

Lemma rstrip_by_nil s :
  PyStr.rstrip_by f s = "" ↔ all_chars f s = true.
Proof.
  induction s as [|x s IH]; simpl; [done|].
  destruct (PyStr.rstrip_by f s) eqn:E.
  - destruct IH as [IH _]. rewrite IH by done. rewrite andb_true_r.
    by destruct (f x).
  - split; [done|]. intros [_ H]%andb_true_iff.
    destruct IH as [_ IH]. by specialize (IH H).
Qed.

Lemma rstrip_by_last s c :
  last_char (PyStr.rstrip_by f s) = Some c → f c = false.
Proof.
  induction s as [|x s IH]; simpl; [done|].
  destruct (PyStr.rstrip_by f s) as [|y r] eqn:E.
  - destruct (f x) eqn:Ex; simpl; [done|]. by intros [= <-].
  - simpl. by destruct r.
Qed.

(** [rstrip] leaves the beginning of the string alone. *)
Lemma rstrip_by_head s c :
  head_char (PyStr.rstrip_by f s) = Some c → head_char s = Some c.
Proof.
  destruct s as [|x s]; simpl; [done|].
  destruct (PyStr.rstrip_by f s); [by destruct (f x)|done].
Qed.

Lemma rstrip_by_all s q :
  all_chars f q = true → PyStr.rstrip_by f (s +:+ q) = PyStr.rstrip_by f s.
Proof.
  intros Hq. induction s as [|x s IH].
  - rewrite append_nil_l. by apply rstrip_by_nil.
  - rewrite append_cons. simpl. by rewrite IH.
Qed.

Lemma rstrip_by_id s :
  (∀ c, last_char s = Some c → f c = false) → PyStr.rstrip_by f s = s.
Proof.
  induction s as [|x s IH]; [done|]. intros H. simpl.
  destruct s as [|y s].
  - simpl. by rewrite H.
  - rewrite IH; [done|]. intros c Hc. by apply H.
Qed.

End Strip.

(** X1. What [test.py] hands to [json.loads] never begins with a backtick
    or one of the letters j, s, o, n, and never ends with a backtick:
    [lstrip] takes its argument as a set of characters, so an answer
    "null" arrives as "ull". When the text of the response, without the
    white space around it, is [inner] between any run of those characters
    and any run of backticks, and [inner] neither begins with one of them
    nor ends with a backtick, what is decoded is [inner]. *)
Theorem clean_json_string_unwraps (text opening inner closing : string) :
  PyStr.strip text = opening +:+ inner +:+ closing →
  all_chars (PyStr.in_chars "```json") opening = true →
  all_chars (PyStr.in_chars "```") closing = true →
  (∀ c, head_char inner = Some c → PyStr.in_chars "```json" c = false) →
  (∀ c, last_char inner = Some c → PyStr.in_chars "```" c = false) →
  Genai.clean_json_string text = inner
  ∧ (∀ any c, head_char (Genai.clean_json_string any) = Some c →
              PyStr.in_chars "```json" c = false)
  ∧ (∀ any c, last_char (Genai.clean_json_string any) = Some c →
              PyStr.in_chars "```" c = false)
  ∧ Genai.clean_json_string "null" = "ull".
Proof.
  intros Hs Ho Hc Hh Hl. split; [|split; [|split]].
  - unfold Genai.clean_json_string, PyStr.lstrip, PyStr.rstrip. rewrite Hs.
    rewrite lstrip_by_all by done. destruct inner as [|x inner].
    + rewrite append_nil_l, lstrip_by_all_nil; [done|].
      clear -Hc. induction closing as [|y q IH]; [done|]. simpl in *.
      apply andb_true_iff in Hc as [Hy Hq]. rewrite (IH Hq), andb_true_r.
      unfold PyStr.in_chars in *. simpl in *.
      destruct (Ascii.eqb y "`"); done.
    + rewrite append_cons. rewrite lstrip_by_id.
      2:{ intros c [= <-]. by apply Hh. }
      rewrite <- append_cons, rstrip_by_all by done. by apply rstrip_by_id.
  - intros any c H. unfold Genai.clean_json_string, PyStr.rstrip in H.
    apply rstrip_by_head in H. by apply lstrip_by_head in H.
  - intros any c H. by apply rstrip_by_last in H.
  - reflexivity.
Qed.

Lemma clean_json_string_witness :
  PyStr.strip (" ```json" +:+ String "010" "{}" +:+ String "010" "``` ")
  = "```json" +:+ (String "010" "{}" +:+ String "010" "") +:+ "```"
  ∧ Genai.clean_json_string
      (" ```json" +:+ String "010" "{}" +:+ String "010" "``` ")
    = String "010" "{}" +:+ String "010" "".
Proof.
  split; [reflexivity|].
  apply (clean_json_string_unwraps
           (" ```json" +:+ String "010" "{}" +:+ String "010" "``` ")
           "```json" (String "010" "{}" +:+ String "010" "") "```").
  - reflexivity.
  - reflexivity.
  - reflexivity.
  - intros c [= <-]. reflexivity.
  - intros c [= <-]. reflexivity.
Defined.

(** ** The upload is released ([test.py], [test_v1.py]) *)

(** X2. [extract_structure_from_chunk] uploads the chunk once. When the
    upload returns, the uploaded file is deleted exactly once, as the last
    operation, whether the model call and the decoding return or raise;
    when the upload raises, nothing is deleted and its exception is the
    outcome. A value is returned only when upload, model call, decoding
    and deletion all returned, and an exception of the deletion replaces
    whatever the [try] body produced. *)
Theorem upload_is_always_deleted {handle : Type}
    (upload_file : string → outcome handle)
    (generate_content : handle → outcome string)
    (json_loads : string → outcome json)
    (delete_file : handle → outcome unit)
    (clean : string → string) (pdf_chunk_path : string) :
  let run :=
    Genai.with_upload upload_file generate_content json_loads delete_file
      clean pdf_chunk_path in
  Genai.uploads run.1 = [pdf_chunk_path]
  ∧ (∀ h, upload_file pdf_chunk_path = Returned h →
          Genai.deletes run.1 = [h] ∧ last run.1 = Some (Genai.Delete h))
  ∧ (∀ e, upload_file pdf_chunk_path = Raised e →
          Genai.deletes run.1 = [] ∧ run.2 = Raised e)
  ∧ (∀ v, run.2 = Returned v →
          ∃ h text,
            upload_file pdf_chunk_path = Returned h
            ∧ generate_content h = Returned text
            ∧ json_loads (clean text) = Returned v
            ∧ delete_file h = Returned tt)
  ∧ (∀ h e, upload_file pdf_chunk_path = Returned h →
            delete_file h = Raised e → run.2 = Raised e)
  ∧ Genai.extract_structure_from_chunk upload_file generate_content
      json_loads delete_file
    = Genai.with_upload upload_file generate_content json_loads delete_file
        Genai.clean_json_string
  ∧ Genai.extract_structure_from_chunk_v1 upload_file generate_content
      json_loads delete_file
    = Genai.with_upload upload_file generate_content json_loads delete_file
        id.
Proof.
  cbv zeta. unfold Genai.with_upload, Genai.answer.
  destruct (upload_file pdf_chunk_path) as [h|e] eqn:Hup; simpl.
  - split; [done|]. split; [by intros ? [= <-]|]. split; [done|].
    split; [|split; [|done]].
    + intros v Hv. destruct (delete_file h) as [[]|] eqn:Hdel; [|done].
      destruct (generate_content h) as [text|] eqn:Hgen; [|done].
      by exists h, text.
    + intros h' e [= <-] Hdel. by rewrite Hdel.
  - split; [done|]. split; [done|]. split; [by intros ? [= <-]|].
    split; [done|]. split; [done|done].
Qed.

Lemma upload_is_always_deleted_witness :
  Scenario.upload_ok "./ActX/ActX/Initial Chunk/b.pdf" = Returned "files/b.pdf"
  ∧ Genai.deletes
      (Genai.with_upload Scenario.upload_ok Scenario.generate_times_out
         Scenario.loads_null Scenario.delete_ok Genai.clean_json_string
         "./ActX/ActX/Initial Chunk/b.pdf").1
    = ["files/b.pdf"].
Proof.
  split; [reflexivity|].
  apply (proj1 (proj2 (upload_is_always_deleted Scenario.upload_ok
                         Scenario.generate_times_out Scenario.loads_null
                         Scenario.delete_ok Genai.clean_json_string
                         "./ActX/ActX/Initial Chunk/b.pdf"))).
  reflexivity.
Defined.

(** ** What counts as a rate-limit error ([test.py], [test_v1.py]) *)

Lemma prefix_spec sub s :
  String.prefix sub s = true ↔ ∃ b, s = sub +:+ b.
Proof.
  revert s. induction sub as [|x sub IH]; intros s.
  - split; [intros _; by exists s|by destruct s].
  - destruct s as [|y s]; cbn [String.prefix].
    + split; [done|]. by intros [b [=]].
    + destruct (Ascii.ascii_dec x y) as [->|Hne].
      * rewrite IH. split; intros [b Hb]; exists b.
        -- by rewrite append_cons, Hb.
        -- rewrite append_cons in Hb. by injection Hb.
      * split; [done|]. intros [b Hb]. rewrite append_cons in Hb.
        injection Hb as ? ?. by destruct Hne.
Qed.

(** [sub in s] holds exactly when [sub] occurs somewhere in [s]. *)
Lemma contains_spec sub s :
  Py.contains sub s = true ↔ ∃ a b, s = a +:+ sub +:+ b.
Proof.
  induction s as [|y s IH]; cbn [Py.contains].
  - rewrite orb_false_r, prefix_spec. split.
    + intros [b Hb]. by exists "", b.
    + intros (a & b & H). destruct a as [|? a]; [by exists b|].
      by rewrite append_cons in H.
  - rewrite orb_true_iff, prefix_spec, IH. split.
    + intros [[b Hb]|(a & b & ->)]; [by exists "", b|].
      by exists (String y a), b.
    + intros (a & b & H). destruct a as [|x a].
      * left. by exists b.
      * right. rewrite append_cons in H. injection H as -> ->. by exists a, b.
Qed.

(** X3. The structured scripts take an error for a rate-limit error exactly
    when its message has "429" or "ResourceExhausted" somewhere in it: the
    test is a substring test on [str(e)], so the digits 429 inside any
    longer number or text give the seventy-second cooldown, and the
    upper-case status name alone does not. *)
Theorem rate_limit_is_a_substring_test (e : string) :
  (Structured.is_rate_limit e = true
   ↔ (∃ a b, e = a +:+ "429" +:+ b)
     ∨ (∃ a b, e = a +:+ "ResourceExhausted" +:+ b))
  ∧ (∀ a b n chunk_basename,
       sleeps (after_error Test.pol n chunk_basename (a +:+ "429" +:+ b))
       = [Test.RETRY_DELAY_SECONDS]
       ∧ sleeps (after_error TestV1.pol n chunk_basename (a +:+ "429" +:+ b))
         = [TestV1.RETRY_DELAY_SECONDS])
  ∧ (Structured.is_rate_limit e = false →
     ∀ n chunk_basename,
       sleeps (after_error Test.pol n chunk_basename e) = [10%Z]
       ∧ sleeps (after_error TestV1.pol n chunk_basename e) = [10%Z])
  ∧ Structured.is_rate_limit "RESOURCE_EXHAUSTED: quota" = false.
Proof.
  split; [|split; [|split]].
  - unfold Structured.is_rate_limit. by rewrite orb_true_iff, !contains_spec.
  - intros a b n cb.
    assert (Structured.is_rate_limit (a +:+ "429" +:+ b) = true) as H.
    { unfold Structured.is_rate_limit. apply orb_true_iff. left.
      apply contains_spec. by exists a, b. }
    simpl. by rewrite H.
  - intros H n cb. simpl. by rewrite H.
  - reflexivity.
Qed.

(** ** Pacing and number of remote calls (the chunk loops) *)

Lemma script_paced {A C} (pol : policy A C) :
  script pol →
  ∃ cool pause, paced pol cool pause ∧ (5 ≤ pause)%Z ∧ ∀ e, (5 ≤ cool e)%Z.
Proof.
  intros [].
  - exists (λ _, 10%Z), 65%Z. split; [exact paced_text|]. split; [lia|].
    intros _. lia.
  - exists classified_cooldown, 5%Z. split; [exact paced_clause|].
    split; [lia|]. intros e. unfold classified_cooldown.
    destruct (Structured.is_rate_limit e); lia.
  - exists classified_cooldown, 5%Z. split; [exact paced_grouped|].
    split; [lia|]. intros e. unfold classified_cooldown.
    destruct (Structured.is_rate_limit e); lia.
Qed.

Lemma timeline_app evs1 evs2 :
  timeline (evs1 ++ evs2) = timeline evs1 ++ timeline evs2.
Proof. apply List.filter_app. Qed.

Lemma paced_calls_app calls1 calls2 :
  paced_calls (calls1 ++ calls2) = paced_calls calls1 ++ paced_calls calls2.
Proof. unfold paced_calls. apply bind_app. Qed.

Lemma retry_timeline_paced c cool pause fails succeeded :
  retry_timeline c cool pause fails succeeded
  = paced_calls (((λ e, (c, cool e)) <$> fails)
                 ++ if succeeded then [(c, pause)] else []).
Proof.
  unfold retry_timeline. rewrite paced_calls_app. f_equal.
  - unfold paced_calls. induction fails as [|e fails IH]; [done|].
    csimpl. by rewrite IH.
  - by destruct succeeded.
Qed.

Section Pacing.
Context {A C : Type} (pol : policy A C) (extract : service A) (tp : string).
Context (cool : string → Z) (pause : Z).
Context (Hpaced : paced pol cool pause) (Hretries : max_retries pol = 3).
Context (Hpause : (5 ≤ pause)%Z) (Hcool : ∀ e, (5 ≤ cool e)%Z).

Lemma chunk_is_paced c (st : state C) :
  let st' := process_chunk pol extract tp c st in
  ∃ calls,
    timeline (events_since st st') = paced_calls calls
    ∧ Forall (λ call, call.1 = c ∧ (5 ≤ call.2)%Z) calls
    ∧ length calls ≤ 3
    ∧ ncalls st' = ncalls st + length calls.
Proof.
  cbv zeta. unfold process_chunk. destruct (Fs.path_exists _ _ _).
  - exists []. rewrite (events_since_app st _
                         [Print (SkippingChunk (OsPath.basename c))]) by done.
    simpl. repeat split; [constructor|lia|lia].
  - rewrite (events_since_app st _ _ (attempts_trace pol extract tp c _ 0 st)).
    rewrite (attempt_events_timeline pol extract tp c cool pause Hpaced).
    rewrite retry_timeline_paced, attempts_ncalls, Hretries.
    pose proof (leading_failures_length extract c 3 (ncalls st)) as Hlen.
    set (fails := leading_failures extract c (ncalls st) 3) in *.
    eexists. split; [done|]. split; [|split].
    + apply Forall_app. split.
      * apply Forall_fmap, Forall_forall. intros e _. simpl. by split.
      * case_bool_decide; [|constructor]. by repeat constructor.
    + rewrite length_app, length_fmap. case_bool_decide; cbn [length]; lia.
    + rewrite length_app, length_fmap. case_bool_decide; cbn [length]; lia.
Qed.

Lemma chunks_are_paced chunks : ∀ st : state C,
  let st' := process_chunks pol extract tp chunks st in
  ∃ calls,
    timeline (events_since st st') = paced_calls calls
    ∧ Forall (λ call, call.1 ∈ chunks ∧ (5 ≤ call.2)%Z) calls
    ∧ length calls ≤ 3 * length chunks
    ∧ ncalls st' = ncalls st + length calls.
Proof.
  induction chunks as [|c chunks IH]; intros st; cbv zeta.
  - exists []. unfold events_since. simpl. rewrite drop_all.
    repeat split; [constructor|lia|lia].
  - rewrite process_chunks_events_cons, process_chunks_cons, timeline_app.
    destruct (chunk_is_paced c st) as (calls1 & -> & H1 & L1 & N1).
    destruct (IH (process_chunk pol extract tp c st))
      as (calls2 & -> & H2 & L2 & N2).
    exists (calls1 ++ calls2). rewrite paced_calls_app.
    split; [done|]. split; [|split].
    + apply Forall_app. split.
      * eapply Forall_impl; [exact H1|]. intros call [-> ?]. split; [left|done].
      * eapply Forall_impl; [exact H2|]. intros call [? ?].
        split; [by right|done].
    + rewrite length_app. simpl. lia.
    + rewrite N2, N1, length_app. lia.
Qed.

End Pacing.

(** X4. In each of the three scripts the chunk loop never calls the
    service twice in a row: every remote call, failed or not, is followed
    by a sleep of at least five seconds before the next call. The calls are
    made on chunks of the list only, there are at most three per chunk,
    and the loop counts each of them. *)
Theorem every_call_is_followed_by_a_sleep {A C} (pol : policy A C)
    (extract : service A) (tp : string) (chunks : list string) (st : state C) :
  script pol →
  let st' := process_chunks pol extract tp chunks st in
  ∃ calls : list (string * Z),
    timeline (events_since st st') = paced_calls calls
    ∧ Forall (λ call, call.1 ∈ chunks ∧ (5 ≤ call.2)%Z) calls
    ∧ length calls ≤ 3 * length chunks
    ∧ ncalls st' = ncalls st + length calls.
Proof.
  intros Hscript.
  destruct (script_paced pol Hscript) as (cool & pause & Hp & ? & ?).
  by apply (chunks_are_paced pol extract tp cool pause Hp
              (script_max_retries pol Hscript)).
Qed.

Lemma every_call_is_followed_by_a_sleep_witness :
  ∃ calls : list (string * Z),
    timeline
      (events_since Scenario.empty_run
         (process_chunks ExtractScript.pol Scenario.rate_limited_once
            Scenario.temp_text [Scenario.chunk_a] Scenario.empty_run))
    = paced_calls calls
    ∧ Forall (λ call, call.1 ∈ [Scenario.chunk_a] ∧ (5 ≤ call.2)%Z) calls
    ∧ length calls ≤ 3 * length [Scenario.chunk_a]
    ∧ ncalls (process_chunks ExtractScript.pol Scenario.rate_limited_once
                Scenario.temp_text [Scenario.chunk_a] Scenario.empty_run)
      = ncalls (@Scenario.empty_run string) + length calls.
Proof.
  exact (every_call_is_followed_by_a_sleep ExtractScript.pol
           Scenario.rate_limited_once Scenario.temp_text [Scenario.chunk_a]
           Scenario.empty_run text_script).
Defined.

(** ** A chunk that succeeds after failed calls *)

Lemma failures_then_success {A} (extract : service A) c payload :
  ∀ (errs : list string) remaining n,
  length errs < remaining →
  (∀ i e, errs !! i = Some e → extract (n + i) c = Raised e) →
  extract (n + length errs) c = Returned payload →
  leading_failures extract c n remaining = errs
  ∧ first_success extract c n remaining = Some payload.
Proof.
  induction errs as [|e errs IH]; intros remaining n Hlen Herrs Hok;
    (destruct remaining as [|r]; [simpl in Hlen; lia|]); simpl in *.
  - rewrite Nat.add_0_r in Hok. by rewrite Hok.
  - pose proof (Herrs 0 e eq_refl) as H0. rewrite Nat.add_0_r in H0.
    rewrite H0. destruct (IH r (S n)) as [-> ->]; [lia | | |done].
    + intros i e' Hi. rewrite <- (Herrs (S i) e' Hi). f_equal. lia.
    + rewrite <- Hok. f_equal. lia.
Qed.



(** ** What an act of the structured scripts does to the two folders *)

Lemma artifact_name_sep_free act_name ext :
  OsPath.has_sep act_name = false → OsPath.has_sep ext = false →
  OsPath.has_sep (act_name +:+ ext) = false.
Proof. intros H1 H2. by rewrite has_sep_app, H1, H2. Qed.

Lemma artifact_basename d act_name ext :
  OsPath.has_sep act_name = false → OsPath.has_sep ext = false →
  OsPath.basename (OsPath.join d [act_name +:+ ext]) = act_name +:+ ext.
Proof.
  intros H1 H2. apply (basename_join2 d). by apply artifact_name_sep_free.
Qed.

Lemma artifact_inside d act_name ext :
  OsPath.has_sep act_name = false → OsPath.has_sep ext = false →
  inside d (OsPath.join d [act_name +:+ ext]).
Proof.
  intros H1 H2. apply (inside_path_of d). by apply artifact_name_sep_free.
Qed.

Lemma clause_act_folders ls extract act_name (st st' : state jfile) :
  OsPath.has_sep act_name = false →
  Test.process_act ls extract act_name st = Ok st' →
  (∃ added, temp st' = temp st ++ added)
  ∧ (final st' = final st
     ∨ Fs.path_exists Test.final_output_path (final st)
         (OsPath.join Test.final_output_path [act_name +:+ ".json"]) = false
       ∧ ∃ a, Test.all_clauses a ≠ []
              ∧ final st'
                = final st
                  ++ [(act_name +:+ ".json", Json (Test.final_json_data a))]).
Proof.
  intros Hsep. unfold Test.process_act. cbn [final emit].
  destruct (Fs.path_exists _ _ _) eqn:Hfinal.
  { intros [= <-]. split; [exists []; by rewrite app_nil_r | by left]. }
  destruct (Structured.chunks_to_process _ _) as [|c chunks].
  { intros [= <-]. split; [exists []; by rewrite app_nil_r | by left]. }
  set (st1 := process_chunks _ _ _ _ _).
  assert (final st1 = final st) as Hf
    by (unfold st1; by rewrite process_chunks_final).
  assert (∃ added, temp st1 = temp st ++ added) as Ht.
  { destruct (process_chunks_temp_prefix Test.pol extract
                (OsPath.join Test.temp_output_path_base [act_name])
                (c :: chunks)
                (emit [Print (FoundChunks (length (c :: chunks)) act_name)]
                   (emit [Print (ProcessingAct act_name)] st)))
      as [added Hadded].
    exists added. exact Hadded. }
  clearbody st1. cbn [temp emit].
  destruct (Test.combine _ _ _ _ _) as [[a log]|e]; [|done].
  destruct (Test.all_clauses a) as [|x xs] eqn:Hclauses.
  - intros [= <-]. cbn [temp final emit]. split; [done | by left].
  - intros [= <-]. cbn [temp final emit write_final]. rewrite Hf.
    split; [done|]. right. split; [done|].
    exists a. split; [by rewrite Hclauses|].
    rewrite write_fresh by done. do 3 f_equal. by apply artifact_basename.
Qed.

Lemma grouped_act_folders ls extract act_name (st st' : state jfile) :
  OsPath.has_sep act_name = false →
  TestV1.process_act ls extract act_name st = Ok st' →
  (∃ added, temp st' = temp st ++ added)
  ∧ (final st' = final st
     ∨ Fs.path_exists TestV1.final_output_path (final st)
         (OsPath.join TestV1.final_output_path [act_name +:+ ".json"]) = false
       ∧ ∃ master_clause_list, master_clause_list ≠ []
              ∧ final st'
                = final st
                  ++ [(act_name +:+ ".json", Json (JArr master_clause_list))]).
Proof.
  intros Hsep. unfold TestV1.process_act. cbn [final emit].
  destruct (Fs.path_exists _ _ _) eqn:Hfinal.
  { intros [= <-]. split; [exists []; by rewrite app_nil_r | by left]. }
  destruct (Structured.chunks_to_process _ _) as [|c chunks].
  { intros [= <-]. split; [exists []; by rewrite app_nil_r | by left]. }
  set (st1 := process_chunks _ _ _ _ _).
  assert (final st1 = final st) as Hf
    by (unfold st1; by rewrite process_chunks_final).
  assert (∃ added, temp st1 = temp st ++ added) as Ht.
  { destruct (process_chunks_temp_prefix TestV1.pol extract
                (OsPath.join TestV1.temp_output_path_base [act_name])
                (c :: chunks)
                (emit [Print (FoundChunks (length (c :: chunks)) act_name)]
                   (emit [Print (ProcessingAct act_name)] st)))
      as [added Hadded].
    exists added. exact Hadded. }
  clearbody st1. cbn [temp emit].
  destruct (TestV1.combine _ _ _ _ _) as [[[|x xs] log]|e]; [| |done].
  - intros [= <-]. cbn [temp final emit]. split; [done | by left].
  - intros [= <-]. cbn [temp final emit write_final]. rewrite Hf.
    split; [done|]. right. split; [done|].
    exists (x :: xs). split; [done|].
    rewrite write_fresh by done. do 3 f_equal. by apply artifact_basename.
Qed.

Lemma path_exists_appended {C} d (fs : Fs.dir C) name c :
  OsPath.has_sep name = false →
  Fs.path_exists d (fs ++ [(name, c)]) (OsPath.join d [name]) = true.
Proof.
  intros Hsep. apply path_exists_true. unfold Fs.paths, Fs.listdir.
  rewrite !fmap_app. apply elem_of_app. right. by left.
Qed.

(** X6. In the two structured scripts an act that completes never changes
    or removes a file: the checkpoints and the artifacts that were there
    are kept, in place; checkpoints can only be added; at most one
    artifact is added, the one of the act, it is added only when the act
    had none, it never has an empty clause list, and once it is there a
    later run of the act, whatever the chunk folders and the service then
    are, makes no call and writes nothing. The name of the act is an entry
    of a directory listing, so it holds no separator. *)
Theorem structured_artifact_is_written_once (ls : listing)
    (extract : service json) (act_name : string) (st : state jfile) :
  OsPath.has_sep act_name = false →
  (∀ st', Test.process_act ls extract act_name st = Ok st' →
     (∃ added, temp st' = temp st ++ added)
     ∧ (final st' = final st
        ∨ Fs.path_exists Test.final_output_path (final st)
            (OsPath.join Test.final_output_path [act_name +:+ ".json"]) = false
          ∧ (∃ a, Test.all_clauses a ≠ []
               ∧ final st'
                 = final st
                   ++ [(act_name +:+ ".json", Json (Test.final_json_data a))])
          ∧ ∀ ls' extract',
              Test.process_act ls' extract' act_name st'
              = Ok (emit [Print (ProcessingAct act_name); Print FinalExists]
                      st')))
  ∧ (∀ st', TestV1.process_act ls extract act_name st = Ok st' →
     (∃ added, temp st' = temp st ++ added)
     ∧ (final st' = final st
        ∨ Fs.path_exists TestV1.final_output_path (final st)
            (OsPath.join TestV1.final_output_path [act_name +:+ ".json"])
          = false
          ∧ (∃ master_clause_list, master_clause_list ≠ []
               ∧ final st'
                 = final st
                   ++ [(act_name +:+ ".json", Json (JArr master_clause_list))])
          ∧ ∀ ls' extract',
              TestV1.process_act ls' extract' act_name st'
              = Ok (emit [Print (ProcessingAct act_name); Print FinalExists]
                      st'))).
Proof.
  intros Hsep. split; intros st' Hrun.
  - destruct (clause_act_folders ls extract act_name st st' Hsep Hrun)
      as [Htemp [Hsame|(Hnew & a & Ha & Hfinal)]]; (split; [done|]);
      [by left|right].
    split; [done|]. split; [by exists a|]. intros ls' extract'.
    apply clause_final_exists. rewrite Hfinal.
    by apply path_exists_appended, artifact_name_sep_free.
  - destruct (grouped_act_folders ls extract act_name st st' Hsep Hrun)
      as [Htemp [Hsame|(Hnew & l & Hl & Hfinal)]]; (split; [done|]);
      [by left|right].
    split; [done|]. split; [by exists l|]. intros ls' extract'.
    apply grouped_final_exists. rewrite Hfinal.
    by apply path_exists_appended, artifact_name_sep_free.
Qed.

Lemma structured_artifact_witness :
  OsPath.has_sep "ActX" = false
  ∧ (∃ added,
        temp Scenario.leftover_result = temp Scenario.with_leftover ++ added)
  ∧ (final Scenario.leftover_result = final Scenario.with_leftover
     ∨ Fs.path_exists TestV1.final_output_path (final Scenario.with_leftover)
         (OsPath.join TestV1.final_output_path ["ActX" +:+ ".json"]) = false
       ∧ (∃ master_clause_list, master_clause_list ≠ []
            ∧ final Scenario.leftover_result
              = final Scenario.with_leftover
                ++ [("ActX" +:+ ".json", Json (JArr master_clause_list))])
       ∧ ∀ ls' extract',
           TestV1.process_act ls' extract' "ActX" Scenario.leftover_result
           = Ok (emit [Print (ProcessingAct "ActX"); Print FinalExists]
                   Scenario.leftover_result)).
Proof.
  split; [reflexivity|].
  apply (proj2 (structured_artifact_is_written_once Scenario.ls_json
                  Scenario.always_json "ActX" Scenario.with_leftover eq_refl)
           Scenario.leftover_result).
  by vm_compute.
Defined.

(** ** An act of the text script whose chunks all have a checkpoint *)

Lemma overwrite_same {C} d (fs : Fs.dir C) p c :
  Fs.read d fs p = Some c → Fs.overwrite d fs p c = fs.
Proof.
  induction fs as [|[name c0] fs IH]; simpl; [done|].
  destruct (String.eqb _ _); [by intros [= ->]|]. intros H. by rewrite IH.
Qed.

Lemma write_twice {C} d (fs : Fs.dir C) p c :
  inside d p → Fs.write d (Fs.write d fs p c) p c = Fs.write d fs p c.
Proof.
  intros Hin. unfold Fs.write at 1.
  rewrite path_exists_write_eq by done.
  by apply overwrite_same, read_write_eq.
Qed.

Lemma timeline_skips chunks :
  timeline ((λ c, Print (SkippingChunk (OsPath.basename c))) <$> chunks) = [].
Proof. by induction chunks. Qed.

Lemma process_chunks_all_hits {A C} (pol : policy A C) extract tp chunks :
  ∀ st : state C,
  Forall (λ c, Fs.path_exists tp (temp st) (checkpoint_path pol tp c) = true)
    chunks →
  let st' := process_chunks pol extract tp chunks st in
  temp st' = temp st ∧ final st' = final st ∧ ncalls st' = ncalls st
  ∧ trace st'
    = trace st
      ++ ((λ c, Print (SkippingChunk (OsPath.basename c))) <$> chunks).
Proof.
  induction chunks as [|c chunks IH]; intros st Hall; cbv zeta.
  - simpl. by rewrite app_nil_r.
  - apply Forall_cons in Hall as [Hc Hall].
    rewrite process_chunks_cons, process_chunk_hit by done.
    destruct (IH (emit [Print (SkippingChunk (OsPath.basename c))] st))
      as (-> & -> & -> & ->); [done|].
    cbn [temp final ncalls trace emit]. csimpl. by rewrite <- app_assoc.
Qed.

Lemma present_chunks_all {A C} (pol : policy A C) tp (t : Fs.dir C) chunks :
  Forall (λ c, Fs.path_exists tp t (checkpoint_path pol tp c) = true) chunks →
  present_chunks pol tp t chunks = chunks.
Proof.
  unfold present_chunks. induction 1 as [|c chunks Hc _ IH]; simpl; [done|].
  by rewrite Hc, IH.
Qed.

Lemma text_before_combining_all_hits ls extract act_name (st : state string) :
  let tp := OsPath.join ExtractScript.temp_output_path_base [act_name] in
  let chunks :=
    ExtractScript.chunks_to_process ls
      (OsPath.join ExtractScript.TOP_LEVEL_FOLDER [act_name; act_name]) in
  let st1 := text_before_combining ls extract act_name st in
  Forall (λ c, Fs.path_exists tp (temp st)
                 (checkpoint_path ExtractScript.pol tp c) = true) chunks →
  temp st1 = temp st ∧ ncalls st1 = ncalls st
  ∧ ∃ evs, trace st1 = trace st ++ evs ∧ timeline evs = [].
Proof.
  cbv zeta. unfold text_before_combining.
  destruct (ExtractScript.chunks_to_process _ _) as [|c chunks]; intros Hall.
  - cbn [temp ncalls trace emit]. split; [done|]. split; [done|].
    eexists. by rewrite <- app_assoc.
  - destruct (process_chunks_all_hits ExtractScript.pol extract
                (OsPath.join ExtractScript.temp_output_path_base [act_name])
                (c :: chunks)
                (emit [Print (FoundChunks (length (c :: chunks)) act_name)]
                   (emit [Print (ProcessingAct act_name)] st)) Hall)
      as (Ht & _ & Hn & Htr).
    cbn [temp ncalls trace emit] in *. rewrite Ht, Hn, Htr.
    split; [done|]. split; [done|].
    exists ([Print (ProcessingAct act_name);
             Print (FoundChunks (length (c :: chunks)) act_name)]
            ++ ((λ c, Print (SkippingChunk (OsPath.basename c)))
                  <$> (c :: chunks))
            ++ [Print (Combining act_name)]).
    split; [by rewrite <- !app_assoc|].
    by rewrite !timeline_app, timeline_skips.
Qed.

(** X7. Text script: when every chunk of an act has its checkpoint, the
    act is put together again without the service: no call, no sleep, the
    checkpoint folder is left as it is, and the artifact is written from
    the checkpoints of all the chunks in chunk order, whether it was there
    or not. Doing it a second time changes neither folder. *)
Theorem complete_text_act_needs_no_call (ls : listing)
    (extract extract' : service string) (act_name : string)
    (st : state string) :
  let tp := OsPath.join ExtractScript.temp_output_path_base [act_name] in
  let chunks :=
    ExtractScript.chunks_to_process ls
      (OsPath.join ExtractScript.TOP_LEVEL_FOLDER [act_name; act_name]) in
  let final_act_path :=
    OsPath.join ExtractScript.final_output_path [act_name +:+ ".txt"] in
  let st' := ExtractScript.process_act ls extract act_name st in
  let st'' := ExtractScript.process_act ls extract' act_name st' in
  OsPath.has_sep act_name = false →
  chunks ≠ [] →
  (∀ c, c ∈ chunks →
     Fs.path_exists tp (temp st) (checkpoint_path ExtractScript.pol tp c)
     = true) →
  timeline (events_since st st') = []
  ∧ ncalls st' = ncalls st
  ∧ temp st' = temp st
  ∧ final st'
    = Fs.write ExtractScript.final_output_path (final st) final_act_path
        (Py.join blank_line (chunk_text tp (temp st) <$> chunks))
  ∧ temp st'' = temp st'
  ∧ final st'' = final st'.
Proof.
  cbv zeta. intros Hsep Hne Hall.
  assert (∀ ex (s : state string),
    temp s = temp st →
    let s' := ExtractScript.process_act ls ex act_name s in
    timeline (events_since s s') = []
    ∧ ncalls s' = ncalls s
    ∧ temp s' = temp s
    ∧ final s'
      = Fs.write ExtractScript.final_output_path (final s)
          (OsPath.join ExtractScript.final_output_path [act_name +:+ ".txt"])
          (Py.join blank_line
             (chunk_text (OsPath.join ExtractScript.temp_output_path_base
                            [act_name]) (temp st)
                <$> ExtractScript.chunks_to_process ls
                      (OsPath.join ExtractScript.TOP_LEVEL_FOLDER
                         [act_name; act_name])))) as Hone.
  { intros ex s Hs. cbv zeta.
    pose proof (text_process_act_unfold ls ex act_name s) as Hrun.
    pose proof (text_before_combining_final ls ex act_name s) as Hfinal.
    pose proof (text_before_combining_all_hits ls ex act_name s) as Hhits.
    cbv zeta in Hrun, Hhits.
    set (tp := OsPath.join ExtractScript.temp_output_path_base [act_name]) in *.
    set (chunks := ExtractScript.chunks_to_process ls _) in *.
    set (fp := OsPath.join ExtractScript.final_output_path _) in *.
    set (s1 := text_before_combining ls ex act_name s) in *.
    destruct Hhits as (Ht & Hn & evs & Htr & Hquiet).
    { rewrite Hs. by apply Forall_forall. }
    rewrite Hrun, Ht, Hs, present_chunks_all by by apply Forall_forall.
    destruct chunks as [|c chunks]; [done|].
    cbn [fmap list_fmap].
    rewrite (events_since_app s _ (evs ++ [WriteFile fp; Print (Saved fp)])).
    - rewrite timeline_app, Hquiet.
      cbn [temp final ncalls emit write_final]. by rewrite Hfinal, Ht, Hn.
    - cbn [trace emit write_final]. rewrite Htr. by rewrite <- !app_assoc. }
  destruct (Hone extract st eq_refl) as (H1 & H2 & H3 & H4).
  destruct (Hone extract' _ H3) as (_ & _ & H5 & H6).
  repeat split; try done.
  rewrite H6, H4. apply write_twice. by apply artifact_inside.
Qed.

Lemma complete_text_act_witness :
  OsPath.has_sep "ActX" = false
  ∧ ncalls (ExtractScript.process_act Scenario.ls_text Scenario.never_text
              "ActX"
              (ExtractScript.process_act Scenario.ls_text Scenario.always_text
                 "ActX" Scenario.empty_run))
    = ncalls (ExtractScript.process_act Scenario.ls_text Scenario.always_text
                "ActX" Scenario.empty_run).
Proof.
  split; [reflexivity|].
  apply (complete_text_act_needs_no_call Scenario.ls_text Scenario.never_text
           Scenario.never_text "ActX"
           (ExtractScript.process_act Scenario.ls_text Scenario.always_text
              "ActX" Scenario.empty_run) eq_refl).
  - by vm_compute.
  - intros c Hc. vm_compute in Hc.
    repeat (apply elem_of_cons in Hc as [->|Hc]; [by vm_compute|]).
    by apply elem_of_nil in Hc.
Defined.

(** ** The chunk list of the structured scripts *)

Lemma compare_app_prefix (a x y : string) :
  String.compare (a +:+ x) (a +:+ y) = String.compare x y.
Proof.
  induction a as [|c a IH]; [done|].
  rewrite !append_cons. cbn [String.compare].
  unfold Ascii.compare. by rewrite N.compare_refl.
Qed.

Lemma le_app_prefix (a x y : string) :
  String.le (a +:+ x) (a +:+ y) ↔ String.le x y.
Proof. unfold String.le, String.leb. by rewrite compare_app_prefix. Qed.

Lemma append_nil_r (a : string) : a +:+ "" = a.
Proof. induction a as [|c a IH]; [done|]. by rewrite append_cons, IH. Qed.

(** Joining a directory with names that hold no separator puts the same
    prefix before each of them: the directory, followed by a separator
    unless it is empty or ends with one. *)
Lemma join2_prefix (d : string) :
  ∃ r, ∀ name, OsPath.has_sep name = false →
               OsPath.join2 d name = d +:+ r +:+ name.
Proof.
  unfold OsPath.join2.
  destruct (String.eqb d "" || Py.endswith d "/") eqn:E;
    [exists "" | exists "/"]; intros name Hname;
    (destruct (Py.startswith name "/") eqn:Hs;
       [apply startswith_sep_has_sep in Hs; congruence|]);
    by rewrite ?append_nil_l.
Qed.

Lemma initial_before_overlap (x y : string) :
  String.le ("Initial Chunk" +:+ x) ("Overlap Chunk" +:+ y).
Proof. by rewrite !append_cons. Qed.

Lemma sorted_two_groups (p1 p2 : string) (l1 l2 : list string) :
  (∀ x y, String.le (p1 +:+ x) (p2 +:+ y)) →
  Py.sorted (((λ f, p1 +:+ f) <$> l1) ++ ((λ f, p2 +:+ f) <$> l2))
  = ((λ f, p1 +:+ f) <$> Py.sorted l1) ++ ((λ f, p2 +:+ f) <$> Py.sorted l2).
Proof.
  intros Hcross. symmetry.
  apply (Sorted_unique String.le); try apply _.
  - apply StronglySorted_Sorted, StronglySorted_app. split; [|split].
    + intros x1 x2 (y1 & -> & _)%list_elem_of_fmap
        (y2 & -> & _)%list_elem_of_fmap.
      apply Hcross.
    + apply (StronglySorted_fmap _ String.le).
      * intros x y. by apply le_app_prefix.
      * apply StronglySorted_merge_sort; apply _.
    + apply (StronglySorted_fmap _ String.le).
      * intros x y. by apply le_app_prefix.
      * apply StronglySorted_merge_sort; apply _.
  - apply sorted_Sorted.
  - unfold Py.sorted. by rewrite !merge_sort_Permutation.
Qed.

Lemma fmap_join2_prefix d r (names : list string) :
  (∀ name, OsPath.has_sep name = false →
           OsPath.join2 d name = d +:+ r +:+ name) →
  Forall (λ f, OsPath.has_sep f = false) names →
  OsPath.join2 d <$> names = (λ f, (d +:+ r) +:+ f) <$> names.
Proof.
  intros Hr Hall. apply list_eq_Forall2, Forall2_fmap, Forall_Forall2_diag.
  eapply Forall_impl; [exact Hall|]. intros f Hf. simpl.
  by rewrite Hr, app_assoc_string.
Qed.

Lemma sep_free_filter (f : string → bool) (names : list string) :
  Forall (λ f, OsPath.has_sep f = false) names →
  Forall (λ f, OsPath.has_sep f = false) (filter f names).
Proof.
  rewrite !Forall_forall. intros H x [_ Hx]%list_elem_of_filter. by apply H.
Qed.

Lemma sep_free_sorted (names : list string) :
  Forall (λ f, OsPath.has_sep f = false) names →
  Forall (λ f, OsPath.has_sep f = false) (Py.sorted names).
Proof.
  intros H. unfold Py.sorted. by rewrite merge_sort_Permutation.
Qed.

(** X8. The structured scripts sort the full paths of all the PDF files of
    the two subfolders at once; the text script sorts the names of each
    subfolder and takes the initial chunks first. For names that hold no
    separator, as the entries of a directory listing are, both give the
    same chunk list: the canonical order. *)
Theorem structured_chunks_in_canonical_order (ls : listing)
    (nested_act_path : string) :
  (∀ sub names,
     sub ∈ ["Initial Chunk"; "Overlap Chunk"] →
     ls (OsPath.join nested_act_path [sub]) = Some names →
     Forall (λ f, OsPath.has_sep f = false) names) →
  Structured.chunks_to_process ls nested_act_path
  = canonical_order ls nested_act_path
  ∧ Structured.chunks_to_process ls nested_act_path
    = ExtractScript.chunks_to_process ls nested_act_path.
Proof.
  intros Hnames. rewrite text_chunks_canonical.
  enough (Structured.chunks_to_process ls nested_act_path
          = canonical_order ls nested_act_path) by done.
  unfold Structured.chunks_to_process, canonical_order, canonical_group.
  cbn [mbind list_bind OsPath.join fold_left]. rewrite app_nil_r.
  pose proof (Hnames "Initial Chunk") as HI.
  pose proof (Hnames "Overlap Chunk") as HO.
  cbn [OsPath.join fold_left] in HI, HO.
  destruct (join2_prefix nested_act_path) as [r Hr].
  rewrite (Hr "Initial Chunk"), (Hr "Overlap Chunk") in * by done.
  destruct (join2_prefix (nested_act_path +:+ r +:+ "Initial Chunk"))
    as [rI HrI].
  destruct (join2_prefix (nested_act_path +:+ r +:+ "Overlap Chunk"))
    as [rO HrO].
  assert (∀ x y,
    String.le (((nested_act_path +:+ r +:+ "Initial Chunk") +:+ rI) +:+ x)
              (((nested_act_path +:+ r +:+ "Overlap Chunk") +:+ rO) +:+ y))
    as Hcross.
  { intros x y. rewrite !app_assoc_string.
    apply le_app_prefix, le_app_prefix, initial_before_overlap. }
  destruct (ls (nested_act_path +:+ r +:+ "Initial Chunk")) as [namesI|];
    destruct (ls (nested_act_path +:+ r +:+ "Overlap Chunk")) as [namesO|];
    try (assert (Forall (λ f, OsPath.has_sep f = false)
                   (filter is_pdf namesI)) as HfI
           by (apply sep_free_filter, HI; [left|done]);
         pose proof (sep_free_sorted _ HfI) as HsI);
    try (assert (Forall (λ f, OsPath.has_sep f = false)
                   (filter is_pdf namesO)) as HfO
           by (apply sep_free_filter, HO; [right; left|done]);
         pose proof (sep_free_sorted _ HfO) as HsO).
  - rewrite !(fmap_join2_prefix _ _ _ HrI), !(fmap_join2_prefix _ _ _ HrO)
      by assumption.
    by apply sorted_two_groups.
  - rewrite !app_nil_r, !(fmap_join2_prefix _ _ _ HrI) by assumption.
    pose proof (sorted_two_groups _ _ (filter is_pdf namesI) [] Hcross) as H.
    by rewrite !app_nil_r in H.
  - rewrite !(fmap_join2_prefix _ _ _ HrO) by assumption.
    exact (sorted_two_groups _ _ [] (filter is_pdf namesO) Hcross).
  - done.
Qed.

Lemma structured_chunks_witness :
  Structured.chunks_to_process Scenario.ls_json "./ActX/ActX"
  = canonical_order Scenario.ls_json "./ActX/ActX"
  ∧ Structured.chunks_to_process Scenario.ls_json "./ActX/ActX"
    = ExtractScript.chunks_to_process Scenario.ls_json "./ActX/ActX".
Proof.
  apply (structured_chunks_in_canonical_order Scenario.ls_json "./ActX/ActX").
  intros sub names Hsub Hls.
  repeat (apply elem_of_cons in Hsub as [->|Hsub];
          [vm_compute in Hls; injection Hls as <-; by repeat constructor|]).
  by apply elem_of_nil in Hsub.
Defined.

(** ** Chunk discovery and the order of directory listings *)

Lemma group_listing_perm (ls1 ls2 : listing) (p : string) :
  option_Forall2 Permutation (ls1 p) (ls2 p) →
  ∀ g : string → string,
    match ls1 p with
    | Some names => g <$> filter is_pdf names
    | None => []
    end
    ≡ₚ match ls2 p with
       | Some names => g <$> filter is_pdf names
       | None => []
       end.
Proof.
  intros H g. destruct H as [names1 names2 H|]; [|done]. by rewrite H.
Qed.

Lemma structured_chunk_elem (ls : listing) nested_act_path c :
  c ∈ Structured.chunks_to_process ls nested_act_path ↔
  ∃ sub names f,
    sub ∈ ["Initial Chunk"; "Overlap Chunk"]
    ∧ ls (OsPath.join nested_act_path [sub]) = Some names
    ∧ f ∈ names ∧ is_pdf f = true
    ∧ c = OsPath.join nested_act_path [sub; f].
Proof.
  unfold Structured.chunks_to_process, Py.sorted.
  rewrite merge_sort_Permutation, list_elem_of_bind. split.
  - intros (sub & Hc & Hsub). destruct (ls _) as [names|] eqn:Hls.
    + apply list_elem_of_fmap in Hc as (f & -> & [Hf Hin]%list_elem_of_filter).
      exists sub, names, f. repeat split; try done. by apply Is_true_true.
    + by apply elem_of_nil in Hc.
  - intros (sub & names & f & Hsub & Hls & Hin & Hf & ->).
    exists sub. split; [|done]. rewrite Hls.
    apply list_elem_of_fmap. exists f. split; [done|].
    apply list_elem_of_filter. split; [by apply Is_true_true|done].
Qed.

(** X9. The chunk list does not depend on the order in which
    [os.listdir] gives the entries of the two subfolders: listings that
    agree up to order give the same chunk list, in the text script and in
    the structured scripts. The chunks are exactly the entries of the
    subfolders "Initial Chunk" and "Overlap Chunk" whose lower-cased name
    ends in ".pdf"; no other folder of the act is read. *)
Theorem chunk_list_ignores_listing_order (ls1 ls2 : listing)
    (nested_act_path : string) :
  (∀ sub, sub ∈ ["Initial Chunk"; "Overlap Chunk"] →
          option_Forall2 Permutation
            (ls1 (OsPath.join nested_act_path [sub]))
            (ls2 (OsPath.join nested_act_path [sub]))) →
  ExtractScript.chunks_to_process ls1 nested_act_path
  = ExtractScript.chunks_to_process ls2 nested_act_path
  ∧ Structured.chunks_to_process ls1 nested_act_path
    = Structured.chunks_to_process ls2 nested_act_path
  ∧ ∀ c, (c ∈ Structured.chunks_to_process ls1 nested_act_path
          ↔ c ∈ ExtractScript.chunks_to_process ls1 nested_act_path)
         ∧ (c ∈ Structured.chunks_to_process ls1 nested_act_path ↔
            ∃ sub names f,
              sub ∈ ["Initial Chunk"; "Overlap Chunk"]
              ∧ ls1 (OsPath.join nested_act_path [sub]) = Some names
              ∧ f ∈ names ∧ is_pdf f = true
              ∧ c = OsPath.join nested_act_path [sub; f]).
Proof.
  intros Hsame.
  pose proof (Hsame "Initial Chunk" ltac:(left)) as HI.
  pose proof (Hsame "Overlap Chunk" ltac:(right; left)) as HO.
  split; [|split].
  - rewrite !text_chunks_canonical. unfold canonical_order, canonical_group.
    f_equal.
    + destruct HI as [n1 n2 H|]; [|done]. f_equal. apply sorted_perm.
      by rewrite H.
    + destruct HO as [n1 n2 H|]; [|done]. f_equal. apply sorted_perm.
      by rewrite H.
  - unfold Structured.chunks_to_process. apply sorted_perm.
    cbn [mbind list_bind]. rewrite !app_nil_r.
    apply Permutation_app.
    + exact (group_listing_perm ls1 ls2 _ HI
               (λ f, OsPath.join nested_act_path ["Initial Chunk"; f])).
    + exact (group_listing_perm ls1 ls2 _ HO
               (λ f, OsPath.join nested_act_path ["Overlap Chunk"; f])).
  - intros c. split; [|apply structured_chunk_elem].
    rewrite text_chunks_canonical.
    unfold Structured.chunks_to_process, canonical_order, canonical_group,
      Py.sorted.
    rewrite merge_sort_Permutation. cbn [mbind list_bind].
    rewrite app_nil_r, !elem_of_app.
    destruct (ls1 (OsPath.join nested_act_path ["Initial Chunk"]));
      destruct (ls1 (OsPath.join nested_act_path ["Overlap Chunk"]));
      rewrite ?list_elem_of_fmap;
      setoid_rewrite merge_sort_Permutation || idtac; done.
Qed.

Lemma chunk_list_witness :
  ExtractScript.chunks_to_process Scenario.ls_text
    "extraction-component/ActX/ActX"
  = ExtractScript.chunks_to_process Scenario.ls_text_relisted
      "extraction-component/ActX/ActX".
Proof.
  apply (chunk_list_ignores_listing_order Scenario.ls_text
           Scenario.ls_text_relisted "extraction-component/ActX/ActX").
  intros sub Hsub.
  apply elem_of_cons in Hsub as [->|Hsub].
  - vm_compute. constructor.
    apply (Permutation_trans (l' := ["b.pdf"; "notes.txt"; "a.pdf"])).
    + apply perm_skip, perm_swap.
    + apply perm_swap.
  - apply elem_of_cons in Hsub as [->|Hsub]; [vm_compute; by constructor|].
    by apply elem_of_nil in Hsub.
Defined.

(** ** Payloads of an unexpected shape *)

Lemma endswith_app (a suf : string) : Py.endswith (a +:+ suf) suf = true.
Proof.
  induction a as [|c a IH].
  - rewrite append_nil_l.
    destruct suf; cbn [Py.endswith]; by rewrite String.eqb_refl.
  - rewrite append_cons. cbn [Py.endswith]. rewrite IH. apply orb_true_r.
Qed.

Lemma checkpoint_basename {A C} (pol : policy A C) tp c :
  OsPath.has_sep (suffix pol) = false →
  OsPath.basename (checkpoint_path pol tp c)
  = OsPath.stem (OsPath.basename c) +:+ suffix pol.
Proof.
  intros Hsuf. apply (basename_join2 tp).
  by rewrite has_sep_app, has_sep_stem, Hsuf by apply has_sep_basename.
Qed.

Lemma grouped_combine_uncaught tp (temp : Fs.dir jfile) files :
  ∀ m log e, TestV1.combine tp temp files m log = Uncaught e → e = TypeError.
Proof.
  induction files as [|p files IH]; intros m log e; simpl; [done|].
  destruct (Fs.read tp temp p) as [[v|]|]; eauto.
  destruct (PyJson.iterate v); eauto. by intros [= <-].
Qed.

(** A first chunk whose first call returns [v] leaves the checkpoint that
    holds [v] in the folder the combination lists. *)
Lemma first_payload_is_listed (pol : policy json jfile)
    (extract : service json) tp c rest (st : state jfile) payload :
  script pol → dump pol = Json → suffix pol = ".json" →
  Fs.wf tp (temp st) →
  Fs.path_exists tp (temp st) (checkpoint_path pol tp c) = false →
  extract (ncalls st) c = Returned payload →
  let st1 := process_chunks pol extract tp (c :: rest) st in
  Fs.path_of tp (OsPath.basename (checkpoint_path pol tp c))
    ∈ Structured.temp_json_files tp (temp st1)
  ∧ Fs.read tp (temp st1)
      (Fs.path_of tp (OsPath.basename (checkpoint_path pol tp c)))
    = Some (Json payload).
Proof.
  intros Hscript Hdump Hsuffix Hwf Hmiss Hok. cbv zeta.
  pose proof (script_suffix pol Hscript) as Hsuf.
  destruct (failures_then_success extract c payload [] 3 (ncalls st))
    as [_ Hsucc]; [simpl; lia|done|by rewrite Nat.add_0_r|].
  rewrite process_chunks_cons.
  assert ((OsPath.basename (checkpoint_path pol tp c), Json payload)
          ∈ temp (process_chunk pol extract tp c st)) as Hin.
  { rewrite process_chunk_miss, attempts_temp by done.
    rewrite (script_max_retries pol Hscript), Hsucc, write_fresh, Hdump by done.
    apply elem_of_app. right. by left. }
  eapply process_chunks_keeps in Hin.
  split.
  - eapply temp_json_files_elem; [exact Hin|].
    rewrite checkpoint_basename, Hsuffix by done. apply endswith_app.
  - apply read_elem; [|exact Hin].
    by apply process_chunks_wf, process_chunk_wf.
Qed.



(** ** The chunk loop in closed form *)

Lemma by_chunk_refused {A} (answer : string → outcome A) c e n remaining :
  answer c = Raised e →
  first_success (by_chunk answer) c n remaining = None
  ∧ length (leading_failures (by_chunk answer) c n remaining) = remaining.
Proof.
  intros He. revert n.
  induction remaining as [|r IH]; intros n;
    cbn [first_success leading_failures]; [done|].
  change (by_chunk answer n c) with (answer c). rewrite He.
  destruct (IH (S n)) as [H1 H2]. rewrite H1. cbn [length]. by rewrite H2.
Qed.

Lemma by_chunk_answered {A} (answer : string → outcome A) c payload n r :
  answer c = Returned payload →
  first_success (by_chunk answer) c n (S r) = Some payload
  ∧ leading_failures (by_chunk answer) c n (S r) = [].
Proof.
  intros He. cbn [first_success leading_failures].
  change (by_chunk answer n c) with (answer c). by rewrite He.
Qed.

Section ClosedForm.
Context {A C : Type} (pol : policy A C) (answer : string → outcome A).
Context (tp : string).
Context (Hretries : 0 < max_retries pol).
Context (Hsuffix : OsPath.has_sep (suffix pol) = false).

Lemma chunk_closed_form c (st : state C) :
  let st' := process_chunk pol (by_chunk answer) tp c st in
  temp st' = temp st ++ new_checkpoints pol tp answer (temp st) [c]
  ∧ ncalls st' = ncalls st + calls_needed pol tp answer (temp st) [c].
Proof.
  cbv zeta. unfold new_checkpoints, calls_needed. csimpl.
  destruct (Fs.path_exists tp (temp st) (checkpoint_path pol tp c)) eqn:E.
  - rewrite process_chunk_hit by done. cbn [temp ncalls emit].
    rewrite app_nil_r. split; [done|lia].
  - rewrite process_chunk_miss, attempts_temp, attempts_ncalls by done.
    destruct (max_retries pol) as [|r] eqn:Hmax; [lia|].
    destruct (answer c) as [payload|e] eqn:Hc.
    + destruct (by_chunk_answered answer c payload (ncalls st) r Hc)
        as [-> ->].
      rewrite write_fresh by done. split; [done|]. simpl. lia.
    + destruct (by_chunk_refused answer c e (ncalls st) (S r) Hc) as [-> ->].
      rewrite app_nil_r. split; [done|]. lia.
Qed.

Lemma new_checkpoints_ext (t1 t2 : Fs.dir C) chunks :
  (∀ c, c ∈ chunks →
        Fs.path_exists tp t1 (checkpoint_path pol tp c)
        = Fs.path_exists tp t2 (checkpoint_path pol tp c)) →
  new_checkpoints pol tp answer t1 chunks
  = new_checkpoints pol tp answer t2 chunks
  ∧ calls_needed pol tp answer t1 chunks
    = calls_needed pol tp answer t2 chunks.
Proof.
  unfold new_checkpoints, calls_needed.
  induction chunks as [|c chunks IH]; intros H; [done|]. csimpl.
  rewrite (H c) by left.
  destruct IH as [-> ->]; [intros c' Hc'; apply H; by right|]. done.
Qed.

Lemma closed_form_cons (t : Fs.dir C) c chunks :
  new_checkpoints pol tp answer t (c :: chunks)
  = new_checkpoints pol tp answer t [c]
    ++ new_checkpoints pol tp answer t chunks
  ∧ calls_needed pol tp answer t (c :: chunks)
    = calls_needed pol tp answer t [c] + calls_needed pol tp answer t chunks.
Proof.
  unfold new_checkpoints, calls_needed. csimpl.
  destruct (Fs.path_exists _ _ _); [|destruct (answer c)]; simpl;
    (split; [done|lia]).
Qed.

Lemma chunks_closed_form chunks : ∀ st : state C,
  NoDup (checkpoint_path pol tp <$> chunks) →
  let st' := process_chunks pol (by_chunk answer) tp chunks st in
  temp st' = temp st ++ new_checkpoints pol tp answer (temp st) chunks
  ∧ ncalls st' = ncalls st + calls_needed pol tp answer (temp st) chunks.
Proof.
  induction chunks as [|c chunks IH]; intros st Hnd; cbv zeta.
  - simpl. rewrite app_nil_r. split; [done|]. unfold calls_needed. simpl. lia.
  - rewrite fmap_cons in Hnd. apply NoDup_cons in Hnd as [Hc Hnd].
    rewrite process_chunks_cons.
    destruct (IH (process_chunk pol (by_chunk answer) tp c st) Hnd)
      as [-> ->].
    destruct (closed_form_cons (temp st) c chunks) as [-> ->].
    destruct (chunk_closed_form c st) as [Ht Hn].
    destruct (new_checkpoints_ext
                (temp (process_chunk pol (by_chunk answer) tp c st))
                (temp st) chunks) as [-> ->].
    { intros c' Hc'. apply chunk_keeps_others; try done.
      intros Heq. apply Hc. rewrite <- Heq. by apply list_elem_of_fmap_2. }
    rewrite Ht, Hn, <- app_assoc. split; [done|lia].
Qed.

End ClosedForm.


(** ** A first run of an act of the text script *)

Section FreshRun.
Context {A C : Type} (pol : policy A C) (answer : string → outcome A).
Context (tp : string).
Context (Hsuffix : OsPath.has_sep (suffix pol) = false).

Lemma new_checkpoints_fresh_cons c (l : list string) :
  new_checkpoints pol tp answer [] (c :: l)
  = match answer c with
    | Returned payload =>
        [(OsPath.basename (checkpoint_path pol tp c), dump pol payload)]
    | Raised _ => []
    end ++ new_checkpoints pol tp answer [] l.
Proof. unfold new_checkpoints. csimpl. by destruct (answer c). Qed.

Lemma fresh_read_other (l : list string) p :
  p ∉ checkpoint_path pol tp <$> l →
  Fs.read tp (new_checkpoints pol tp answer [] l) p = None.
Proof.
  induction l as [|c l IH]; [done|]. rewrite fmap_cons, not_elem_of_cons.
  intros [Hp Hl]. rewrite new_checkpoints_fresh_cons.
  destruct (answer c) as [payload|e]; cbn [app Fs.read]; [|by apply IH].
  rewrite (checkpoint_inside pol tp c Hsuffix).
  destruct (String.eqb_spec (checkpoint_path pol tp c) p); [done|by apply IH].
Qed.

Lemma fresh_read (l : list string) c :
  NoDup (checkpoint_path pol tp <$> l) → c ∈ l →
  Fs.read tp (new_checkpoints pol tp answer [] l) (checkpoint_path pol tp c)
  = match answer c with
    | Returned payload => Some (dump pol payload)
    | Raised _ => None
    end.
Proof.
  induction l as [|c0 l IH]; intros Hnd Hc; [by apply elem_of_nil in Hc|].
  rewrite fmap_cons in Hnd. apply NoDup_cons in Hnd as [Hc0 Hnd].
  rewrite new_checkpoints_fresh_cons.
  apply elem_of_cons in Hc as [->|Hc].
  - destruct (answer c0) as [payload|e]; cbn [app Fs.read].
    + by rewrite (checkpoint_inside pol tp c0 Hsuffix), String.eqb_refl.
    + by apply fresh_read_other.
  - assert (checkpoint_path pol tp c0 ≠ checkpoint_path pol tp c) as Hne.
    { intros Heq. apply Hc0. rewrite Heq. by apply list_elem_of_fmap_2. }
    destruct (answer c0) as [payload|e]; cbn [app Fs.read]; [|by apply IH].
    rewrite (checkpoint_inside pol tp c0 Hsuffix).
    destruct (String.eqb_spec (checkpoint_path pol tp c0)
                (checkpoint_path pol tp c)); [done|by apply IH].
Qed.

Lemma fresh_present (chunks l : list string) :
  NoDup (checkpoint_path pol tp <$> chunks) → l ⊆ chunks →
  present_chunks pol tp (new_checkpoints pol tp answer [] chunks) l
  = answered answer l.
Proof.
  intros Hnd. unfold present_chunks, answered.
  induction l as [|c l IH]; intros Hl; [done|]. cbn [List.filter].
  rewrite IH by (intros x Hx; apply Hl; by right).
  unfold Fs.path_exists. rewrite fresh_read by (try done; apply Hl; left).
  by destruct (answer c).
Qed.

End FreshRun.

Lemma fresh_texts (answer : string → outcome string) tp
    (chunks l : list string) :
  NoDup (checkpoint_path ExtractScript.pol tp <$> chunks) → l ⊆ chunks →
  chunk_text tp (new_checkpoints ExtractScript.pol tp answer [] chunks)
    <$> answered answer l
  = answers_read_back answer l.
Proof.
  intros Hnd. unfold answered, answers_read_back.
  induction l as [|c l IH]; intros Hl; [done|]. cbn [List.filter]. csimpl.
  assert (c ∈ chunks) as Hc by (apply Hl; left).
  pose proof (fresh_read ExtractScript.pol answer tp eq_refl chunks c Hnd Hc)
    as Hread.
  destruct (answer c) as [text|e] eqn:Ha.
  - csimpl. unfold chunk_text at 1. rewrite Hread.
    cbn [ExtractScript.pol dump id].
    f_equal. apply IH. intros x Hx. apply Hl. by right.
  - apply IH. intros x Hx. apply Hl. by right.
Qed.

Lemma calls_needed_fresh {A C} (pol : policy A C) tp
    (answer : string → outcome A) chunks :
  calls_needed pol tp answer [] chunks
  + max_retries pol * length (answered answer chunks)
  = length (answered answer chunks) + max_retries pol * length chunks.
Proof.
  unfold calls_needed, answered.
  induction chunks as [|c chunks IH]; [simpl; lia|]. csimpl.
  cbn [List.filter Fs.path_exists Fs.read] in *.
  destruct (answer c); cbn [length]; rewrite ?Nat.mul_succ_r; lia.
Qed.

Lemma text_before_combining_fresh (ls : listing)
    (answer : string → outcome string) (act_name : string)
    (st : state string) :
  let tp := OsPath.join ExtractScript.temp_output_path_base [act_name] in
  let chunks :=
    ExtractScript.chunks_to_process ls
      (OsPath.join ExtractScript.TOP_LEVEL_FOLDER [act_name; act_name]) in
  let st1 := text_before_combining ls (by_chunk answer) act_name st in
  temp st = [] →
  NoDup (checkpoint_path ExtractScript.pol tp <$> chunks) →
  temp st1 = new_checkpoints ExtractScript.pol tp answer [] chunks
  ∧ ncalls st1
    = ncalls st + calls_needed ExtractScript.pol tp answer [] chunks.
Proof.
  cbv zeta. intros Ht. unfold text_before_combining.
  destruct (ExtractScript.chunks_to_process _ _) as [|c cs]; intros Hnd.
  - cbn [temp ncalls emit]. rewrite Ht. split; [done|].
    change (calls_needed _ _ _ _ []) with 0. lia.
  - assert (0 < max_retries ExtractScript.pol) as Hpos
      by exact (Nat.lt_0_succ 2).
    destruct (chunks_closed_form ExtractScript.pol answer
                (OsPath.join ExtractScript.temp_output_path_base [act_name])
                Hpos eq_refl (c :: cs)
                (emit [Print (FoundChunks (length (c :: cs)) act_name)]
                   (emit [Print (ProcessingAct act_name)] st)) Hnd)
      as [H1 H2].
    cbn [temp ncalls emit] in *. by rewrite H1, H2, Ht.
Qed.




(** ** The checkpoint name of a PDF chunk *)

Lemma lower_app_inv (a b : string) : ∀ s,
  Py.lower s = a +:+ b →
  ∃ s1 s2, s = s1 +:+ s2 ∧ Py.lower s1 = a ∧ Py.lower s2 = b.
Proof.
  induction a as [|c a IH]; intros s H.
  - exists "", s. by rewrite append_nil_l in *.
  - rewrite append_cons in H. destruct s as [|c' s]; [done|].
    cbn [Py.lower] in H. injection H as Hc Hs.
    destruct (IH s Hs) as (s1 & s2 & -> & H1 & H2).
    exists (String c' s1), s2. rewrite append_cons. cbn [Py.lower].
    by rewrite Hc, H1.
Qed.

Lemma lower_ascii_dot c : Py.lower_ascii c = "."%char → c = "."%char.
Proof. destruct c as [[] [] [] [] [] [] [] []]; vm_compute; congruence. Qed.

(** A character whose lower-case form is [x] is none of the characters
    that [lower] leaves alone, [x] apart. *)
Lemma lower_ascii_ne c x y :
  Py.lower_ascii c = x → Py.lower_ascii y = y → x ≠ y → Ascii.eqb c y = false.
Proof. intros <- Hy Hx. apply Ascii.eqb_neq. intros ->. by apply Hx. Qed.

(** A name whose lower-cased form is ".pdf". *)
Lemma lower_pdf_inv ext :
  Py.lower ext = ".pdf" →
  ∃ c2 c3 c4,
    ext = String "." (String c2 (String c3 (String c4 "")))
    ∧ Ascii.eqb c2 "." = false ∧ Ascii.eqb c3 "." = false
    ∧ Ascii.eqb c4 "." = false
    ∧ OsPath.has_sep ext = false.
Proof.
  destruct ext as [|c1 [|c2 [|c3 [|c4 [|c5 ext]]]]]; try done.
  cbn [Py.lower]. intros [= H1 H2 H3 H4].
  apply lower_ascii_dot in H1 as ->. exists c2, c3, c4.
  split; [done|].
  assert (∀ c x y, Py.lower_ascii c = x → Py.lower_ascii y = y → x ≠ y →
                   Ascii.eqb c y = false) as Hne
    by exact lower_ascii_ne.
  rewrite (Hne c2 _ "."%char H2), (Hne c3 _ "."%char H3),
    (Hne c4 _ "."%char H4) by done.
  repeat split. cbn [OsPath.has_sep]. unfold OsPath.sep.
  by rewrite (Hne c2 _ "/"%char H2), (Hne c3 _ "/"%char H3),
    (Hne c4 _ "/"%char H4) by done.
Qed.

Lemma rfind_dot_extension base c2 c3 c4 :
  Ascii.eqb c2 "." = false → Ascii.eqb c3 "." = false →
  Ascii.eqb c4 "." = false →
  OsPath.rfind_dot
    (base +:+ String "." (String c2 (String c3 (String c4 ""))))
  = Some (String.length base).
Proof.
  intros H2 H3 H4. induction base as [|c base IH].
  - rewrite append_nil_l. cbn [OsPath.rfind_dot]. by rewrite H4, H3, H2.
  - rewrite append_cons. cbn [OsPath.rfind_dot String.length]. by rewrite IH.
Qed.

Lemma substring_app_prefix (a b : string) :
  String.substring 0 (String.length a) (a +:+ b) = a.
Proof.
  induction a as [|c a IH].
  - rewrite append_nil_l. by destruct b.
  - rewrite append_cons. cbn [String.length String.substring]. by rewrite IH.
Qed.

Lemma stem_pdf_name base ext :
  Py.lower ext = ".pdf" →
  OsPath.stem (base +:+ ext)
  = if String.eqb base "" then base +:+ ext else base.
Proof.
  intros (c2 & c3 & c4 & -> & H2 & H3 & H4 & _)%lower_pdf_inv.
  unfold OsPath.stem. rewrite rfind_dot_extension by done.
  rewrite append_length. cbn [String.length].
  destruct base as [|c base]; [done|].
  cbn [String.length String.eqb].
  replace (0 <? S (String.length base))%nat with true
    by (symmetry; apply Nat.ltb_lt; lia).
  replace (S (String.length base) <? S (String.length base) + 4 - 1)%nat
    with true by (symmetry; apply Nat.ltb_lt; lia).
  cbn [andb].
  exact (substring_app_prefix (String c base) _).
Qed.

(** X13. Every file the scripts take for a chunk has a name that ends in
    ".pdf" in some mix of upper and lower case, and its checkpoint is named
    after what comes before that extension, with the suffix of the mode;
    only a file named ".pdf" alone keeps its whole name. Two chunks whose
    names differ in the case of the extension only therefore share one
    checkpoint. *)
Theorem checkpoint_name_of_a_pdf {A C} (pol : policy A C)
    (temp_act_chunk_path subfolder_path filename : string) :
  OsPath.has_sep filename = false →
  is_pdf filename = true →
  ∃ base ext,
    filename = base +:+ ext
    ∧ Py.lower ext = ".pdf"
    ∧ checkpoint_path pol temp_act_chunk_path
        (OsPath.join subfolder_path [filename])
      = OsPath.join temp_act_chunk_path
          [(if String.eqb base "" then filename else base) +:+ suffix pol]
    ∧ ∀ ext', Py.lower ext' = ".pdf" → String.eqb base "" = false →
        checkpoint_path pol temp_act_chunk_path
          (OsPath.join subfolder_path [base +:+ ext'])
        = checkpoint_path pol temp_act_chunk_path
            (OsPath.join subfolder_path [filename]).
Proof.
  intros Hsep Hpdf. unfold is_pdf in Hpdf.
  apply endswith_split in Hpdf as [a Ha].
  apply lower_app_inv in Ha as (base & ext & -> & _ & Hext).
  rewrite has_sep_app in Hsep. apply orb_false_elim in Hsep as [Hbase _].
  exists base, ext. split; [done|]. split; [done|].
  assert (∀ e, Py.lower e = ".pdf" →
               checkpoint_path pol temp_act_chunk_path
                 (OsPath.join subfolder_path [base +:+ e])
               = OsPath.join temp_act_chunk_path
                   [(if String.eqb base "" then base +:+ e else base)
                    +:+ suffix pol]) as Hname.
  { intros e He. unfold checkpoint_path.
    change (OsPath.join subfolder_path [base +:+ e])
      with (OsPath.join2 subfolder_path (base +:+ e)).
    rewrite basename_join2, stem_pdf_name; [done|done|].
    apply lower_pdf_inv in He as (c2 & c3 & c4 & _ & _ & _ & _ & He).
    by rewrite has_sep_app, Hbase, He. }
  split; [by apply Hname|].
  intros ext' Hext' Hne. by rewrite !Hname, Hne.
Qed.

Lemma checkpoint_name_witness :
  OsPath.has_sep "Act 5.PDF" = false
  ∧ is_pdf "Act 5.PDF" = true
  ∧ ∃ base ext,
      "Act 5.PDF" = base +:+ ext
      ∧ Py.lower ext = ".pdf"
      ∧ checkpoint_path Test.pol Scenario.temp_json
          (OsPath.join "./ActX/ActX/Initial Chunk" ["Act 5.PDF"])
        = OsPath.join Scenario.temp_json
            [(if String.eqb base "" then "Act 5.PDF" else base)
             +:+ suffix Test.pol]
      ∧ ∀ ext', Py.lower ext' = ".pdf" → String.eqb base "" = false →
          checkpoint_path Test.pol Scenario.temp_json
            (OsPath.join "./ActX/ActX/Initial Chunk" [base +:+ ext'])
          = checkpoint_path Test.pol Scenario.temp_json
              (OsPath.join "./ActX/ActX/Initial Chunk" ["Act 5.PDF"]).
Proof.
  split; [reflexivity|]. split; [reflexivity|].
  exact (checkpoint_name_of_a_pdf Test.pol Scenario.temp_json
           "./ActX/ActX/Initial Chunk" "Act 5.PDF" eq_refl eq_refl).
Defined.

(** ** When an act of the structured scripts runs to its end *)

Lemma first_success_returned {A} (extract : service A) c v :
  ∀ remaining n,
  first_success extract c n remaining = Some v →
  ∃ i, extract i c = Returned v.
Proof.
  induction remaining as [|r IH]; intros n; cbn [first_success]; [done|].
  destruct (extract n c) as [payload|e] eqn:E; [|by apply IH].
  intros [= <-]. by exists n.
Qed.

Lemma elem_of_write {C} d (fs : Fs.dir C) p c e :
  e ∈ Fs.write d fs p c → e.2 = c ∨ e ∈ fs.
Proof.
  unfold Fs.write. destruct (Fs.path_exists d fs p).
  - induction fs as [|[name c0] fs IH]; cbn [Fs.overwrite]; [by right|].
    destruct (String.eqb _ _).
    + intros [->|H]%elem_of_cons; [by left|]. right. by right.
    + intros [->|H]%elem_of_cons; [right; by left|].
      destruct (IH H) as [?|?]; [by left|]. right. by right.
  - intros [H|H]%elem_of_app; [by right|].
    apply list_elem_of_singleton in H as ->. by left.
Qed.

(** What the chunk loop leaves in the checkpoint folder was there before
    or is the serialised payload of a call that returned. *)
Lemma process_chunks_payloads {A C} (pol : policy A C) (extract : service A)
    tp (P : C → Prop) chunks : ∀ st : state C,
  (∀ e, e ∈ temp st → P e.2) →
  (∀ n c v, extract n c = Returned v → P (dump pol v)) →
  ∀ e, e ∈ temp (process_chunks pol extract tp chunks st) → P e.2.
Proof.
  induction chunks as [|c chunks IH]; intros st Hold Hnew; [done|].
  rewrite process_chunks_cons. apply IH; [|done].
  intros e. unfold process_chunk. destruct (Fs.path_exists _ _ _).
  - apply Hold.
  - rewrite attempts_temp.
    destruct (first_success extract c (ncalls st) (max_retries pol))
      as [v|] eqn:Hv; [|apply Hold].
    intros [->|He]%elem_of_write; [|by apply Hold].
    apply first_success_returned in Hv as [i Hi]. by eapply Hnew.
Qed.

Lemma grouped_combine_ok tp (temp : Fs.dir jfile) files :
  (∀ e v, e ∈ temp → e.2 = Json v → is_Some (PyJson.iterate v)) →
  ∀ m log, ∃ m' log', TestV1.combine tp temp files m log = Ok (m', log').
Proof.
  intros Hshape. induction files as [|p files IH]; intros m log;
    cbn [TestV1.combine]; [by eauto|].
  destruct (Fs.read tp temp p) as [[v|]|] eqn:Hread; [|by apply IH..].
  apply read_Some in Hread as (name & Hin & _).
  destruct (Hshape _ v Hin eq_refl) as [more ->]. apply IH.
Qed.

Lemma clause_combine_ok tp (temp : Fs.dir jfile) files :
  (∀ e v, e ∈ temp → e.2 = Json v →
          ∃ members, v = JObj members ∧ is_Some (clauses_of members)) →
  ∀ a log, ∃ a' log', Test.combine tp temp files a log = Ok (a', log').
Proof.
  intros Hshape. induction files as [|p files IH]; intros a log;
    cbn [Test.combine]; [by eauto|].
  destruct (Fs.read tp temp p) as [[v|]|] eqn:Hread; [|by apply IH..].
  apply read_Some in Hread as (name & Hin & _).
  destruct (Hshape _ v Hin eq_refl) as (members & -> & more & Hmore).
  unfold Test.combine_step. unfold clauses_of in Hmore. rewrite Hmore.
  apply IH.
Qed.



(** ** Time spent waiting *)

Lemma sleeps_app evs1 evs2 : sleeps (evs1 ++ evs2) = sleeps evs1 ++ sleeps evs2.
Proof. unfold sleeps. apply omap_app. Qed.

Lemma sleeps_timeline evs : sleeps (timeline evs) = sleeps evs.
Proof.
  unfold sleeps, timeline.
  induction evs as [|[] evs IH]; cbn [List.filter]; csimpl;
    by rewrite ?IH.
Qed.

Lemma total_sleep_app evs1 evs2 :
  total_sleep (evs1 ++ evs2) = (total_sleep evs1 + total_sleep evs2)%Z.
Proof.
  unfold total_sleep. rewrite sleeps_app, foldr_app.
  induction (sleeps evs1) as [|s l IH]; simpl; [done|]. rewrite IH. lia.
Qed.

Lemma total_sleep_failures (c : string) (cool : string → Z) (cmax : Z)
    (fails : list string) :
  (∀ e, 0 ≤ cool e ≤ cmax)%Z →
  (0 ≤ total_sleep (fails ≫= λ e, [Extract c; Sleep (cool e)])
   ≤ cmax * Z.of_nat (length fails))%Z.
Proof.
  intros Hcool. induction fails as [|e fails IH].
  { change (total_sleep _) with 0%Z. cbn [length]. lia. }
  csimpl. change (total_sleep (Extract c :: Sleep (cool e) :: ?l))
    with (cool e + total_sleep l)%Z.
  specialize (Hcool e). cbn [length]. lia.
Qed.

Section Waiting.
Context {A C : Type} (pol : policy A C) (extract : service A) (tp : string).
Context (cool : string → Z) (pause cmax bound : Z).
Context (Hpaced : paced pol cool pause) (Hretries : max_retries pol = 3).
Context (Hcool : ∀ e, (0 ≤ cool e ≤ cmax)%Z) (Hpause : (0 ≤ pause)%Z).
Context (Hfail : (3 * cmax ≤ bound)%Z).
Context (Hsucc : (2 * cmax + pause ≤ bound)%Z).

Lemma chunk_waits c (st : state C) :
  (0 ≤ total_sleep (events_since st (process_chunk pol extract tp c st))
   ≤ bound)%Z.
Proof.
  assert (0 ≤ cmax)%Z as Hcmax by (specialize (Hcool ""); lia).
  unfold process_chunk. destruct (Fs.path_exists _ _ _).
  - rewrite (events_since_app st _
               [Print (SkippingChunk (OsPath.basename c))]) by done.
    change (total_sleep [Print _]) with 0%Z. lia.
  - rewrite (events_since_app st _ _ (attempts_trace pol extract tp c _ 0 st)).
    unfold total_sleep.
    rewrite <- sleeps_timeline,
      (attempt_events_timeline pol extract tp c cool pause Hpaced), Hretries.
    pose proof (leading_failures_length extract c 3 (ncalls st)) as Hlen.
    set (fails := leading_failures extract c (ncalls st) 3) in *.
    unfold retry_timeline.
    change (foldr Z.add 0%Z (sleeps ?l)) with (total_sleep l).
    rewrite total_sleep_app.
    pose proof (total_sleep_failures c cool cmax fails Hcool) as Hf.
    case_bool_decide.
    + change (total_sleep [Extract c; Sleep pause]) with (pause + 0)%Z. nia.
    + change (total_sleep []) with 0%Z. nia.
Qed.

Lemma chunks_wait chunks : ∀ st : state C,
  (0 ≤ total_sleep (events_since st (process_chunks pol extract tp chunks st))
   ≤ bound * Z.of_nat (length chunks))%Z.
Proof.
  induction chunks as [|c chunks IH]; intros st.
  - unfold events_since. simpl. rewrite drop_all.
    change (total_sleep []) with 0%Z. lia.
  - rewrite process_chunks_events_cons, total_sleep_app.
    pose proof (chunk_waits c st).
    specialize (IH (process_chunk pol extract tp c st)).
    cbn [length]. lia.
Qed.

End Waiting.

(** X15. The time a chunk loop spends sleeping is bounded by the number
    of chunks: at most 85 seconds per chunk in the text script (two
    failures at 10 seconds and a success at 65) and at most 210 seconds
    per chunk in the structured scripts (three rate-limit errors at 70
    seconds). *)
Theorem waiting_time_is_bounded (extract_text : service string)
    (extract_json : service json) (tp : string) (chunks : list string)
    (st : state string) (st_json : state jfile) :
  (0 ≤ total_sleep
         (events_since st
            (process_chunks ExtractScript.pol extract_text tp chunks st))
   ≤ 85 * Z.of_nat (length chunks))%Z
  ∧ (0 ≤ total_sleep
           (events_since st_json
              (process_chunks Test.pol extract_json tp chunks st_json))
     ≤ 210 * Z.of_nat (length chunks))%Z
  ∧ (0 ≤ total_sleep
           (events_since st_json
              (process_chunks TestV1.pol extract_json tp chunks st_json))
     ≤ 210 * Z.of_nat (length chunks))%Z.
Proof.
  assert (∀ e, (0 ≤ classified_cooldown e ≤ 70)%Z) as Hclass.
  { intros e. unfold classified_cooldown.
    destruct (Structured.is_rate_limit e); lia. }
  split; [|split].
  - apply (chunks_wait ExtractScript.pol extract_text tp (λ _, 10%Z) 65 10 85
             paced_text eq_refl); intros; lia.
  - apply (chunks_wait Test.pol extract_json tp classified_cooldown 5 70 210
             paced_clause eq_refl Hclass); lia.
  - apply (chunks_wait TestV1.pol extract_json tp classified_cooldown 5 70 210
             paced_grouped eq_refl Hclass); lia.
Qed.

(** The bound of the text script is reached by a chunk that fails twice
    and then succeeds. *)
Example waiting_bound_is_reached :
  total_sleep
    (events_since Scenario.empty_run
       (process_chunks ExtractScript.pol Scenario.fails_twice
          Scenario.temp_text [Scenario.chunk_a] Scenario.empty_run))
  = 85%Z.
Proof. by vm_compute. Qed.

(** ** A second run against the same answers *)

Section SecondRun.
Context {A C : Type} (pol : policy A C) (answer : string → outcome A).
Context (tp : string) (t0 : Fs.dir C).
Context (Hsuffix : OsPath.has_sep (suffix pol) = false).

Lemma new_checkpoints_cons c (l : list string) :
  new_checkpoints pol tp answer t0 (c :: l)
  = (if Fs.path_exists tp t0 (checkpoint_path pol tp c) then []
     else match answer c with
          | Returned payload =>
              [(OsPath.basename (checkpoint_path pol tp c), dump pol payload)]
          | Raised _ => []
          end)
    ++ new_checkpoints pol tp answer t0 l.
Proof.
  unfold new_checkpoints. csimpl.
  destruct (Fs.path_exists _ _ _); [done|]. by destruct (answer c).
Qed.

Lemma new_read_other (l : list string) p :
  p ∉ checkpoint_path pol tp <$> l →
  Fs.read tp (new_checkpoints pol tp answer t0 l) p = None.
Proof.
  induction l as [|c l IH]; [done|]. rewrite fmap_cons, not_elem_of_cons.
  intros [Hp Hl]. rewrite new_checkpoints_cons.
  destruct (Fs.path_exists _ _ _); [by apply IH|].
  destruct (answer c) as [payload|e]; cbn [app Fs.read]; [|by apply IH].
  rewrite (checkpoint_inside pol tp c Hsuffix).
  destruct (String.eqb_spec (checkpoint_path pol tp c) p); [done|by apply IH].
Qed.

Lemma new_read (l : list string) c :
  NoDup (checkpoint_path pol tp <$> l) → c ∈ l →
  Fs.read tp (new_checkpoints pol tp answer t0 l) (checkpoint_path pol tp c)
  = if Fs.path_exists tp t0 (checkpoint_path pol tp c) then None
    else match answer c with
         | Returned payload => Some (dump pol payload)
         | Raised _ => None
         end.
Proof.
  induction l as [|c0 l IH]; intros Hnd Hc; [by apply elem_of_nil in Hc|].
  rewrite fmap_cons in Hnd. apply NoDup_cons in Hnd as [Hc0 Hnd].
  rewrite new_checkpoints_cons.
  apply elem_of_cons in Hc as [->|Hc].
  - destruct (Fs.path_exists _ _ _); [by apply new_read_other|].
    destruct (answer c0) as [payload|e]; cbn [app Fs.read].
    + by rewrite (checkpoint_inside pol tp c0 Hsuffix), String.eqb_refl.
    + by apply new_read_other.
  - assert (checkpoint_path pol tp c0 ≠ checkpoint_path pol tp c) as Hne.
    { intros Heq. apply Hc0. rewrite Heq. by apply list_elem_of_fmap_2. }
    destruct (Fs.path_exists tp t0 (checkpoint_path pol tp c0));
      [by apply IH|].
    destruct (answer c0) as [payload|e]; cbn [app Fs.read]; [|by apply IH].
    rewrite (checkpoint_inside pol tp c0 Hsuffix).
    destruct (String.eqb_spec (checkpoint_path pol tp c0)
                (checkpoint_path pol tp c)); [done|by apply IH].
Qed.

(** After the run a chunk has a checkpoint exactly when it had one or the
    service answers it. *)
Lemma exists_after_run chunks c :
  NoDup (checkpoint_path pol tp <$> chunks) → c ∈ chunks →
  Fs.path_exists tp (t0 ++ new_checkpoints pol tp answer t0 chunks)
    (checkpoint_path pol tp c)
  = Fs.path_exists tp t0 (checkpoint_path pol tp c)
    || match answer c with Returned _ => true | Raised _ => false end.
Proof.
  intros Hnd Hc. unfold Fs.path_exists at 1. rewrite read_app, new_read by done.
  unfold Fs.path_exists.
  destruct (Fs.read tp t0 (checkpoint_path pol tp c)); [done|].
  by destruct (answer c).
Qed.

Lemma second_run_closed_form chunks (l : list string) :
  NoDup (checkpoint_path pol tp <$> chunks) → l ⊆ chunks →
  new_checkpoints pol tp answer
    (t0 ++ new_checkpoints pol tp answer t0 chunks) l = []
  ∧ calls_needed pol tp answer
      (t0 ++ new_checkpoints pol tp answer t0 chunks) l
    = max_retries pol * length (still_missing pol tp answer t0 l).
Proof.
  intros Hnd. unfold new_checkpoints at 1, calls_needed, still_missing.
  induction l as [|c l IH]; intros Hl; [split; [done|simpl; lia]|].
  destruct IH as [IH1 IH2]; [intros x Hx; apply Hl; by right|].
  csimpl. cbn [List.filter]. rewrite IH1, IH2.
  rewrite exists_after_run by (try done; apply Hl; left).
  destruct (Fs.path_exists tp t0 (checkpoint_path pol tp c));
    destruct (answer c); cbn [orb negb andb length];
    (split; [done|]); rewrite ?Nat.mul_succ_r; lia.
Qed.

End SecondRun.



(** ** The act loop of [main] *)

Lemma main_act_folders_elem excluded top a :
  a ∈ Main.main_act_folders excluded top ↔
  (a, true) ∈ top ∧ a ∉ excluded.
Proof.
  unfold Main.main_act_folders. rewrite list_elem_of_omap. split.
  - intros ([f isdir] & Hin & Hf). cbn [fst snd] in Hf.
    destruct isdir; [|done]. case_bool_decide; [done|].
    by injection Hf as <-.
  - intros [Hin Hex]. exists (a, true). split; [done|]. cbn [fst snd].
    by rewrite bool_decide_false.
Qed.

Lemma main_act_folders_sep_free excluded top :
  Forall (λ f, OsPath.has_sep f.1 = false) top →
  Forall (λ a, OsPath.has_sep a = false) (Main.main_act_folders excluded top).
Proof.
  rewrite !Forall_forall. intros Htop a [Hin _]%main_act_folders_elem.
  exact (Htop _ Hin).
Qed.

Lemma for_acts_raising_grows {C} (body : string → state C → result (state C))
    (acts : list string) :
  (∀ a st st', a ∈ acts → body a st = Ok st' →
     (∃ added, temp st' = temp st ++ added)
     ∧ ∃ added, final st' = final st ++ added ∧ length added ≤ 1) →
  ∀ w w', Main.for_acts_raising body acts w = Ok w' →
  (∃ added, Main.finals w' = Main.finals w ++ added
            ∧ length added ≤ length acts)
  ∧ ∀ a, ∃ added, Main.temps w' a = Main.temps w a ++ added
                  ∧ (a ∉ acts → added = []).
Proof.
  induction acts as [|a0 acts IH]; intros Hbody w w'.
  - intros [= <-]. split; [exists []; by rewrite app_nil_r|].
    intros a. exists []. by rewrite app_nil_r.
  - cbn [Main.for_acts_raising].
    destruct (body a0 (Main.enter a0 w)) as [st|e] eqn:Hact; [|done].
    intros Hrest.
    destruct (Hbody a0 _ _ ltac:(left) Hact)
      as [[added_t Ht] (added_f & Hf & Hlen)].
    destruct (IH (λ a st st' Ha, Hbody a st st' ltac:(by right)) _ _ Hrest)
      as [(added & Hfinals & Hlen') Htemps].
    cbn [Main.leave Main.enter Main.finals Main.temps temp final] in *.
    split.
    + exists (added_f ++ added). rewrite Hfinals, Hf, <- app_assoc.
      split; [done|]. rewrite length_app. cbn [length]. lia.
    + intros a. destruct (Htemps a) as (added' & Ha & Hnone).
      rewrite Ha. destruct (String.eqb_spec a a0) as [->|Hne].
      * exists (added_t ++ added'). rewrite Ht, <- app_assoc.
        split; [done|]. intros Hnot. destruct Hnot. left.
      * exists added'. split; [done|]. intros Hnot. apply Hnone.
        intros Hin. apply Hnot. by right.
Qed.

(** X17. A run of [test.py] or of [test_v1.py] that reaches its end never
    changes or removes a file: the folder of final artifacts and the
    checkpoint folder of every act keep what they held, in place; at most
    one artifact per act folder is added, and nothing is added to the
    checkpoints of a name that is no act folder (a plain file, one of the
    two output folders, ".git", "venv"). *)
Theorem structured_run_only_adds_files (ls : listing)
    (extract : service json) (top : list (string * bool))
    (w w' : Main.world jfile) :
  Forall (λ f, OsPath.has_sep f.1 = false) top →
  (Main.clause_main ls extract top w = Ok w' →
   (∃ added, Main.finals w' = Main.finals w ++ added
             ∧ length added ≤ length top)
   ∧ ∀ a, ∃ added,
       Main.temps w' a = Main.temps w a ++ added
       ∧ ((a, true) ∉ top
          ∨ a ∈ [Test.FINAL_OUTPUT_FOLDER; Test.TEMP_CHUNK_JSON_FOLDER;
                 ".git"; "venv"] →
          added = []))
  ∧ (Main.grouped_main ls extract top w = Ok w' →
     (∃ added, Main.finals w' = Main.finals w ++ added
               ∧ length added ≤ length top)
     ∧ ∀ a, ∃ added,
         Main.temps w' a = Main.temps w a ++ added
         ∧ ((a, true) ∉ top
            ∨ a ∈ [TestV1.FINAL_OUTPUT_FOLDER; TestV1.TEMP_CHUNK_JSON_FOLDER;
                   ".git"; "venv"] →
            added = [])).
Proof.
  intros Htop.
  assert (∀ excluded, length (Main.main_act_folders excluded top)
                      ≤ length top) as Hlen.
  { intros excluded. unfold Main.main_act_folders.
    induction top as [|f l IH]; [done|]. csimpl.
    apply Forall_cons in Htop as [_ Hl]. specialize (IH Hl).
    destruct (_ && _); cbn [length]; lia. }
  split; intros Hrun.
  - unfold Main.clause_main in Hrun.
    destruct (Main.for_acts_raising _ _ _) as [w1|e] eqn:Hloop; [|done].
    injection Hrun as <-.
    apply for_acts_raising_grows in Hloop as [(added & Hf & Hl) Ht].
    + cbn [Main.say Main.finals Main.temps] in *. split.
      * exists added. split; [done|]. etrans; [exact Hl|apply Hlen].
      * intros a. destruct (Ht a) as (added' & Ha & Hnone).
        exists added'. split; [done|]. intros Hnot. apply Hnone.
        rewrite main_act_folders_elem. intros [Hin Hex].
        by destruct Hnot.
    + intros a st st' Ha Hact.
      assert (OsPath.has_sep a = false) as Hsep.
      { apply main_act_folders_elem in Ha as [Hin _].
        rewrite Forall_forall in Htop. exact (Htop _ Hin). }
      destruct (clause_act_folders ls extract a st st' Hsep Hact)
        as [Htemp Hf].
      split; [exact Htemp|]. destruct Hf as [Hf|(_ & acc' & _ & Hf)].
      * exists []. rewrite app_nil_r. split; [exact Hf|simpl; lia].
      * eexists. split; [exact Hf|simpl; lia].
  - unfold Main.grouped_main in Hrun.
    destruct (Main.for_acts_raising _ _ _) as [w1|e] eqn:Hloop; [|done].
    injection Hrun as <-.
    apply for_acts_raising_grows in Hloop as [(added & Hf & Hl) Ht].
    + cbn [Main.say Main.finals Main.temps] in *. split.
      * exists added. split; [done|]. etrans; [exact Hl|apply Hlen].
      * intros a. destruct (Ht a) as (added' & Ha & Hnone).
        exists added'. split; [done|]. intros Hnot. apply Hnone.
        rewrite main_act_folders_elem. intros [Hin Hex].
        by destruct Hnot.
    + intros a st st' Ha Hact.
      assert (OsPath.has_sep a = false) as Hsep.
      { apply main_act_folders_elem in Ha as [Hin _].
        rewrite Forall_forall in Htop. exact (Htop _ Hin). }
      destruct (grouped_act_folders ls extract a st st' Hsep Hact)
        as [Htemp Hf].
      split; [exact Htemp|]. destruct Hf as [Hf|(_ & l & _ & Hf)].
      * exists []. rewrite app_nil_r. split; [exact Hf|simpl; lia].
      * eexists. split; [exact Hf|simpl; lia].
Qed.

Lemma structured_run_witness :
  Forall (λ f, OsPath.has_sep f.1 = false) Scenario.top_json
  ∧ ∃ w',
      Main.grouped_main Scenario.ls_json Scenario.always_json
        Scenario.top_json Scenario.empty_world = Ok w'
      ∧ ∃ added,
          Main.finals w' = Main.finals (@Scenario.empty_world jfile) ++ added
          ∧ length added ≤ length Scenario.top_json.
Proof.
  assert (Forall (λ f, OsPath.has_sep f.1 = false) Scenario.top_json) as Htop
    by (by repeat constructor).
  split; [exact Htop|].
  assert (∃ w', Main.grouped_main Scenario.ls_json Scenario.always_json
                  Scenario.top_json Scenario.empty_world = Ok w')
    as [w' Hrun] by (eexists; vm_compute; reflexivity).
  exists w'. split; [exact Hrun|].
  exact (proj1 (proj2 (structured_run_only_adds_files Scenario.ls_json
                         Scenario.always_json Scenario.top_json
                         Scenario.empty_world w' Htop) Hrun)).
Defined.

(** ** Acts of the text script do not interfere *)

Lemma artifact_path_inj d a b ext :
  OsPath.has_sep a = false → OsPath.has_sep b = false →
  OsPath.has_sep ext = false →
  OsPath.join d [a +:+ ext] = OsPath.join d [b +:+ ext] → a = b.
Proof.
  intros Ha Hb Hext Heq. apply (f_equal OsPath.basename) in Heq.
  rewrite !artifact_basename in Heq by done. by apply append_inj_r in Heq.
Qed.

Lemma text_act_frame (ls : listing) (extract : service string)
    (act_name : string) (st : state string) :
  OsPath.has_sep act_name = false →
  let st' := ExtractScript.process_act ls extract act_name st in
  (∃ added, temp st' = temp st ++ added)
  ∧ ∀ q, q ≠ OsPath.join ExtractScript.final_output_path [act_name +:+ ".txt"] →
         Fs.read ExtractScript.final_output_path (final st') q
         = Fs.read ExtractScript.final_output_path (final st) q.
Proof.
  intros Hsep. cbv zeta.
  pose proof (text_process_act_unfold ls extract act_name st) as Hrun.
  pose proof (text_before_combining_final ls extract act_name st) as Hfinal.
  cbv zeta in Hrun. rewrite Hrun. clear Hrun.
  assert (∃ added, temp (text_before_combining ls extract act_name st)
                   = temp st ++ added) as Htemp.
  { unfold text_before_combining.
    destruct (ExtractScript.chunks_to_process _ _) as [|c cs].
    - exists []. cbn [temp emit]. by rewrite app_nil_r.
    - cbn [temp emit].
      destruct (process_chunks_temp_prefix ExtractScript.pol extract
                  (OsPath.join ExtractScript.temp_output_path_base [act_name])
                  (c :: cs)
                  (emit [Print (FoundChunks (length (c :: cs)) act_name)]
                     (emit [Print (ProcessingAct act_name)] st)))
        as [added Hadded].
      exists added. exact Hadded. }
  destruct (chunk_text _ _ <$> _) as [|t ts].
  - split; [exact Htemp|]. intros q _. by rewrite Hfinal.
  - cbn [temp final emit write_final]. split; [exact Htemp|].
    intros q Hq. rewrite Hfinal.
    by apply read_write_ne; [apply artifact_inside|].
Qed.

Section TextActs.
Context (ls : listing) (extract : service string).

Lemma for_acts_app {C} (body : string → state C → state C) acts1 acts2 w :
  Main.for_acts body (acts1 ++ acts2) w
  = Main.for_acts body acts2 (Main.for_acts body acts1 w).
Proof. unfold Main.for_acts. apply fold_left_app. Qed.

Lemma text_acts_frame acts : ∀ w : Main.world string,
  Forall (λ a, OsPath.has_sep a = false) acts →
  let w' := Main.for_acts (ExtractScript.process_act ls extract) acts w in
  (∀ a, ∃ added, Main.temps w' a = Main.temps w a ++ added
                 ∧ (a ∉ acts → added = []))
  ∧ ∀ q,
      (∀ a, a ∈ acts →
            q ≠ OsPath.join ExtractScript.final_output_path [a +:+ ".txt"]) →
      Fs.read ExtractScript.final_output_path (Main.finals w') q
      = Fs.read ExtractScript.final_output_path (Main.finals w) q.
Proof.
  induction acts as [|a0 acts IH]; intros w Hsep; cbv zeta.
  - split; [|done]. intros a. exists []. by rewrite app_nil_r.
  - apply Forall_cons in Hsep as [Ha0 Hsep].
    change (Main.for_acts ?b (a0 :: acts) w)
      with (Main.for_acts b acts
              (Main.leave a0 (b a0 (Main.enter a0 w)) w)).
    destruct (IH (Main.leave a0
                    (ExtractScript.process_act ls extract a0 (Main.enter a0 w))
                    w) Hsep) as [Htemps Hfinals].
    destruct (text_act_frame ls extract a0 (Main.enter a0 w) Ha0)
      as [[added0 Ht0] Hf0].
    cbn [Main.leave Main.enter Main.temps Main.finals temp final] in *.
    split.
    + intros a. destruct (Htemps a) as (added & Ha & Hnone). rewrite Ha.
      destruct (String.eqb_spec a a0) as [->|Hne].
      * exists (added0 ++ added). rewrite Ht0, <- app_assoc.
        split; [done|]. intros Hnot. destruct Hnot. left.
      * exists added. split; [done|]. intros Hnot. apply Hnone.
        intros Hin. apply Hnot. by right.
    + intros q Hq. rewrite Hfinals by (intros a Ha; apply Hq; by right).
      apply Hf0, Hq. left.
Qed.

End TextActs.


